(** * mwcc: the MediaWiki Action API client, its token cache and its
      batching helpers

    A shallow embedding of [src/mwcc.ts] (class [MWCC]) and of the later
    [mwcc_static.ts] (class [MWCCStatic]): parameter normalisation, the
    request executor [ajax], the token cache ([getToken], [badToken]),
    the token-guarded post ([postWithToken]), the continuation driver
    ([continuedQuery]) and the batch splitter ([massQuery]); and of the
    methods built on these: [abort], [postWithEditToken], [create],
    [edit], [newSection], [getUserInfo], [isCategory], [getCategories],
    and the configuration store ([config], [initConfigData]).

    JavaScript objects that the methods receive and mutate live in a
    store and are passed by reference; the HTTP transport (axios) is a
    script that answers the i-th request of the client. *)

From stdpp Require Import base list strings pretty.
From Stdlib Require Import ZArith Lia Ascii.

Set Warnings "-register-all".

Open Scope Z_scope.

(** ** JavaScript values *)

(** The values the client handles: API parameters ([primitive] and
    [primitive[]] in [api_types.ts]) and decoded JSON bodies.  Numbers are
    the integers only (no fraction, NaN or infinity). *)
Inductive JsVal : Type :=
  | JUndef
  | JNull
  | JBool (b : bool)
  | JNum (n : Z)
  | JBig (n : Z)
  | JStr (s : string)
  | JArr (a : list JsVal)
  | JObj (o : list (string * JsVal)).

(** A plain object: its own enumerable properties in enumeration order. *)
Abbreviation obj := (list (string * JsVal)).

#[global] Instance JsVal_inhabited : Inhabited JsVal := populate JUndef.

(** ToBoolean. *)
Definition truthy (v : JsVal) : bool :=
  match v with
  | JUndef | JNull | JBool false | JNum 0 | JBig 0 | JStr EmptyString => false
  | _ => true
  end.

(** [typeof v === 'string'] and [typeof v === 'object']; [v == null]. *)
Definition is_string (v : JsVal) : bool :=
  match v with JStr _ => true | _ => false end.

Definition is_object (v : JsVal) : bool :=
  match v with JNull | JArr _ | JObj _ => true | _ => false end.

Definition nullish (v : JsVal) : bool :=
  match v with JUndef | JNull => true | _ => false end.

(** [String(v)].  An array prints its elements separated by commas, with
    [null] and [undefined] printed as nothing. *)
Fixpoint to_string (v : JsVal) : string :=
  match v with
  | JUndef => "undefined"
  | JNull => "null"
  | JBool true => "true"
  | JBool false => "false"
  | JNum n => pretty n
  | JBig n => pretty n
  | JStr s => s
  | JArr a =>
      String.concat ","
        (List.map (fun x => match x with
                            | JUndef | JNull => EmptyString
                            | _ => to_string x
                            end) a)
  | JObj _ => "[object Object]"
  end.

(** [Array.prototype.join]: the text of one element. *)
Definition join_elem (x : JsVal) : string :=
  match x with JUndef | JNull => EmptyString | _ => to_string x end.

(** [a.join(sep)]. *)
Definition join (sep : string) (a : list JsVal) : string :=
  String.concat sep (List.map join_elem a).

(** ** Plain objects *)

Fixpoint digits_value (acc : N) (s : string) : option N :=
  match s with
  | EmptyString => Some acc
  | String c r =>
      let d := Ascii.N_of_ascii c in
      if ((48 <=? d) && (d <=? 57))%N
      then digits_value (10 * acc + (d - 48))%N r
      else None
  end.

(** A property key is an array index when it is the canonical decimal text
    of an integer below 2^32 - 1; such keys are enumerated first, in
    ascending order, before the other keys in creation order. *)
Definition array_index (k : string) : option N :=
  match k with
  | EmptyString => None
  | _ =>
      match digits_value 0 k with
      | Some n =>
          if bool_decide (pretty n = k) && (n <? 4294967295)%N
          then Some n else None
      | None => None
      end
  end.

Definition keys (o : obj) : list string := o.*1.

Definition has_key (o : obj) (k : string) : bool := bool_decide (k ∈ keys o).

(** [o[k]] as an own-property lookup. *)
Fixpoint obj_get (o : obj) (k : string) : option JsVal :=
  match o with
  | [] => None
  | (k', v) :: r => if decide (k' = k) then Some v else obj_get r k
  end.

(** Reading a property of any value; [undefined] when it is missing.  The
    client reads named fields only ([data], [error], [code], [continue],
    [query], [tokens], [token], [assert], [assertuser] and [<type>token]),
    none of which a string, an array or a number has. *)
Definition prop (v : JsVal) (k : string) : JsVal :=
  match v with
  | JObj o => default JUndef (obj_get o k)
  | _ => JUndef
  end.

Fixpoint obj_replace (o : obj) (k : string) (v : JsVal) : obj :=
  match o with
  | [] => []
  | (k', v') :: r =>
      if decide (k' = k) then (k, v) :: r else (k', v') :: obj_replace r k v
  end.

(** Whether a new key [k] is enumerated before the existing key [k']. *)
Definition goes_before (k k' : string) : bool :=
  match array_index k, array_index k' with
  | Some i, Some j => (i <? j)%N
  | Some _, None => true
  | None, _ => false
  end.

Fixpoint obj_insert (o : obj) (k : string) (v : JsVal) : obj :=
  match o with
  | [] => [(k, v)]
  | (k', v') :: r =>
      if goes_before k k' then (k, v) :: (k', v') :: r
      else (k', v') :: obj_insert r k v
  end.

(** [o[k] = v]: an existing property keeps its place, a new one is created. *)
Definition obj_set (o : obj) (k : string) (v : JsVal) : obj :=
  if has_key o k then obj_replace o k v else obj_insert o k v.

(** [delete o[k]]. *)
Definition obj_delete (o : obj) (k : string) : obj :=
  filter (λ kv, kv.1 ≠ k) o.

(** [Object.assign(target, source)]. *)
Definition obj_assign (target source : obj) : obj :=
  foldl (λ t kv, obj_set t kv.1 kv.2) target source.

(** The invariant of every JavaScript object: no key occurs twice. *)
Definition obj_wf (o : obj) : Prop := NoDup (keys o).

(** ** Parameter normalisation *)

(** One turn of the [for (const key in parameters)] loop of
    [preprocessParameters]. *)
Definition preprocess_key (parameters : obj) (key : string) : obj :=
  match default JUndef (obj_get parameters key) with
  | JArr val => obj_set parameters key (JStr (join "|" val))
  | JBool false | JUndef => obj_delete parameters key
  | _ => parameters
  end.

(** The content of [parameters] after [preprocessParameters(parameters)]:
    the loop runs over the keys the object had on entry. *)
Definition preprocess (parameters : obj) : obj :=
  foldl preprocess_key parameters (keys parameters).

(** What the specification says normalisation does, entry by entry: an
    array becomes its elements joined with a bar, an entry that is [false]
    or [undefined] is dropped, every other entry is kept. *)
Fixpoint normalize_spec (parameters : obj) : obj :=
  match parameters with
  | [] => []
  | (k, JArr val) :: r => (k, JStr (join "|" val)) :: normalize_spec r
  | (k, JBool false) :: r | (k, JUndef) :: r => normalize_spec r
  | (k, v) :: r => (k, v) :: normalize_spec r
  end.

(** ** Request options, the store and the transport *)

(** The entries of a [URLSearchParams] list: names and values as text. *)
Abbreviation form := (list (string * string)).

(** What [options.data] can hold.  [ajax] passes it, with the parameters
    assigned to it, to [new URLSearchParams(...)], which takes a plain
    object as a record of entries, takes any object that can be iterated
    as a sequence of pairs, so that a [URLSearchParams] instance yields
    its own entries, and throws a TypeError on a String object, which
    iterates over its characters. *)
Inductive Body : Type :=
  | BodyNone                     (* undefined *)
  | BodyObject (o : obj)         (* a plain object *)
  | BodyString (f : form)        (* the text [toString()] gives for the entries [f];
                                    the empty text when [f] is empty *)
  | BodySearchParams (f : form). (* a [URLSearchParams] instance holding [f] *)

(** The fields of an [AxiosRequestConfig] that the client reads or writes. *)
Record Options : Type := mkOptions {
  method : option string;
  params : option obj;
  data : Body;
  url : option string;
  signal : option nat;
}.

Definition no_options : Options := mkOptions None None BodyNone None None.

#[global] Instance Options_inhabited : Inhabited Options := populate no_options.

Definition loc := nat.

(** What is fixed when the client is constructed: the endpoint and the
    defaults of its axios instance. *)
Record Client : Type := mkClient {
  apiUrl : string;
  defaults_method : option string;
  defaults_params : obj;
  defaults_data : obj;
}.

(** The state a call can change: the objects passed by reference, the
    token cache [this.tokens], the abort controllers registered in
    [this.aborts] and the requests handed to [axios.request] so far. *)
Record World : Type := mkWorld {
  objects : list obj;
  configs : list Options;
  tokens : JsVal;
  aborts : nat;
  sent : list Options;
}.

Definition read_obj (w : World) (l : loc) : obj := objects w !!! l.

Definition write_obj (w : World) (l : loc) (o : obj) : World :=
  mkWorld (<[l := o]> (objects w)) (configs w) (tokens w) (aborts w) (sent w).

Definition alloc_obj (w : World) (o : obj) : World * loc :=
  (mkWorld (objects w ++ [o]) (configs w) (tokens w) (aborts w) (sent w),
   length (objects w)).

Definition read_options (w : World) (l : loc) : Options := configs w !!! l.

Definition write_options (w : World) (l : loc) (o : Options) : World :=
  mkWorld (objects w) (<[l := o]> (configs w)) (tokens w) (aborts w) (sent w).

Definition alloc_options (w : World) (o : Options) : World * loc :=
  (mkWorld (objects w) (configs w ++ [o]) (tokens w) (aborts w) (sent w),
   length (configs w)).

Definition set_tokens (w : World) (t : JsVal) : World :=
  mkWorld (objects w) (configs w) t (aborts w) (sent w).

(** [o[k] = v] on a stored object. *)
Definition set_prop (w : World) (l : loc) (k : string) (v : JsVal) : World :=
  write_obj w l (obj_set (read_obj w l) k v).

(** How [axios.request] settles: with a response, or with an error. *)
Inductive AxiosOutcome : Type :=
  | AxResponse (response : JsVal)
  | AxError (error : JsVal).

(** What becomes of a call that returns a promise. *)
Inductive Result (A : Type) : Type :=
  | Resolved (v : A)
  | Rejected (e : JsVal)
  | Pending              (* the promise is never settled *)
  | Thrown (e : JsVal).  (* the call throws before it returns a promise *)

Arguments Resolved {A} v.
Arguments Rejected {A} e.
Arguments Pending {A}.
Arguments Thrown {A} e.

(** An exception raised inside a promise callback rejects the promise. *)
Definition caught {A} (r : Result A) : Result A :=
  match r with Thrown e => Rejected e | _ => r end.

(** The error values of the client, [{error: {code, info, details?}}]. *)
Definition error_value (code info : string) (details : option JsVal) : JsVal :=
  JObj [("error",
         JObj ([("code", JStr code); ("info", JStr info)]
               ++ match details with Some d => [("details", d)] | None => [] end))].

(** [err.error?.code]. *)
Definition error_code (err : JsVal) : JsVal := prop (prop err "error") "code".

(** The TypeError of [new URLSearchParams(x)] when [x] iterates over
    something other than pairs. *)
Definition TypeError : JsVal := JObj [("name", JStr "TypeError")].

Fixpoint upper (s : string) : string :=
  match s with
  | EmptyString => EmptyString
  | String c r =>
      let n := Ascii.N_of_ascii c in
      String (if ((97 <=? n) && (n <=? 122))%N
              then Ascii.ascii_of_N (n - 32) else c) (upper r)
  end.

(** [/^GET$/i.test(m)]. *)
Definition is_GET (m : string) : bool := bool_decide (upper m = "GET").

(** [a || b] on method names. *)
Definition str_or (a : option string) (b : string) : string :=
  match a with
  | Some EmptyString | None => b
  | Some s => s
  end.

(** [new URLSearchParams(record)]: one entry per property, values as text. *)
Definition form_of_record (o : obj) : form :=
  List.map (λ kv, (kv.1, to_string kv.2)) o.

(** [/limit$/.test(key)]. *)
Definition ends_with_limit (key : string) : bool :=
  bool_decide (String.substring (String.length key - 5) 5 key = "limit").

(** [mapLegacyToken]: legacy types of API [action=tokens]. *)
Definition csrfActions : list string :=
  ["edit"; "delete"; "protect"; "move"; "block"; "unblock"; "email";
   "import"; "options"].

Definition mapLegacyToken (action : string) : string :=
  if bool_decide (action ∈ csrfActions) then "csrf" else action.

(** [v === 'text']. *)
Definition is_str (v : JsVal) (s : string) : bool :=
  match v with JStr x => bool_decide (x = s) | _ => false end.

Definition with_method (o : Options) (m : string) : Options :=
  mkOptions (Some m) (params o) (data o) (url o) (signal o).

Definition with_params (o : Options) (p : obj) : Options :=
  mkOptions (method o) (Some p) (data o) (url o) (signal o).

Definition with_data (o : Options) (d : Body) : Options :=
  mkOptions (method o) (params o) d (url o) (signal o).

Definition with_url_signal (o : Options) (u : string) (s : nat) : Options :=
  mkOptions (method o) (params o) (data o) (Some u) (Some s).

(** The fixed default parameters of [ajax]. *)
Definition defaults : obj :=
  [("action", JStr "query"); ("format", JStr "json"); ("formatversion", JStr "2")].

(** The [then] and [catch] callbacks of [ajax]: how the outcome of
    [axios.request] settles the promise that [ajax] returns. *)
Definition settle (out : AxiosOutcome) : Result JsVal :=
  match out with
  | AxResponse response =>
      if nullish response || negb (truthy (prop response "data")) then
        Rejected (error_value "ok-but-empty"
                    "OK response but empty result (check HTTP headers?)"
                    (Some response))
      else if negb (is_object (prop response "data")) then
        Rejected (error_value "invalidjson"
                    "Invalid JSON response (check the request URL?)" None)
      else if truthy (prop (prop response "data") "error") then
        Rejected (prop response "data")
      else Resolved (prop response "data")
  | AxError error =>
      if truthy error && is_str (prop error "code") "ERR_CANCELED" then
        Rejected (error_value "aborted" "HTTP request aborted by user" None)
      else
        Rejected (error_value "http" "HTTP request failed" (Some error))
  end.

(** The second argument of [getToken]: nothing, a string (taken as the
    [assert] parameter) or a parameter object. *)
Inductive Extra : Type :=
  | ExtraNone
  | ExtraString (s : string)
  | ExtraObject (l : loc).

(** The text of one double quote. *)
Definition dquote : string := String "034"%char EmptyString.

(** [delete v[k]]. *)
Definition delete_prop (v : JsVal) (k : string) : JsVal :=
  match v with
  | JObj o => JObj (obj_delete o k)
  | _ => v
  end.

(** [v[0]]: the first element of an array, the first character of a
    string, the property [0] of a plain object; [undefined] on a number
    or a boolean. *)
Definition first_of (v : JsVal) : JsVal :=
  match v with
  | JArr a => default JUndef (head a)
  | JStr (String c _) => JStr (String c EmptyString)
  | JObj o => default JUndef (obj_get o "0")
  | _ => JUndef
  end.

(** [v === void 0]. *)
Definition is_undefined (v : JsVal) : bool :=
  match v with JUndef => true | _ => false end.

(** [a && b]. *)
Definition js_and (a b : JsVal) : JsVal := if truthy a then b else a.

(** A parameter declared with the default value [false]. *)
Definition or_false (v : JsVal) : JsVal :=
  match v with JUndef => JBool false | _ => v end.

(** [p.then(f)] and [p.catch(g)] on a promise that is settled or never
    will be; a call that threw has returned no promise to chain on. *)
Definition and_then (r : Result JsVal) (f : JsVal → Result JsVal) : Result JsVal :=
  match r with Resolved v => caught (f v) | _ => r end.

Definition or_else (r : Result JsVal) (g : JsVal → Result JsVal) : Result JsVal :=
  match r with Rejected e => caught (g e) | _ => r end.

(** The error [{error: {code: 'ok-but-empty', info: 'OK response but
    empty result'}}] of the helpers that read a response. *)
Definition empty_result : JsVal :=
  error_value "ok-but-empty" "OK response but empty result" None.

(** ** The methods shared by [MWCC] and [MWCCStatic] *)

Module Base.
Section Base.

(** The two classes differ in one line of [ajax]: [MWCC] stores
    [new URLSearchParams(data).toString()] in [options.data],
    [MWCCStatic] stores the [URLSearchParams] instance itself. *)
Variable encode : form → Body.
Variable client : Client.
(** The transport: [transport i] is how the i-th call of
    [axios.request] made through this client settles. *)
Variable transport : nat → AxiosOutcome.

Definition preprocessParameters (w : World) (parameters : loc) : World :=
  write_obj w parameters (preprocess (read_obj w parameters)).

(** The tail of [ajax]: [options.url], the abort controller, and the
    call of [axios.request(options)]. *)
Definition request (w : World) (options : loc) : World * Result JsVal :=
  let w := write_options w options
             (with_url_signal (read_options w options) (apiUrl client) (aborts w)) in
  (mkWorld (objects w) (configs w) (tokens w) (S (aborts w))
           (sent w ++ [read_options w options]),
   settle (transport (length (sent w)))).

Definition ajax (w : World) (parameters options : loc) : World * Result JsVal :=
  (* Ensure that token parameter is last *)
  let token :=
    match prop (JObj (read_obj w parameters)) "token" with
    | JStr t => t
    | _ => EmptyString
    end in
  let w :=
    if is_string (prop (JObj (read_obj w parameters)) "token")
    then write_obj w parameters (obj_delete (read_obj w parameters) "token")
    else w in
  (* Clean up parameters *)
  let w := preprocessParameters w parameters in
  (* Set up the request body *)
  let m := str_or (method (read_options w options))
             (str_or (defaults_method client) "GET") in
  let w := write_options w options (with_method (read_options w options) m) in
  if is_GET m then
    let p := default [] (params (read_options w options)) in
    let p := obj_assign (obj_assign (obj_assign p (defaults_params client)) defaults)
               (read_obj w parameters) in
    let p := if truthy (JStr token) then obj_set p "token" (JStr token) else p in
    let w := write_options w options (with_params (read_options w options) p) in
    request w options
  else
    let build (target : obj) :=
      let d := obj_assign (obj_assign (obj_assign target (defaults_data client)) defaults)
                 (read_obj w parameters) in
      let d := if truthy (JStr token) then obj_set d "token" (JStr token) else d in
      let w := write_options w options
                 (with_data (read_options w options) (encode (form_of_record d))) in
      request w options in
    match data (read_options w options) with
    | BodyNone | BodyString [] => build []
    | BodyObject o => build o
    | BodySearchParams f =>
        (* the constructor copies the entries of the instance; the
           properties assigned to it are not entries *)
        let w := write_options w options
                   (with_data (read_options w options) (encode f)) in
        request w options
    | BodyString (_ :: _) =>
        (* a String object iterates over its characters, not over pairs *)
        (w, Thrown TypeError)
    end.

(** [options = {}] when the argument is left out. *)
Definition or_fresh (w : World) (options : option loc) : World * loc :=
  match options with
  | Some l => (w, l)
  | None => alloc_options w no_options
  end.

Definition get (w : World) (parameters : loc) (options : option loc)
  : World * Result JsVal :=
  let '(w, options) := or_fresh w options in
  let w := write_options w options (with_method (read_options w options) "GET") in
  ajax w parameters options.

Definition post (w : World) (parameters : loc) (options : option loc)
  : World * Result JsVal :=
  let '(w, options) := or_fresh w options in
  let w := write_options w options (with_method (read_options w options) "POST") in
  ajax w parameters options.

(** [getToken(tokenType, additionalParams)]. *)
Definition getToken (w : World) (tokenType : string) (additionalParams : Extra)
  : World * Result JsVal :=
  (* Do we have a cashed token? *)
  let tokenType := mapLegacyToken tokenType in
  let tokenName := tokenType +:+ "token" in
  let cashedToken := prop (tokens w) tokenName in
  if truthy cashedToken then (w, Resolved cashedToken)
  else
    (* Send an API request *)
    let additionalParams :=
      match additionalParams with
      | ExtraString s => [("assert", JStr s)]
      | ExtraObject l => read_obj w l
      | ExtraNone => []
      end in
    let '(w, params) :=
      alloc_obj w (obj_assign [("meta", JStr "tokens"); ("type", JStr "*")]
                     additionalParams) in
    let '(w, r) := get w params None in
    match r with
    | Resolved res =>
        let resToken := prop (prop res "query") "tokens" in
        if truthy resToken then
          let w := set_tokens w resToken in
          let token := prop resToken tokenName in
          if truthy token then (w, Resolved token)
          else (w, Rejected (error_value "badnamedtoken"
                               ("Could not find a token named " +:+ dquote +:+ tokenType
                                +:+ dquote +:+ " (check for typos?)") None))
        else (w, Rejected (error_value "ok-but-empty" "OK response but empty result" None))
    | Rejected e | Thrown e => (w, Rejected e)
    | Pending => (w, Pending)
    end.

(** [badToken(tokenType)]. *)
Definition badToken (w : World) (tokenType : string) : World :=
  let tokenType := mapLegacyToken tokenType in
  let tokenName := tokenType +:+ "token" in
  if truthy (prop (tokens w) tokenName)
  then set_tokens w (delete_prop (tokens w) tokenName)
  else w.

(** [abort()]: every registered controller is signalled and the registry
    is emptied.  What the signal does to a request that has not settled
    is the transport's to say. *)
Definition abort (w : World) : World :=
  mkWorld (objects w) (configs w) (tokens w) 0 (sent w).

(** [getEditToken()]. *)
Definition getEditToken (w : World) : World * Result JsVal :=
  getToken w "csrf" ExtraNone.

(** [getUserInfo(assertUser = false)].  The [verbose] argument that
    [MWCCStatic] adds switches a message on the console. *)
Definition getUserInfo (w : World) (assertUser : JsVal) : World * Result JsVal :=
  let assertUser := or_false assertUser in
  let '(w, params) :=
    alloc_obj w [("meta", JStr "userinfo"); ("uiprop", JStr "groups|rights");
                 ("assert", js_and assertUser (JStr "user"))] in
  let '(w, r) := get w params None in
  (w, or_else
        (and_then r (λ res,
           let resUi := prop (prop res "query") "userinfo" in
           if truthy resUi then Resolved resUi else Rejected empty_result))
        (λ err, Resolved JNull)).

End Base.
End Base.

(** ** [MWCC] of [src/mwcc.ts] *)

Module MWCC.
Section MWCC.

Variable client : Client.
Variable transport : nat → AxiosOutcome.

Definition ajax := Base.ajax BodyString client transport.
Definition get := Base.get BodyString client transport.
Definition post := Base.post BodyString client transport.
Definition getToken := Base.getToken BodyString client transport.
Definition badToken := Base.badToken.

(** [postWithToken(tokenType, params, options)] as [mwcc.ts] has it: the
    retry ends in [.catch(reject)] only. *)
Definition postWithToken (w : World) (tokenType : string) (params : loc)
    (options : option loc) : World * Result JsVal :=
  let '(w, options) := Base.or_fresh w options in
  let '(w, assertParams) :=
    alloc_obj w [("assert", prop (JObj (read_obj w params)) "assert");
                 ("assertuser", prop (JObj (read_obj w params)) "assertuser")] in
  let '(w, r) := getToken w tokenType (ExtraObject assertParams) in
  match r with
  | Resolved token =>
      let w := set_prop w params "token" token in
      let '(w, r) := post w params (Some options) in
      match r with
      | Resolved v => (w, Resolved v)
      | Rejected err =>
          (* Error handler *)
          if is_str (error_code err) "badtoken" then
            let w := badToken w tokenType in
            (* Try again, once *)
            let w := set_prop w params "token" JUndef in
            let '(w, r) := getToken w tokenType (ExtraObject assertParams) in
            match r with
            | Resolved t =>
                let w := set_prop w params "token" t in
                let '(w, r) := post w params (Some options) in
                match r with
                | Resolved _ => (w, Pending)
                | Rejected e | Thrown e => (w, Rejected e)
                | Pending => (w, Pending)
                end
            | Rejected e | Thrown e => (w, Rejected e)
            | Pending => (w, Pending)
            end
          else (w, Rejected err)
      | Thrown e => (w, Rejected e)
      | Pending => (w, Pending)
      end
  | Rejected e | Thrown e => (w, Rejected e)
  | Pending => (w, Pending)
  end.

(** [postWithEditToken(params, options)]. *)
Definition postWithEditToken (w : World) (params : loc) (options : option loc)
  : World * Result JsVal :=
  postWithToken w "csrf" params options.

(** [create(title, params, content, assertUser = false)]. *)
Definition create (w : World) (title : JsVal) (params : loc) (content assertUser : JsVal)
  : World * Result JsVal :=
  let assertUser := or_false assertUser in
  let '(w, merged) :=
    alloc_obj w (obj_assign [("action", JStr "edit"); ("title", JStr (to_string title));
                             ("text", content); ("createonly", JBool true);
                             ("assert", js_and assertUser (JStr "user"))]
                   (read_obj w params)) in
  let '(w, r) := postWithEditToken w merged None in
  (w, caught r).

End MWCC.
End MWCC.

(** ** [MWCCStatic] of [mwcc_static.ts] *)

(** The [fields] argument of [massQuery]: a name or an array of names. *)
Inductive Fields : Type :=
  | OneField (s : string)
  | ManyFields (l : list string).

(** The own enumerable properties that [Object.assign] copies from a
    source value: those of an object, the elements of an array and the
    characters of a string under their indices. *)
Definition own_entries (v : JsVal) : obj :=
  match v with
  | JObj o => o
  | JArr a => imap (λ i x, (pretty i, x)) a
  | JStr s => imap (λ i c, (pretty i, JStr (String c EmptyString)))
                (String.list_ascii_of_string s)
  | _ => []
  end.

(** [a0.length === arr.length && a0.every((el, i) => arr[i] === el)]. *)
Definition same_array (a0 arr : list string) : bool :=
  bool_decide (length a0 = length arr)
  && forallb (λ ie, bool_decide (arr !! ie.1 = Some ie.2)) (imap pair a0).

(** [Promise.all] of promises that are already settled or never will be. *)
Fixpoint Promise_all {A} (ps : list (Result A)) : Result (list A) :=
  match ps with
  | [] => Resolved []
  | p :: ps =>
      match p, Promise_all ps with
      | Rejected e, _ | Thrown e, _ => Rejected e
      | Resolved _, Rejected e => Rejected e
      | Resolved _, Thrown e => Rejected e
      | Resolved v, Resolved vs => Resolved (v :: vs)
      | _, _ => Pending
      end
  end.

(** [p.then(res => res).catch(err => err)]. *)
Definition outcome_of (r : Result JsVal) : Result JsVal :=
  match r with
  | Resolved v | Rejected v | Thrown v => Resolved v
  | Pending => Pending
  end.

Module MWCCStatic.
Section MWCCStatic.

Variable client : Client.
Variable transport : nat → AxiosOutcome.

Definition ajax := Base.ajax BodySearchParams client transport.
Definition get := Base.get BodySearchParams client transport.
Definition post := Base.post BodySearchParams client transport.
Definition getToken := Base.getToken BodySearchParams client transport.
Definition badToken := Base.badToken.

(** [get apilimit()]. *)
Definition apilimit : Z := 50.

(** The helper [req] of [continuedQuery].  [responses] is the array the
    callbacks push to; [fuel] bounds the depth of the recursion. *)
Fixpoint req (fuel : nat) (limit : Z) (w : World) (params : loc) (count : Z)
    (responses : list JsVal) : World * Result (list JsVal) :=
  match fuel with
  | O => (w, Pending)
  | S fuel =>
      let '(w, r) := get w params None in
      match r with
      | Resolved res =>
          let responses := responses ++ [res] in
          let resCont := prop res "continue" in
          if truthy resCont && (count <? limit) then
            let w := write_obj w params
                       (obj_assign (read_obj w params) (own_entries resCont)) in
            req fuel limit w params (count + 1) responses
          else (w, Resolved responses)
      | Rejected err | Thrown err => (w, Resolved (responses ++ [err]))
      | Pending => (w, Pending)
      end
  end.

(** [continuedQuery(parameters, limit = 10)].  At most [max 1 limit]
    requests are made, which is the fuel given to [req]. *)
Definition continuedQuery (w : World) (parameters : loc) (limit : option Z)
  : World * Result (list JsVal) :=
  let limit := default 10 limit in
  req (S (Z.to_nat (limit - 1))) limit w parameters 1 [].

(** [postWithToken(tokenType, params, options)] as [mwcc_static.ts] has
    it: the retry ends in [.then(resolve).catch(reject)]. *)
Definition postWithToken (w : World) (tokenType : string) (params : loc)
    (options : option loc) : World * Result JsVal :=
  let '(w, options) := Base.or_fresh w options in
  let '(w, assertParams) :=
    alloc_obj w [("assert", prop (JObj (read_obj w params)) "assert");
                 ("assertuser", prop (JObj (read_obj w params)) "assertuser")] in
  let '(w, r) := getToken w tokenType (ExtraObject assertParams) in
  match r with
  | Resolved token =>
      let w := set_prop w params "token" token in
      let '(w, r) := post w params (Some options) in
      match r with
      | Resolved v => (w, Resolved v)
      | Rejected err =>
          (* Error handler *)
          if is_str (error_code err) "badtoken" then
            let w := badToken w tokenType in
            (* Try again, once *)
            let w := set_prop w params "token" JUndef in
            let '(w, r) := getToken w tokenType (ExtraObject assertParams) in
            match r with
            | Resolved t =>
                let w := set_prop w params "token" t in
                let '(w, r) := post w params (Some options) in
                match r with
                | Resolved v => (w, Resolved v)
                | Rejected e | Thrown e => (w, Rejected e)
                | Pending => (w, Pending)
                end
            | Rejected e | Thrown e => (w, Rejected e)
            | Pending => (w, Pending)
            end
          else (w, Rejected err)
      | Thrown e => (w, Rejected e)
      | Pending => (w, Pending)
      end
  | Rejected e | Thrown e => (w, Rejected e)
  | Pending => (w, Pending)
  end.

(** The callback of the [reduce] over [Object.keys(parameters)] in
    [massQuery]: the state is the copied parameter object, the
    accumulator [fieldValues] and [nonArrayBatchParams]. *)
Definition collect (fields : list string) (apilimit : Z)
    (st : obj * list (list string) * list string) (key : string)
  : obj * list (list string) * list string :=
  let '(parameters, acc, nonArrayBatchParams) := st in
  if bool_decide (key ∈ fields) then
    match prop (JObj parameters) key with
    | JArr val => (parameters, acc ++ [List.map to_string val], nonArrayBatchParams)
    | _ => (parameters, acc, nonArrayBatchParams ++ [dquote +:+ key +:+ dquote])
    end
  else if ends_with_limit key
          && (bool_decide (apilimit = 500) || bool_decide (apilimit = 50)) then
    (* If this is a '**limit' parameter and the value is the default one,
       set it to 'max' *)
    (obj_set parameters key (JStr "max"), acc, nonArrayBatchParams)
  else (parameters, acc, nonArrayBatchParams).

(** The [while (batchArray.length)] loop of [massQuery] followed by
    [Promise.all(result)]; [None] when the fuel does not suffice. *)
Fixpoint send_batches (fuel : nat) (apilimit : Z) (fields : list string)
    (parameters : loc) (w : World) (batchArray : list string)
    (result : list (Result JsVal)) : option (World * Result (list JsVal)) :=
  match batchArray with
  | [] => Some (w, Promise_all result)
  | _ :: _ =>
      match fuel with
      | O => None
      | S fuel =>
          let multiValue := String.concat "|" (take (Z.to_nat apilimit) batchArray) in
          let batchArray := drop (Z.to_nat apilimit) batchArray in
          let '(w, params) := alloc_obj w (obj_assign [] (read_obj w parameters)) in
          let w := foldl (λ w key, set_prop w params key (JStr multiValue)) w fields in
          let '(w, r) := post w params None in
          match r with
          | Thrown e => Some (w, Thrown e)
          | _ => send_batches fuel apilimit fields parameters w batchArray
                   (result ++ [outcome_of r])
          end
      end
  end.

(** [massQuery(parameters, fields, options)], with [options.apilimit]
    given as [limit] ([None] when it is not a number).  What
    [options.verbose] switches is a message on the console. *)
Definition massQuery (fuel : nat) (w : World) (parameters : loc) (fields : Fields)
    (limit : option Z) : option (World * Result (list JsVal)) :=
  (* Initialize variables *)
  let apilimit := default apilimit limit in
  let '(w, parameters) := alloc_obj w (obj_assign [] (read_obj w parameters)) in
  let fields :=
    filter (λ v, v ≠ EmptyString)
      (match fields with ManyFields l => l | OneField s => [s] end) in
  (* Unflat multi-value field arrays into one array to check equality *)
  let '(o, fieldValues, nonArrayBatchParams) :=
    foldl (collect fields apilimit) (read_obj w parameters, [], [])
      (keys (read_obj w parameters)) in
  let w := write_obj w parameters o in
  if bool_decide (nonArrayBatchParams ≠ []) then
    Some (w, Rejected (error_value "nonarray-exception"
                         ("The value(s) for " +:+ String.concat ", " nonArrayBatchParams
                          +:+ " must be arrays") None))
  else if bool_decide (fields = []) then
    Some (w, Rejected (error_value "emptyfield"
                         ("The " +:+ dquote +:+ "fields" +:+ dquote +:+ " parameter is empty")
                         None))
  else
    match fieldValues with
    | [] =>
        Some (w, Rejected (error_value "nomultivalue"
                             "There's no multi-value field (check for typos in parameter keys?)"
                             None))
    | batchArray :: others =>
        (* If there are multiple multi-value fields, all of them must
           have the same array *)
        if negb (forallb (same_array batchArray) others) then
          Some (w, Rejected (error_value "nonindentical-arrays"
                               "The multi-value fields must all have the same array" None))
        else
          (* Check for an empty multi-value (this is not an error) *)
          match batchArray with
          | [] => Some (w, Resolved [])
          | _ :: _ =>
              (* Send API requests *)
              send_batches fuel apilimit fields parameters w batchArray []
          end
    end.

(** [postWithEditToken(params, options)]. *)
Definition postWithEditToken (w : World) (params : loc) (options : option loc)
  : World * Result JsVal :=
  postWithToken w "csrf" params options.

(** [create(title, params, content, assertUser = false)]. *)
Definition create (w : World) (title : JsVal) (params : loc) (content assertUser : JsVal)
  : World * Result JsVal :=
  let assertUser := or_false assertUser in
  let '(w, merged) :=
    alloc_obj w (obj_assign [("action", JStr "edit"); ("title", JStr (to_string title));
                             ("text", content); ("createonly", JBool true);
                             ("assert", js_and assertUser (JStr "user"))]
                   (read_obj w params)) in
  let '(w, r) := postWithEditToken w merged None in
  (w, caught r).

(** [revision?.slots?.main.content]: the chain ends at a missing
    [revision] or [slots]; reading [content] of a missing [main] is a
    TypeError. *)
Definition main_content (revision : JsVal) : Result JsVal :=
  if nullish revision then Resolved JUndef
  else if nullish (prop revision "slots") then Resolved JUndef
  else if nullish (prop (prop revision "slots") "main") then Thrown TypeError
  else Resolved (prop (prop (prop revision "slots") "main") "content").

(** [edit(title, transform)].  [anon] is the field [this.anon];
    [transform] is the callback, which is handed the world as any code
    of the caller is, and whose result is awaited. *)
Definition edit (anon : bool) (transform : World → JsVal → World * Result JsVal)
    (w : World) (title : JsVal) : World * Result JsVal :=
  let title := to_string title in
  let '(w, params) :=
    alloc_obj w [("prop", JStr "revisions"); ("rvprop", JStr "content|timestamp");
                 ("rvslots", JStr "main"); ("titles", JStr title);
                 ("curtimestamp", JBool true)] in
  let '(w, r) := get w params None in
  match r with
  | Resolved resRev =>
      if truthy (prop resRev "error") then (w, Rejected resRev)
      else
        let resPages := prop (prop resRev "query") "pages" in
        let page := first_of resPages in
        if negb (truthy resPages) || negb (truthy page) then (w, Rejected empty_result)
        else if truthy (prop page "invalidreason") then
          (w, Rejected (JObj [("error", JObj [("code", JStr "invalidtitle");
                                              ("info", prop page "invalidreason")])]))
        else if truthy (prop page "missing") then
          (w, Rejected (error_value "nocreate-missing" "The requested page does not exist"
                          None))
        else
          let revision := js_and (prop page "revisions") (first_of (prop page "revisions")) in
          let basetimestamp := prop revision "timestamp" in
          let starttimestamp := prop resRev "curtimestamp" in
          match main_content revision with
          | Resolved content =>
              if negb (truthy revision) || negb (truthy basetimestamp)
                 || is_undefined content
              then (w, Rejected empty_result)
              else
                let '(w, r) :=
                  transform w (JObj [("timestamp", basetimestamp); ("content", content)]) in
                match r with
                | Resolved params =>
                    let editParams :=
                      if is_object params then own_entries params
                      else [("text", JStr (to_string params))] in
                    let '(w, merged) :=
                      alloc_obj w
                        (obj_assign [("action", JStr "edit"); ("title", JStr title);
                                     ("assert", if anon then JUndef else JStr "user");
                                     ("basetimestamp", basetimestamp);
                                     ("starttimestamp", starttimestamp);
                                     ("nocreate", JBool true)]
                           editParams) in
                    let '(w, r) := postWithEditToken w merged None in
                    (w, caught r)
                | Rejected e | Thrown e => (w, Rejected e)
                | Pending => (w, Pending)
                end
          | Rejected e | Thrown e => (w, Rejected e)
          | Pending => (w, Pending)
          end
  | Rejected e | Thrown e => (w, Rejected e)
  | Pending => (w, Pending)
  end.

(** [newSection(title, header, content, additionalParams = {})].  The
    call in the source reads
    [this.postWithEditToken(Object.assign({...}), additionalParams)]:
    [Object.assign] has the literal as its only argument, and
    [additionalParams] is the second argument of [postWithEditToken],
    its request options.  So the object is read as an
    [AxiosRequestConfig] here, and is a location of that store. *)
Definition newSection (w : World) (title header content : JsVal)
    (additionalParams : option loc) : World * Result JsVal :=
  let '(w, params) :=
    alloc_obj w (obj_assign [("action", JStr "edit"); ("section", JStr "new");
                             ("title", JStr (to_string title)); ("sectiontitle", header);
                             ("text", content)] []) in
  postWithEditToken w params additionalParams.

(** [isCategory(title)]. *)
Definition isCategory (w : World) (title : JsVal) : World * Result JsVal :=
  let '(w, params) :=
    alloc_obj w [("prop", JStr "categoryinfo"); ("titles", JStr (to_string title))] in
  let '(w, r) := get w params None in
  (w, or_else
        (and_then r (λ res,
           let resPages := prop (prop res "query") "pages" in
           Resolved (JBool (truthy (js_and resPages
                                      (js_and (first_of resPages)
                                         (prop (first_of resPages) "categoryinfo")))))))
        (λ err, Resolved JNull)).

(** [categories.map((cat) => cat.title)]: a TypeError when [categories]
    is not an array, or when an element is [null] or [undefined]. *)
Definition category_titles (categories : JsVal) : Result JsVal :=
  match categories with
  | JArr cats =>
      if forallb (λ cat, negb (nullish cat)) cats
      then Resolved (JArr (List.map (λ cat, prop cat "title") cats))
      else Thrown TypeError
  | _ => Thrown TypeError
  end.

(** [getCategories(title)]. *)
Definition getCategories (w : World) (title : JsVal) : World * Result JsVal :=
  let '(w, params) :=
    alloc_obj w [("prop", JStr "categories"); ("titles", JStr (to_string title))] in
  let '(w, r) := get w params None in
  (w, or_else
        (and_then r (λ res,
           let resPages := prop (prop res "query") "pages" in
           let page := first_of resPages in
           let categories := prop page "categories" in
           if negb (truthy resPages) || negb (truthy page) || negb (truthy categories)
           then Rejected empty_result
           else if truthy (prop page "invalidreason") then
             Rejected (JObj [("error", JObj [("code", JStr "invalidtitle");
                                             ("info", prop page "invalidreason")])])
           else if truthy (prop page "missing") then
             Rejected (error_value "pagemissing" "The requested page does not exist" None)
           else category_titles categories))
        (λ err, Resolved JNull)).

End MWCCStatic.
End MWCCStatic.

(** ** The configuration store of [MWCC] *)

Module Config.

(** A number of the store: the identifiers and counts are integers, and
    the initial values are NaN, which [parseInt] gives too. *)
Inductive number : Type :=
  | NaN
  | Int (n : Z).

(** The values [configData] can hold: those of a decoded response, and
    NaN. *)
Inductive Val : Type :=
  | VUndef
  | VNull
  | VBool (b : bool)
  | VNum (n : number)
  | VBig (n : Z)
  | VStr (s : string)
  | VArr (a : list Val)
  | VObj (o : list (string * Val)).

#[global] Instance Val_inhabited : Inhabited Val := populate VUndef.

(** A value of a response as a value of the store. *)
Fixpoint of_js (v : JsVal) : Val :=
  match v with
  | JUndef => VUndef
  | JNull => VNull
  | JBool b => VBool b
  | JNum n => VNum (Int n)
  | JBig n => VBig n
  | JStr s => VStr s
  | JArr a => VArr (List.map of_js a)
  | JObj o => VObj (List.map (λ kv, (kv.1, of_js kv.2)) o)
  end.

(** The results of [typeof]. *)
Inductive TypeOf : Type :=
  | TUndefined
  | TObject
  | TBoolean
  | TNumber
  | TBigint
  | TString.

#[global] Instance TypeOf_eq_dec : EqDecision TypeOf.
Proof. solve_decision. Defined.

Definition typeof (v : Val) : TypeOf :=
  match v with
  | VUndef => TUndefined
  | VNull | VArr _ | VObj _ => TObject
  | VBool _ => TBoolean
  | VNum _ => TNumber
  | VBig _ => TBigint
  | VStr _ => TString
  end.

(** The keys of [configData]. *)
Inductive ConfigName : Type :=
  | wgArticlePath
  | wgCaseSensitiveNamespaces
  | wgContentLanguage
  | wgContentNamespaces
  | wgFormattedNamespaces
  | wgLegalTitleChars
  | wgNamespaceIds
  | wgScript
  | wgScriptPath
  | wgServer
  | wgServerName
  | wgSiteName
  | wgUserEditCount
  | wgUserGroups
  | wgUserId
  | wgUserName
  | wgUserRights
  | wgVersion
  | wgWikiID.

#[global] Instance ConfigName_eq_dec : EqDecision ConfigName.
Proof. solve_decision. Defined.

Definition all_names : list ConfigName :=
  [wgArticlePath; wgCaseSensitiveNamespaces; wgContentLanguage; wgContentNamespaces;
   wgFormattedNamespaces; wgLegalTitleChars; wgNamespaceIds; wgScript; wgScriptPath;
   wgServer; wgServerName; wgSiteName; wgUserEditCount; wgUserGroups; wgUserId;
   wgUserName; wgUserRights; wgVersion; wgWikiID].

(** The object [configData]: a value under each key. *)
Definition ConfigData : Type := ConfigName → Val.

(** [configData[configName] = configValue]. *)
Definition update (configData : ConfigData) (configName : ConfigName) (configValue : Val)
  : ConfigData :=
  λ name, if decide (name = configName) then configValue else configData name.

(** The temporary value of the strings, ['\x01']. *)
Definition unset : string := String "001"%char EmptyString.

(** The initial [configData]. *)
Definition initial : ConfigData := λ name,
  match name with
  | wgCaseSensitiveNamespaces | wgContentNamespaces => VArr [VNum NaN]
  | wgFormattedNamespaces | wgNamespaceIds => VObj []
  | wgUserEditCount | wgUserId => VNum NaN
  | wgUserGroups | wgUserRights => VArr [VStr unset]
  | _ => VStr unset
  end.

(** [validateConfigValue(_, val)]: the value when it is not an initial
    one, or else [null]. *)
Definition validateConfigValue (val : Val) : Val :=
  match val with
  | VStr s => if bool_decide (s ≠ unset) then val else VNull
  | VNum n => match n with Int _ => val | NaN => VNull end
  | VArr a =>
      match a with
      | [] | VUndef :: _ => VArr a
      | VStr s :: _ => if bool_decide (s ≠ unset) then VArr a else VNull
      | VNum (Int _) :: _ => VArr a
      | _ => VNull
      end
  | _ => VNull
  end.

(** [config.get(configName)]. *)
Definition get (configData : ConfigData) (configName : ConfigName) : Val :=
  validateConfigValue (configData configName).

(** [config.set(configName, configValue)]: the store afterwards, and
    whether the value was set. *)
Definition set (configData : ConfigData) (configName : ConfigName) (configValue : Val)
  : ConfigData * bool :=
  let oldType := typeof (configData configName) in
  let newType := typeof configValue in
  if bool_decide (oldType ≠ TUndefined) && bool_decide (oldType = newType)
  then (update configData configName configValue, true)
  else (configData, false).

(** [config.exists(configName)]. *)
Definition exists_ (configData : ConfigData) (configName : ConfigName) : bool :=
  match validateConfigValue (configData configName) with
  | VNull => false
  | _ => true
  end.

(** [o[k] = v] with a computed key on an object literal: assigning to
    [__proto__] makes no property. *)
Definition record_set (o : obj) (k : string) (v : JsVal) : obj :=
  if bool_decide (k = "__proto__") then o else obj_set o k v.

(** [s.replace(/ /g, '_')]. *)
Fixpoint underscores (s : string) : string :=
  match s with
  | EmptyString => EmptyString
  | String c r => String (if bool_decide (c = " "%char) then "_"%char else c) (underscores r)
  end.

(** [s.replace(/^MediaWiki /, '')]. *)
Definition strip_MediaWiki (s : string) : string :=
  if String.prefix "MediaWiki " s
  then String.substring 10 (String.length s - 10) s
  else s.

Section Config.

(** [parseInt] and [String.prototype.toLowerCase] of the platform. *)
Variable parseInt : string → number.
Variable toLowerCase : string → string.

(** The helper [set] of [initConfigData], for its effect on the store:
    an [undefined] value is not set. *)
Definition set_value (configData : ConfigData) (nv : ConfigName * Val) : ConfigData :=
  match nv.2 with
  | VUndef => configData
  | _ => (set configData nv.1 nv.2).1
  end.

(** The loop [for (const nsnumber in query.namespaces)] over the entries
    it visits; [None] when it throws a TypeError, which reading [case]
    of [null] or [undefined] is. *)
Fixpoint scan_namespaces (entries : obj) (caseSensitive content : list number)
    (formatted : obj) : option (list number * list number * obj) :=
  match entries with
  | [] => Some (caseSensitive, content, formatted)
  | (nsnumber, o) :: entries =>
      if nullish o then None
      else
        let formatted := record_set formatted nsnumber (prop o "name") in
        if is_str (prop o "case") "case-sensitive" then
          scan_namespaces entries (caseSensitive ++ [parseInt nsnumber]) content formatted
        else if truthy (prop o "content") then
          scan_namespaces entries caseSensitive (content ++ [parseInt nsnumber]) formatted
        else scan_namespaces entries caseSensitive content formatted
  end.

(** The callback of [query.namespacealiases.forEach] over the elements;
    [None] when it throws a TypeError: on an element that is [null] or
    [undefined], or whose [alias] is not a string. *)
Fixpoint scan_aliases (aliases : list JsVal) (ids : obj) : option obj :=
  match aliases with
  | [] => Some ids
  | x :: aliases =>
      if nullish x then None
      else
        match prop x "alias" with
        | JStr alias =>
            scan_aliases aliases
              (record_set ids (underscores (toLowerCase alias)) (prop x "id"))
        | _ => None
        end
  end.

(** [initConfigData(res)]: the store afterwards, and the exception when
    the method throws. *)
Definition initConfigData (configData : ConfigData) (res : JsVal)
  : ConfigData * option JsVal :=
  (* Check for error *)
  let query := prop res "query" in
  if truthy (prop res "error") || negb (truthy query) then (configData, None)
  else
    (* Deal with data that need to be formatted *)
    let namespaces := prop query "namespaces" in
    let namespacealiases := prop query "namespacealiases" in
    match (if truthy namespaces then scan_namespaces (own_entries namespaces) [] [] []
           else Some ([], [], [])) with
    | None => (configData, Some TypeError)
    | Some (wgCaseSensitiveNamespaces_, wgContentNamespaces_, wgFormattedNamespaces_) =>
        match (if truthy namespacealiases then
                 match namespacealiases with
                 | JArr aliases => scan_aliases aliases []
                 | _ => None
                 end
               else Some []) with
        | None => (configData, Some TypeError)
        | Some wgNamespaceIds_ =>
            (* Set values *)
            let general := prop query "general" in
            let userinfo := prop query "userinfo" in
            let when_namespaces (v : Val) :=
              if truthy namespaces then v else of_js namespaces in
            let configData :=
              foldl set_value configData
                [(wgArticlePath, of_js (prop general "articlepath"));
                 (wgCaseSensitiveNamespaces,
                  when_namespaces (VArr (VNum <$> wgCaseSensitiveNamespaces_)));
                 (wgContentLanguage, of_js (prop general "lang"));
                 (wgContentNamespaces,
                  when_namespaces (VArr (VNum <$> wgContentNamespaces_)));
                 (wgFormattedNamespaces,
                  when_namespaces (of_js (JObj wgFormattedNamespaces_)));
                 (wgLegalTitleChars, of_js (prop general "legaltitlechars"));
                 (wgNamespaceIds,
                  if truthy namespacealiases then of_js (JObj wgNamespaceIds_)
                  else of_js namespacealiases);
                 (wgScript, of_js (prop general "script"));
                 (wgScriptPath, of_js (prop general "scriptpath"));
                 (wgServer, of_js (prop general "server"));
                 (wgServerName, of_js (prop general "servername"));
                 (wgSiteName, of_js (prop general "sitename"));
                 (wgUserEditCount, of_js (prop userinfo "editcount"));
                 (wgUserGroups, of_js (prop userinfo "groups"));
                 (wgUserId, of_js (prop userinfo "id"));
                 (wgUserName, of_js (prop userinfo "name"));
                 (wgUserRights, of_js (prop userinfo "rights"))] in
            match prop general "generator" with
            | JUndef | JNull =>
                (set_value configData (wgWikiID, of_js (prop general "wikiid")), None)
            | JStr generator =>
                (foldl set_value configData
                   [(wgVersion, VStr (strip_MediaWiki generator));
                    (wgWikiID, of_js (prop general "wikiid"))],
                 None)
            | _ => (configData, Some TypeError)
            end
        end
    end.

End Config.
End Config.

(** ** Notions used to state the properties *)

(** The method a call of [ajax] settles on. *)
Definition method_of (client : Client) (options : Options) : string :=
  str_or (method options) (str_or (defaults_method client) "GET").

(** The parameters a request transmits, in order: the query-string map
    of a GET request, the form entries of any other request. *)
Definition payload (request : Options) : obj :=
  if is_GET (default EmptyString (method request)) then default [] (params request)
  else
    match data request with
    | BodyNone => []
    | BodyObject o => o
    | BodyString f | BodySearchParams f => List.map (λ kv, (kv.1, JStr kv.2)) f
    end.

(** The content of a parameter object after [ajax] has run on it: the
    string token is gone and the rest is normalised. *)
Definition ajax_parameters (ps : obj) : obj :=
  preprocess (if is_string (prop (JObj ps) "token") then obj_delete ps "token" else ps).

(** The local variable [token] of [ajax]. *)
Definition ajax_token (ps : obj) : string :=
  match prop (JObj ps) "token" with JStr t => t | _ => EmptyString end.

(** [if (token) o.token = token]. *)
Definition with_token (o : obj) (token : string) : obj :=
  if truthy (JStr token) then obj_set o "token" (JStr token) else o.

(** The object that [ajax] fills, starting from [target]: the defaults
    of the client, the fixed defaults, the parameters, the token. *)
Definition filled (target client_defaults ps : obj) : obj :=
  with_token
    (obj_assign (obj_assign (obj_assign target client_defaults) defaults)
       (ajax_parameters ps))
    (ajax_token ps).

(** The options as [ajax] hands them to [axios.request], as a function of
    the options and of the parameter object on entry; [None] when [ajax]
    throws. *)
Definition ajax_request (encode : form → Body) (client : Client) (options : Options)
    (ps : obj) (controller : nat) : option Options :=
  let m := method_of client options in
  if is_GET m then
    Some (mkOptions (Some m)
            (Some (filled (default [] (params options)) (defaults_params client) ps))
            (data options) (Some (apiUrl client)) (Some controller))
  else
    match data options with
    | BodyNone | BodyString [] =>
        Some (mkOptions (Some m) (params options)
                (encode (form_of_record (filled [] (defaults_data client) ps)))
                (Some (apiUrl client)) (Some controller))
    | BodyObject o =>
        Some (mkOptions (Some m) (params options)
                (encode (form_of_record (filled o (defaults_data client) ps)))
                (Some (apiUrl client)) (Some controller))
    | BodySearchParams f =>
        Some (mkOptions (Some m) (params options) (encode f)
                (Some (apiUrl client)) (Some controller))
    | BodyString (_ :: _) => None
    end.

(** The options as [get(ps)] and [post(ps)] hand them to [axios.request]
    when no options are passed. *)
Definition get_request (client : Client) (ps : obj) (controller : nat) : Options :=
  mkOptions (Some "GET") (Some (filled [] (defaults_params client) ps)) BodyNone
    (Some (apiUrl client)) (Some controller).

Definition post_request (encode : form → Body) (client : Client) (ps : obj)
    (controller : nat) : Options :=
  mkOptions (Some "POST") None (encode (form_of_record (filled [] (defaults_data client) ps)))
    (Some (apiUrl client)) (Some controller).

(** The name under which [this.tokens] holds the token of a type. *)
Definition token_name (tokenType : string) : string :=
  mapLegacyToken tokenType +:+ "token".

(** The cached token of a type, when there is one. *)
Definition cached (w : World) (tokenType : string) : option JsVal :=
  if truthy (prop (tokens w) (token_name tokenType))
  then Some (prop (tokens w) (token_name tokenType))
  else None.

(** The parameter object that [getToken] builds for its request. *)
Definition token_query (w : World) (additionalParams : Extra) : obj :=
  obj_assign [("meta", JStr "tokens"); ("type", JStr "*")]
    match additionalParams with
    | ExtraString s => [("assert", JStr s)]
    | ExtraObject l => read_obj w l
    | ExtraNone => []
    end.

(** The world after [getToken] has sent its request: the parameter
    object and the options of the request are new objects. *)
Definition after_token_request (client : Client) (w : World) (additionalParams : Extra)
  : World :=
  mkWorld (objects w ++ [ajax_parameters (token_query w additionalParams)])
    (configs w ++ [get_request client (token_query w additionalParams) (aborts w)])
    (tokens w) (S (aborts w))
    (sent w ++ [get_request client (token_query w additionalParams) (aborts w)]).

(** The two errors of [getToken]. *)
Definition badnamedtoken (tokenType : string) : JsVal :=
  error_value "badnamedtoken"
    ("Could not find a token named " +:+ dquote +:+ mapLegacyToken tokenType
     +:+ dquote +:+ " (check for typos?)") None.

Definition ok_but_empty : JsVal :=
  error_value "ok-but-empty" "OK response but empty result" None.

(** Whether the request that the transport answers with [out] resolves
    with a response that carries a [continue] value. *)
Definition continues (out : AxiosOutcome) : bool :=
  match settle out with
  | Resolved res => truthy (prop res "continue")
  | _ => false
  end.

(** The value a settled request leaves in a sequence of outcomes: the
    response it resolved with, or the error it rejected with. *)
Definition entry (out : AxiosOutcome) : JsVal :=
  match settle out with
  | Resolved v | Rejected v | Thrown v => v
  | Pending => JUndef
  end.

(** The entries of the [n] requests that follow the first [first]. *)
Definition entries (transport : nat → AxiosOutcome) (first n : nat) : list JsVal :=
  List.map (λ i, entry (transport (first + i)%nat)) (seq 0 n).

(** The names in the [fields] argument of [massQuery] that count. *)
Definition named_fields (fields : Fields) : list string :=
  filter (λ v, v ≠ EmptyString)
    (match fields with ManyFields l => l | OneField s => [s] end).

(** The array under a key, its elements as text; [None] when the value
    under the key is not an array. *)
Definition array_strings (o : obj) (key : string) : option (list string) :=
  match prop (JObj o) key with
  | JArr val => Some (List.map to_string val)
  | _ => None
  end.

(** The arrays of the named fields of an object, in the order of its keys. *)
Definition field_arrays (named : list string) (o : obj) : list (list string) :=
  omap (array_strings o) (filter (λ key, key ∈ named) (keys o)).

(** The named fields of an object whose value is not an array. *)
Definition nonarray_fields (named : list string) (o : obj) : list string :=
  filter (λ key, key ∈ named ∧ array_strings o key = None) (keys o).

(** Whether [massQuery] sets a key to [max]. *)
Definition wants_max (named : list string) (apilimit : Z) (key : string) : bool :=
  negb (bool_decide (key ∈ named)) && ends_with_limit key
  && (bool_decide (apilimit = 500) || bool_decide (apilimit = 50)).

Definition set_max (named : list string) (apilimit : Z) (o : obj) (key : string) : obj :=
  if wants_max named apilimit key then obj_set o key (JStr "max") else o.

(** The [i]-th run of at most [size] elements of a list. *)
Definition chunk {A} (size i : nat) (l : list A) : list A :=
  take size (drop (i * size) l).

(** The copy of the parameters that [massQuery] works on, before and
    after the pass that sets the [limit] parameters to [max]. *)
Definition copied (w : World) (parameters : loc) : obj :=
  obj_assign [] (read_obj w parameters).

Definition copied_max (w : World) (parameters : loc) (named : list string) (apilimit : Z)
  : obj :=
  foldl (set_max named apilimit) (copied w parameters) (keys (copied w parameters)).

(** The world when [massQuery] has validated its arguments: the copy of
    the parameters is a new object, nothing else has changed. *)
Definition validated (w : World) (parameters : loc) (named : list string) (apilimit : Z)
  : World :=
  mkWorld (objects w ++ [copied_max w parameters named apilimit]) (configs w) (tokens w)
    (aborts w) (sent w).

(** The errors of [massQuery]. *)
Definition nonarray_exception (names : list string) : JsVal :=
  error_value "nonarray-exception"
    ("The value(s) for "
     +:+ String.concat ", " ((λ key, dquote +:+ key +:+ dquote) <$> names)
     +:+ " must be arrays") None.

Definition emptyfield : JsVal :=
  error_value "emptyfield"
    ("The " +:+ dquote +:+ "fields" +:+ dquote +:+ " parameter is empty") None.

Definition nomultivalue : JsVal :=
  error_value "nomultivalue"
    "There's no multi-value field (check for typos in parameter keys?)" None.

Definition nonindentical_arrays : JsVal :=
  error_value "nonindentical-arrays"
    "The multi-value fields must all have the same array" None.

(** The parameter object of the request for one batch: a copy of the
    copied parameters with every named field set to the joined batch. *)
Definition batch_params (copy : obj) (named : list string) (multiValue : string) : obj :=
  foldl (λ o key, obj_set o key (JStr multiValue)) (obj_assign [] copy) named.

(** The world after [massQuery] has sent the request for one batch. *)
Definition after_batch (client : Client) (w : World) (ps : obj) : World :=
  mkWorld (objects w ++ [ajax_parameters ps])
    (configs w ++ [post_request BodySearchParams client ps (aborts w)])
    (tokens w) (S (aborts w))
    (sent w ++ [post_request BodySearchParams client ps (aborts w)]).

(** How many batches of at most [size] elements [n] elements make. *)
Definition ceil_div (n size : nat) : nat := ((n + size - 1) / size)%nat.

(** Nothing but the parameter map supplies a [token] entry to the
    payload of the call: the object that [ajax] fills ([options.params]
    for GET, [options.data] otherwise) and the defaults of the client
    copied into it have none, and [options.data] is absent or a plain
    object. *)
Definition token_unset (client : Client) (options : Options) : Prop :=
  if is_GET (method_of client options) then
    ("token" ∉ keys (default [] (params options)))
    ∧ ("token" ∉ keys (defaults_params client))
  else
    ("token" ∉ keys (defaults_data client))
    ∧ (match data options with
       | BodyNone | BodyString [] => True
       | BodyObject o => "token" ∉ keys o
       | BodyString (_ :: _) | BodySearchParams _ => False
       end).

(** What [preprocessParameters] makes of a value: nothing of [false]
    and [undefined], the joined text of an array, the value otherwise. *)
Definition normalized (v : JsVal) : option JsVal :=
  match v with
  | JArr val => Some (JStr (join "|" val))
  | JBool false | JUndef => None
  | _ => Some v
  end.

(** What the parameter map contributes to the payload under a key: the
    normalised value, except that an empty string under [token] counts
    as no token. *)
Definition parameter (ps : obj) (k : string) : option JsVal :=
  match obj_get ps k with
  | Some (JStr EmptyString) =>
      if bool_decide (k = "token") then None else Some (JStr EmptyString)
  | Some v => normalized v
  | None => None
  end.

Definition first_some {A} (a b : option A) : option A :=
  match a with Some _ => a | None => b end.

(** The entry of a key by precedence: the parameter map, the fixed
    defaults, the defaults of the client, the object of the options. *)
Definition supplied (own client_defaults ps : obj) (k : string) : option JsVal :=
  first_some (parameter ps k)
    (first_some (obj_get defaults k)
       (first_some (obj_get client_defaults k) (obj_get own k))).

(** The object of the options that [ajax] fills, and the defaults of the
    client that go into it. *)
Definition own_payload (client : Client) (o : Options) : obj :=
  if is_GET (method_of client o) then default [] (params o)
  else match data o with BodyObject d => d | _ => [] end.

Definition client_defaults (client : Client) (o : Options) : obj :=
  if is_GET (method_of client o) then defaults_params client else defaults_data client.

(** How a value appears in the payload: as it is in the query-string
    map of a GET request, as text in a form body. *)
Definition transmitted (client : Client) (o : Options) (v : JsVal) : JsVal :=
  if is_GET (method_of client o) then v else JStr (to_string v).

(** [options.data] is absent or a plain object. *)
Definition plain_data (o : Options) : Prop :=
  match data o with BodyNone | BodyObject _ => True | _ => False end.

(** The codes of the errors that [ajax] makes itself. *)
Definition ajax_codes : list string := ["ok-but-empty"; "invalidjson"; "aborted"; "http"].

(** The object [assertParams] of [postWithToken]. *)
Definition assert_params (ps : obj) : obj :=
  [("assert", prop (JObj ps) "assert"); ("assertuser", prop (JObj ps) "assertuser")].

(** The world after [postWithToken] has posted with a cached token: the
    parameter object has been given the token and normalised, and
    [assertParams] and the options of the request are new objects. *)
Definition after_token_post (encode : form → Body) (client : Client) (w : World)
    (params : loc) (token : JsVal) : World :=
  let ps := obj_set (read_obj w params) "token" token in
  mkWorld (<[params := ajax_parameters ps]> (objects w) ++ [assert_params (read_obj w params)])
    (configs w ++ [post_request encode client ps (aborts w)])
    (tokens w) (S (aborts w))
    (sent w ++ [post_request encode client ps (aborts w)]).

(** The parameters of the token request of [postWithToken]. *)
Definition assert_query (ps : obj) : obj :=
  obj_assign [("meta", JStr "tokens"); ("type", JStr "*")] (assert_params ps).

(** The world after [postWithToken] has fetched the tokens [resToken]
    and posted with the token of the type. *)
Definition after_fetch_post (encode : form → Body) (client : Client) (w : World)
    (params : loc) (resToken token : JsVal) : World :=
  let ps := obj_set (read_obj w params) "token" token in
  let query := assert_query (read_obj w params) in
  mkWorld (<[params := ajax_parameters ps]> (objects w)
           ++ [assert_params (read_obj w params); ajax_parameters query])
    (configs w ++ [post_request encode client ps (S (aborts w));
                   get_request client query (aborts w)])
    resToken (S (S (aborts w)))
    (sent w ++ [get_request client query (aborts w);
                post_request encode client ps (S (aborts w))]).

(** A rejection that makes [postWithToken] try again. *)
Definition is_badtoken (r : Result JsVal) : bool :=
  match r with
  | Rejected err => is_str (error_code err) "badtoken"
  | _ => false
  end.

(** The world after a helper has sent a GET request for the parameters
    [ps] that it made up: the parameter object and the options of the
    request are new objects. *)
Definition after_get (client : Client) (w : World) (ps : obj) : World :=
  mkWorld (objects w ++ [ajax_parameters ps])
    (configs w ++ [get_request client ps (aborts w)])
    (tokens w) (S (aborts w))
    (sent w ++ [get_request client ps (aborts w)]).

(** The parameters of the requests of the query helpers. *)
Definition userinfo_query (assertUser : JsVal) : obj :=
  [("meta", JStr "userinfo"); ("uiprop", JStr "groups|rights");
   ("assert", js_and (or_false assertUser) (JStr "user"))].

Definition categoryinfo_query (title : JsVal) : obj :=
  [("prop", JStr "categoryinfo"); ("titles", JStr (to_string title))].

Definition categories_query (title : JsVal) : obj :=
  [("prop", JStr "categories"); ("titles", JStr (to_string title))].

(** The first page of a response, [res.query.pages[0]]. *)
Definition first_page (res : JsVal) : JsVal :=
  first_of (prop (prop res "query") "pages").

(** What a method may do to the world on its way from [w] to [w']: make
    new objects, change the objects at the locations [changed], send
    requests, and register one controller for each request it sends. *)
Definition steps (changed : list loc) (w w' : World) : Prop :=
  (length (objects w) ≤ length (objects w'))%nat
  ∧ (∀ l, (l < length (objects w))%nat → l ∉ changed → read_obj w' l = read_obj w l)
  ∧ ∃ requests, sent w' = sent w ++ requests
                ∧ aborts w' = (aborts w + length requests)%nat.

(** The fields that [create] sets before it adds the caller's. *)
Definition create_fields (title content assertUser : JsVal) : obj :=
  [("action", JStr "edit"); ("title", JStr (to_string title)); ("text", content);
   ("createonly", JBool true); ("assert", js_and (or_false assertUser) (JStr "user"))].

(** A value of a form body. *)
Definition as_text (v : JsVal) : JsVal := JStr (to_string v).

(** The parameters of the request with which [edit] reads the page. *)
Definition revisions_query (title : JsVal) : obj :=
  [("prop", JStr "revisions"); ("rvprop", JStr "content|timestamp");
   ("rvslots", JStr "main"); ("titles", JStr (to_string title));
   ("curtimestamp", JBool true)].

(** The revision that [edit] reads from a page,
    [page.revisions && page.revisions[0]]. *)
Definition revision_of (page : JsVal) : JsVal :=
  js_and (prop page "revisions") (first_of (prop page "revisions")).

(** The fields that [edit] sets before it adds those of the callback. *)
Definition edit_fields (anon : bool) (title basetimestamp starttimestamp : JsVal) : obj :=
  [("action", JStr "edit"); ("title", JStr (to_string title));
   ("assert", if anon then JUndef else JStr "user");
   ("basetimestamp", basetimestamp); ("starttimestamp", starttimestamp);
   ("nocreate", JBool true)].

(** What the result of the callback of [edit] adds to the fields. *)
Definition edit_entries (result : JsVal) : obj :=
  if is_object result then own_entries result else [("text", JStr (to_string result))].

(** The errors of [edit]. *)
Definition invalidtitle (reason : JsVal) : JsVal :=
  JObj [("error", JObj [("code", JStr "invalidtitle"); ("info", reason)])].

Definition nocreate_missing : JsVal :=
  error_value "nocreate-missing" "The requested page does not exist" None.

(** The parameters that [newSection] posts. *)
Definition section_fields (title header content : JsVal) : obj :=
  [("action", JStr "edit"); ("section", JStr "new"); ("title", JStr (to_string title));
   ("sectiontitle", header); ("text", content)].

(** The options of a POST request made with options that had no
    [data]: the query-string map of the options stays with them. *)
Definition post_request_with (encode : form → Body) (client : Client) (options : Options)
    (ps : obj) (controller : nat) : Options :=
  mkOptions (Some "POST") (params options)
    (encode (form_of_record (filled [] (defaults_data client) ps)))
    (Some (apiUrl client)) (Some controller).

(** What a key of the store holds after the helper [set] of
    [initConfigData] has been given a value for it: the value when it
    is not [undefined] and has the [typeof] of the old value, the old
    value otherwise. *)
Definition stored (old v : Config.Val) : Config.Val :=
  match v with
  | Config.VUndef => old
  | _ =>
      if bool_decide (Config.typeof old ≠ Config.TUndefined)
         && bool_decide (Config.typeof old = Config.typeof v)
      then v else old
  end.

(** The keys that [initConfigData] fills from one field of the
    response, before it reads the version: the object under [query]
    and the field in it. *)
Definition field_of (name : Config.ConfigName) : option (string * string) :=
  match name with
  | Config.wgArticlePath => Some ("general", "articlepath")
  | Config.wgContentLanguage => Some ("general", "lang")
  | Config.wgLegalTitleChars => Some ("general", "legaltitlechars")
  | Config.wgScript => Some ("general", "script")
  | Config.wgScriptPath => Some ("general", "scriptpath")
  | Config.wgServer => Some ("general", "server")
  | Config.wgServerName => Some ("general", "servername")
  | Config.wgSiteName => Some ("general", "sitename")
  | Config.wgUserEditCount => Some ("userinfo", "editcount")
  | Config.wgUserGroups => Some ("userinfo", "groups")
  | Config.wgUserId => Some ("userinfo", "id")
  | Config.wgUserName => Some ("userinfo", "name")
  | Config.wgUserRights => Some ("userinfo", "rights")
  | _ => None
  end.

(** The numbers of the namespaces of a response that are case-sensitive,
    and of those that are not and hold content. *)
Definition case_sensitive (o : JsVal) : bool := is_str (prop o "case") "case-sensitive".

Definition case_sensitive_ids (parseInt : string → Config.number) (namespaces : obj)
  : list Config.number :=
  (λ kv, parseInt kv.1) <$> filter (λ kv, case_sensitive kv.2 = true) namespaces.

Definition content_ids (parseInt : string → Config.number) (namespaces : obj)
  : list Config.number :=
  (λ kv, parseInt kv.1)
  <$> filter (λ kv, case_sensitive kv.2 = false ∧ truthy (prop kv.2 "content") = true)
        namespaces.

(** A value that [config.get] does not return: a record, or [null]. *)
Definition unreadable (v : Config.Val) : Prop :=
  match v with Config.VObj _ | Config.VNull => True | _ => False end.

(** The parameter object of [continuedQuery] before its [i]-th request,
    counted from the request that the transport answers as its
    [first]: the object as the request before left it, with the entries
    of the [continue] value of the response assigned to it. *)
Fixpoint params_at (transport : nat → AxiosOutcome) (first : nat) (ps : obj) (i : nat)
  : obj :=
  match i with
  | O => ps
  | S i =>
      params_at transport (S first)
        (obj_assign (ajax_parameters ps)
           (own_entries (prop (entry (transport first)) "continue")))
        i
  end.

(** The requests of [continuedQuery]. *)
Definition continued_requests (client : Client) (transport : nat → AxiosOutcome)
    (w : World) (ps : obj) (n : nat) : list Options :=
  (λ i, get_request client (params_at transport (length (sent w)) ps i) (aborts w + i)%nat)
  <$> seq 0 n.

(** From [w] to [w'] requests were sent, and one controller was
    registered for each. *)
Definition registers (w w' : World) : Prop :=
  ∃ requests, sent w' = sent w ++ requests
              ∧ aborts w' = (aborts w + length requests)%nat.

(** ** Example inputs *)

(** A client with the defaults of the class, and a world that holds one
    parameter object. *)
Definition ex_client : Client := mkClient "https://example.org/w/api.php" (Some "GET") [] [].

Definition ex_params : obj :=
  [("titles", JArr [JStr "A"; JStr "B"; JStr "C"]); ("minor", JBool false);
   ("summary", JUndef); ("bot", JBool true); ("rvlimit", JNum 5)].

Definition ex_world : World := mkWorld [ex_params] [] (JObj []) 0 [].

(** A transport that answers every request with an empty result set. *)
Definition ex_transport (i : nat) : AxiosOutcome :=
  AxResponse (JObj [("data", JObj [("batchcomplete", JBool true)])]).

(** Parameter maps with a [token] key: a number, the empty string, and a
    proper token. *)
Definition ex_world_number_token : World :=
  mkWorld [[("token", JNum 5); ("title", JStr "A")]] [no_options] (JObj []) 0 [].

Definition ex_world_empty_token : World :=
  mkWorld [[("token", JStr EmptyString); ("title", JStr "A")]] [no_options] (JObj []) 0 [].

Definition ex_world_token : World :=
  mkWorld [[("token", JStr "abc+\"); ("title", JStr "A")]] [no_options] (JObj []) 0 [].

(** Request options whose query-string map holds a [token] already. *)
Definition ex_world_options_token : World :=
  mkWorld [[("token", JStr "abc+\"); ("title", JStr "A")]]
    [mkOptions None (Some [("token", JStr "old"); ("maxlag", JNum 5)]) BodyNone None None]
    (JObj []) 0 [].

(** A world whose cache holds a csrf token, and a transport that answers
    every request with a token set. *)
Definition ex_world_cached : World :=
  mkWorld [ex_params] [] (JObj [("csrftoken", JStr "abc+\"); ("watchtoken", JStr "w+\")]) 0 [].

Definition ex_tokens : JsVal :=
  JObj [("query", JObj [("tokens", JObj [("csrftoken", JStr "fresh+\")])])].

Definition ex_token_transport (i : nat) : AxiosOutcome :=
  AxResponse (JObj [("data", ex_tokens)]).

(** A transport whose first two responses carry [continue] and whose
    later responses do not. *)
Definition ex_continue_transport (i : nat) : AxiosOutcome :=
  match i with
  | 0%nat | 1%nat =>
      AxResponse (JObj [("data", JObj [("continue", JObj [("rvcontinue", JStr "20240101|1");
                                                          ("continue", JStr "||")]);
                                       ("query", JObj [])])])
  | _ => AxResponse (JObj [("data", JObj [("batchcomplete", JBool true)])])
  end.

(** An edit whose token has expired: the transport hands out a token,
    answers the POST with [badtoken], hands out a second token and
    accepts every later request. *)
Definition ex_edit_world : World :=
  mkWorld [[("action", JStr "edit"); ("title", JStr "Sandbox"); ("appendtext", JStr "test")]]
    [] (JObj []) 0 [].

Definition ex_token_response (token : string) : AxiosOutcome :=
  AxResponse (JObj [("data", JObj [("query", JObj [("tokens",
                JObj [("csrftoken", JStr token)])])])]).

Definition ex_badtoken_response : AxiosOutcome :=
  AxResponse (JObj [("data", JObj [("error", JObj [("code", JStr "badtoken");
                                                   ("info", JStr "Invalid CSRF token.")])])]).

Definition ex_edit_done : JsVal := JObj [("edit", JObj [("result", JStr "Success")])].

Definition ex_badtoken_transport (i : nat) : AxiosOutcome :=
  match i with
  | 0%nat => ex_token_response "first+\"
  | 1%nat => ex_badtoken_response
  | 2%nat => ex_token_response "second+\"
  | _ => AxResponse (JObj [("data", ex_edit_done)])
  end.

(** A response to a query for one page: a category page that is in two
    categories and has one revision; the transport answers the first
    request with it and accepts every later request. *)
Definition ex_page : JsVal :=
  JObj [("pageid", JNum 7); ("ns", JNum 14); ("title", JStr "Category:A");
        ("categoryinfo", JObj [("size", JNum 3)]);
        ("categories", JArr [JObj [("ns", JNum 14); ("title", JStr "Category:B")];
                             JObj [("ns", JNum 14); ("title", JStr "Category:C")]]);
        ("revisions",
         JArr [JObj [("timestamp", JStr "2024-01-01T00:00:00Z");
                     ("slots", JObj [("main", JObj [("content", JStr "old text")])])]])].

Definition ex_page_response : JsVal :=
  JObj [("curtimestamp", JStr "2024-01-02T00:00:00Z");
        ("query", JObj [("pages", JArr [ex_page])])].

Definition ex_page_transport (i : nat) : AxiosOutcome :=
  match i with
  | 0%nat => AxResponse (JObj [("data", ex_page_response)])
  | _ => AxResponse (JObj [("data", ex_edit_done)])
  end.

(** The revision that the response holds, and the world after [edit]
    has read it. *)
Definition ex_revision : JsVal := revision_of (first_page ex_page_response).

Definition ex_world_read : World :=
  after_get ex_client ex_world_cached (revisions_query (JStr "Category:A")).

(** A callback for [edit] that replaces the text and gives a summary. *)
Definition ex_transform (w : World) (revision : JsVal) : World * Result JsVal :=
  (w, Resolved (JObj [("text", JStr "new text"); ("summary", JStr "test")])).

(** A world with a cached csrf token and one options object, which has
    no entry that a request reads. *)
Definition ex_section_world : World :=
  mkWorld [] [no_options] (JObj [("csrftoken", JStr "abc+\")]) 0 [].

(** Two parameter objects and one options object. *)
Definition ex_two_world : World :=
  mkWorld [[("title", JStr "A"); ("text", JStr "a")]; [("title", JStr "B")]]
    [no_options] (JObj []) 0 [].

(** A transport whose every request fails on the network. *)
Definition ex_network_error : JsVal := JObj [("code", JStr "ECONNREFUSED")].

Definition ex_failing_transport (i : nat) : AxiosOutcome := AxError ex_network_error.

(** The response that [init] reads the configuration from. *)
Definition ex_siteinfo : JsVal :=
  JObj [("query",
         JObj [("general",
                JObj [("sitename", JStr "Wikipedia"); ("generator", JStr "MediaWiki 1.42.0");
                      ("articlepath", JStr "/wiki/$1"); ("wikiid", JStr "enwiki");
                      ("servername", JNum 5)]);
               ("namespaces",
                JObj [("1", JObj [("id", JNum 1); ("case", JStr "first-letter");
                                  ("name", JStr "Talk")]);
                      ("4", JObj [("id", JNum 4); ("case", JStr "first-letter");
                                  ("name", JStr "Wikipedia"); ("content", JBool true)]);
                      ("2600", JObj [("id", JNum 2600); ("case", JStr "case-sensitive");
                                     ("name", JStr "Topic"); ("content", JBool true)])]);
               ("namespacealiases", JArr [JObj [("id", JNum 4); ("alias", JStr "WP")]]);
               ("userinfo",
                JObj [("id", JNum 1); ("name", JStr "Example"); ("editcount", JNum 10);
                      ("groups", JArr [JStr "user"]); ("rights", JArr [JStr "edit"])])])].

(** [parseInt] on a text that starts with decimal digits, and
    [toLowerCase] on a text of ASCII characters. *)
Definition ex_digit (c : ascii) : option Z :=
  let n := Z.of_nat (nat_of_ascii c) in
  if (48 <=? n) && (n <=? 57) then Some (n - 48) else None.

Fixpoint ex_digits (acc : option Z) (s : string) : option Z :=
  match s with
  | EmptyString => acc
  | String c r =>
      match ex_digit c with
      | Some d => ex_digits (Some (default 0 acc * 10 + d)) r
      | None => acc
      end
  end.

Definition ex_parseInt (s : string) : Config.number :=
  match ex_digits None s with
  | Some z => Config.Int z
  | None => Config.NaN
  end.

Fixpoint ex_toLowerCase (s : string) : string :=
  match s with
  | EmptyString => EmptyString
  | String c r =>
      let n := nat_of_ascii c in
      String (if (65 <=? n)%nat && (n <=? 90)%nat then ascii_of_nat (n + 32) else c)
        (ex_toLowerCase r)
  end.
(** ** Facts about plain objects *)

Lemma obj_get_None (o : obj) (k : string) : k ∉ keys o → obj_get o k = None.
Proof.
  induction o as [|[k' v] r IH]; simpl; [done|].
  intros Hk. rewrite not_elem_of_cons in Hk. destruct Hk as [Hne Hr].
  case_decide; [congruence | auto].
Qed.

Lemma obj_get_Some_key (o : obj) (k : string) (v : JsVal) :
  obj_get o k = Some v → k ∈ keys o.
Proof.
  induction o as [|[k' v'] r IH]; simpl; [done|].
  case_decide; subst; [left | right; auto].
Qed.

Lemma obj_get_app (o1 o2 : obj) (k : string) :
  obj_get (o1 ++ o2) k =
  match obj_get o1 k with Some v => Some v | None => obj_get o2 k end.
Proof.
  induction o1 as [|[k' v'] r IH]; simpl; [done|]. by case_decide.
Qed.

Lemma keys_app (o1 o2 : obj) : keys (o1 ++ o2) = keys o1 ++ keys o2.
Proof. unfold keys. by rewrite fmap_app. Qed.

Lemma keys_replace (o : obj) (k : string) (v : JsVal) :
  keys (obj_replace o k v) = keys o.
Proof.
  induction o as [|[k' v'] r IH]; simpl; [done|].
  case_decide; simpl; [by subst | by f_equal].
Qed.

Lemma obj_replace_app (o1 o2 : obj) (k : string) (v : JsVal) :
  k ∉ keys o1 → obj_replace (o1 ++ o2) k v = o1 ++ obj_replace o2 k v.
Proof.
  induction o1 as [|[k' v'] r IH]; simpl; [done|].
  intros Hk. rewrite not_elem_of_cons in Hk. destruct Hk as [Hne Hr].
  case_decide; [congruence|]. by rewrite IH.
Qed.

Lemma obj_get_replace (o : obj) (k k' : string) (v : JsVal) :
  k ∈ keys o →
  obj_get (obj_replace o k v) k' = if decide (k = k') then Some v else obj_get o k'.
Proof.
  induction o as [|[k0 v0] r IH]; simpl; [by rewrite elem_of_nil|].
  intros Hk. destruct (decide (k0 = k)) as [->|Hne]; simpl.
  - repeat case_decide; congruence.
  - rewrite elem_of_cons in Hk. destruct Hk as [->|Hk]; [done|].
    rewrite IH by done. repeat case_decide; congruence.
Qed.

Lemma keys_insert_perm (o : obj) (k : string) (v : JsVal) :
  keys (obj_insert o k v) ≡ₚ k :: keys o.
Proof.
  induction o as [|[k0 v0] r IH]; simpl; [done|].
  destruct (goes_before k k0); simpl; [done|].
  rewrite IH. apply Permutation_swap.
Qed.

Lemma obj_get_insert (o : obj) (k k' : string) (v : JsVal) :
  k ∉ keys o →
  obj_get (obj_insert o k v) k' = if decide (k = k') then Some v else obj_get o k'.
Proof.
  induction o as [|[k0 v0] r IH]; simpl.
  - intros _. by repeat case_decide.
  - intros Hk. rewrite not_elem_of_cons in Hk. destruct Hk as [Hne Hr].
    destruct (goes_before k k0); simpl.
    + repeat case_decide; congruence.
    + rewrite IH by done. repeat case_decide; congruence.
Qed.

Lemma obj_insert_last (o : obj) (k : string) (v : JsVal) :
  array_index k = None → obj_insert o k v = o ++ [(k, v)].
Proof.
  intros Hk. induction o as [|[k0 v0] r IH]; simpl; [done|].
  unfold goes_before. rewrite Hk. by rewrite IH.
Qed.

Lemma has_key_true (o : obj) (k : string) : has_key o k = true ↔ k ∈ keys o.
Proof. unfold has_key. by rewrite bool_decide_eq_true. Qed.

Lemma has_key_false (o : obj) (k : string) : has_key o k = false ↔ k ∉ keys o.
Proof. unfold has_key. by rewrite bool_decide_eq_false. Qed.

(** Reading back after [o[k] = v]. *)
Lemma obj_get_set (o : obj) (k k' : string) (v : JsVal) :
  obj_get (obj_set o k v) k' = if decide (k = k') then Some v else obj_get o k'.
Proof.
  unfold obj_set. destruct (has_key o k) eqn:E.
  - apply obj_get_replace. by apply has_key_true.
  - apply obj_get_insert. by apply has_key_false.
Qed.

(** A new key that is not an array index becomes the last property. *)
Lemma obj_set_new_last (o : obj) (k : string) (v : JsVal) :
  array_index k = None → k ∉ keys o → obj_set o k v = o ++ [(k, v)].
Proof.
  intros Hi Hk. unfold obj_set.
  apply has_key_false in Hk. rewrite Hk. by apply obj_insert_last.
Qed.

Lemma keys_set_perm (o : obj) (k : string) (v : JsVal) :
  keys (obj_set o k v) ≡ₚ if has_key o k then keys o else k :: keys o.
Proof.
  unfold obj_set. destruct (has_key o k).
  - by rewrite keys_replace.
  - apply keys_insert_perm.
Qed.

Lemma obj_set_wf (o : obj) (k : string) (v : JsVal) :
  obj_wf o → obj_wf (obj_set o k v).
Proof.
  unfold obj_wf. intros Hwf. rewrite keys_set_perm.
  destruct (has_key o k) eqn:E; [done|].
  apply NoDup_cons. split; [by apply has_key_false | done].
Qed.

Lemma obj_get_delete (o : obj) (k k' : string) :
  obj_get (obj_delete o k) k' = if decide (k = k') then None else obj_get o k'.
Proof.
  unfold obj_delete. induction o as [|[k0 v0] r IH]; simpl.
  - by case_decide.
  - rewrite filter_cons. simpl. destruct (decide (k0 ≠ k)) as [Hne|Heq]; simpl.
    + rewrite IH. repeat case_decide; congruence.
    + apply dec_stable in Heq. subst k0. rewrite IH. repeat case_decide; congruence.
Qed.

Lemma keys_delete (o : obj) (k : string) :
  keys (obj_delete o k) = filter (λ x, x ≠ k) (keys o).
Proof.
  unfold obj_delete, keys. induction o as [|[k0 v0] r IH]; [done|].
  rewrite fmap_cons, !filter_cons. cbn [fst].
  destruct (decide (k0 ≠ k)); [rewrite fmap_cons|]; by rewrite IH.
Qed.

Lemma obj_delete_wf (o : obj) (k : string) : obj_wf o → obj_wf (obj_delete o k).
Proof. unfold obj_wf. rewrite keys_delete. apply NoDup_filter. Qed.

Lemma obj_delete_absent (o : obj) (k : string) : k ∉ keys o → obj_delete o k = o.
Proof.
  unfold obj_delete. induction o as [|[k0 v0] r IH]; simpl; [done|].
  intros Hk. rewrite not_elem_of_cons in Hk. destruct Hk as [Hne Hr].
  rewrite filter_cons. simpl. destruct (decide (k0 ≠ k)) as [|n].
  - by rewrite IH.
  - destruct n. congruence.
Qed.

Lemma obj_delete_app (o1 o2 : obj) (k : string) :
  obj_delete (o1 ++ o2) k = obj_delete o1 k ++ obj_delete o2 k.
Proof. unfold obj_delete. apply filter_app. Qed.

Lemma obj_assign_wf (target source : obj) :
  obj_wf target → obj_wf (obj_assign target source).
Proof.
  unfold obj_assign. revert target.
  induction source as [|[k v] r IH]; simpl; [done|].
  intros target Hwf. apply IH. by apply obj_set_wf.
Qed.

(** Reading back after [Object.assign(target, source)]. *)
Lemma obj_get_assign (target source : obj) (k : string) :
  obj_wf source →
  obj_get (obj_assign target source) k =
  match obj_get source k with Some v => Some v | None => obj_get target k end.
Proof.
  unfold obj_assign, obj_wf. revert target.
  induction source as [|[k0 v0] r IH]; simpl; [done|].
  intros target Hwf. apply NoDup_cons in Hwf as [Hk0 Hr].
  rewrite IH by done. rewrite obj_get_set.
  destruct (decide (k0 = k)) as [->|Hne]; [by rewrite obj_get_None | done].
Qed.

(** ** Normalisation *)

Lemma obj_get_middle (pre r : obj) (k : string) (v : JsVal) :
  k ∉ keys pre → obj_get (pre ++ (k, v) :: r) k = Some v.
Proof.
  intros Hk. rewrite obj_get_app, obj_get_None by done. simpl. by case_decide.
Qed.

Lemma obj_set_middle (pre r : obj) (k : string) (v x : JsVal) :
  k ∉ keys pre → obj_set (pre ++ (k, v) :: r) k x = pre ++ (k, x) :: r.
Proof.
  intros Hk. unfold obj_set.
  assert (has_key (pre ++ (k, v) :: r) k = true) as ->.
  { apply has_key_true. rewrite keys_app. apply elem_of_app. right. left. }
  rewrite obj_replace_app by done. simpl. by case_decide.
Qed.

Lemma obj_delete_middle (pre r : obj) (k : string) (v : JsVal) :
  k ∉ keys pre → k ∉ keys r → obj_delete (pre ++ (k, v) :: r) k = pre ++ r.
Proof.
  intros Hp Hr. rewrite obj_delete_app. rewrite (obj_delete_absent pre) by done.
  f_equal. unfold obj_delete. rewrite filter_cons. simpl.
  destruct (decide (k ≠ k)); [done|]. by apply obj_delete_absent.
Qed.

(** The loop of [preprocessParameters], started on an object whose
    entries [pre] are done, leaves [pre] and normalises the rest. *)
Lemma preprocess_loop (pre rest : obj) :
  obj_wf (pre ++ rest) →
  foldl preprocess_key (pre ++ rest) (keys rest) = pre ++ normalize_spec rest.
Proof.
  revert pre. induction rest as [|[k v] r IH]; intros pre Hwf; [done|].
  unfold obj_wf in Hwf. rewrite keys_app in Hwf. simpl in Hwf.
  apply NoDup_app in Hwf as (Hpre & Hdisj & Hkr).
  apply NoDup_cons in Hkr as [Hk Hr].
  assert (k ∉ keys pre) as Hkp.
  { intros Hin. apply (Hdisj k Hin). left. }
  assert (∀ x, obj_wf ((pre ++ [(k, x)]) ++ r)) as Hwf1.
  { intros x. unfold obj_wf. rewrite !keys_app. simpl.
    apply NoDup_app. split_and!.
    - apply NoDup_app. split_and!; [done| |apply NoDup_singleton].
      intros y Hy Hy'. apply list_elem_of_singleton in Hy'. by subst.
    - intros y Hy Hy'. apply elem_of_app in Hy as [Hy|Hy].
      + apply (Hdisj y Hy). by right.
      + apply list_elem_of_singleton in Hy. by subst.
    - done. }
  assert (obj_wf (pre ++ r)) as Hwf0.
  { unfold obj_wf. rewrite keys_app. apply NoDup_app. split_and!; [done| |done].
    intros y Hy Hy'. apply (Hdisj y Hy). by right. }
  assert (∀ x, foldl preprocess_key (pre ++ (k, x) :: r) (keys r)
               = pre ++ (k, x) :: normalize_spec r) as Hkeep.
  { intros x. specialize (IH (pre ++ [(k, x)]) (Hwf1 x)).
    by rewrite <- !app_assoc in IH. }
  cbn [keys fmap list_fmap fst foldl]. unfold preprocess_key at 2.
  rewrite obj_get_middle by done. cbn [default from_option id].
  destruct v as [| |[|]| | | | |]; cbn beta iota; try apply Hkeep.
  - rewrite obj_delete_middle by done. by apply IH.
  - rewrite obj_delete_middle by done. by apply IH.
  - rewrite obj_set_middle by done. apply Hkeep.
Qed.

(** [preprocessParameters] computes what the specification describes. *)
Lemma preprocess_normalize (parameters : obj) :
  obj_wf parameters → preprocess parameters = normalize_spec parameters.
Proof. intros Hwf. apply (preprocess_loop [] parameters Hwf). Qed.

Lemma keys_normalize (parameters : obj) (key : string) :
  key ∈ keys (normalize_spec parameters) → key ∈ keys parameters.
Proof.
  induction parameters as [|[k v] r IH]; [done|].
  change (keys ((k, v) :: r)) with (k :: keys r).
  destruct v as [| |[|]| | | | |]; cbn [normalize_spec];
    try change (keys ((k, ?x) :: ?y)) with (k :: keys y);
    rewrite ?elem_of_cons; intuition.
Qed.

Lemma obj_get_normalize (parameters : obj) (key : string) :
  obj_wf parameters →
  obj_get (normalize_spec parameters) key =
  match obj_get parameters key with
  | Some (JArr val) => Some (JStr (join "|" val))
  | Some (JBool false) | Some JUndef | None => None
  | Some v => Some v
  end.
Proof.
  induction parameters as [|[k v] r IH]; intros Hwf; [done|].
  unfold obj_wf in Hwf. simpl in Hwf. apply NoDup_cons in Hwf as [Hk Hr].
  specialize (IH Hr). simpl obj_get at 2.
  assert (k = key → obj_get (normalize_spec r) key = None) as Hgone.
  { intros <-. apply obj_get_None. intros Hin. by apply Hk, keys_normalize. }
  destruct (decide (k = key)) as [Heq|Hne].
  - destruct v as [| |[|]| | | | |]; simpl; rewrite ?decide_True by done; auto.
  - destruct v as [| |[|]| | | | |]; simpl; rewrite ?decide_False by done; done.
Qed.

(** ** The store *)

Lemma read_write_obj (w : World) (l : loc) (o : obj) :
  (l < length (objects w))%nat → read_obj (write_obj w l o) l = o.
Proof. intros Hl. unfold read_obj, write_obj. simpl. by apply list_lookup_total_insert_eq. Qed.

Lemma read_write_obj_ne (w : World) (l l' : loc) (o : obj) :
  l ≠ l' → read_obj (write_obj w l o) l' = read_obj w l'.
Proof. intros Hl. unfold read_obj, write_obj. simpl. by apply list_lookup_total_insert_ne. Qed.

(** ** Claim C5 *)

(** C5: [preprocessParameters] is a total function of the parameter
    object; after it, a key whose value was [false] or [undefined] (or
    that was absent) is absent, a key whose value was an array holds the
    elements joined with a bar, and every other key holds the value it
    held before. *)
Theorem preprocessParameters_normalizes (w : World) (parameters : loc) (key : string) :
  (parameters < length (objects w))%nat →
  obj_wf (read_obj w parameters) →
  obj_get (read_obj (Base.preprocessParameters w parameters) parameters) key =
  match obj_get (read_obj w parameters) key with
  | Some (JArr val) => Some (JStr (join "|" val))
  | Some (JBool false) | Some JUndef | None => None
  | Some v => Some v
  end.
Proof.
  intros Hl Hwf. unfold Base.preprocessParameters.
  rewrite read_write_obj by done.
  rewrite preprocess_normalize by done.
  by apply obj_get_normalize.
Qed.

Ltac by_evaluation := try unfold obj_wf; compute_done.

Lemma preprocessParameters_normalizes_witness :
  (0 < length (objects ex_world))%nat
  ∧ obj_wf (read_obj ex_world 0%nat)
  ∧ obj_get (read_obj (Base.preprocessParameters ex_world 0%nat) 0%nat) "titles"
    = Some (JStr "A|B|C").
Proof.
  assert (0 < length (objects ex_world))%nat as H1 by (simpl; lia).
  assert (obj_wf (read_obj ex_world 0%nat)) as H2 by by_evaluation.
  split; [exact H1 | split; [exact H2|]].
  exact (preprocessParameters_normalizes ex_world 0%nat "titles" H1 H2).
Defined.

(** ** More on the store *)

(** Writes to one part of the world leave the other parts alone. *)
Lemma read_write_options (w : World) (l : loc) (o : Options) :
  (l < length (configs w))%nat → read_options (write_options w l o) l = o.
Proof.
  intros Hl. unfold read_options, write_options. simpl.
  by apply list_lookup_total_insert_eq.
Qed.

Lemma read_write_options_ne (w : World) (l l' : loc) (o : Options) :
  l ≠ l' → read_options (write_options w l o) l' = read_options w l'.
Proof.
  intros Hl. unfold read_options, write_options. simpl.
  by apply list_lookup_total_insert_ne.
Qed.

Lemma read_options_write_obj (w : World) (l l' : loc) (o : obj) :
  read_options (write_obj w l o) l' = read_options w l'.
Proof. done. Qed.

Lemma read_obj_write_options (w : World) (l l' : loc) (o : Options) :
  read_obj (write_options w l o) l' = read_obj w l'.
Proof. done. Qed.

Lemma configs_write_obj (w : World) (l : loc) (o : obj) :
  configs (write_obj w l o) = configs w.
Proof. done. Qed.

Lemma objects_write_options (w : World) (l : loc) (o : Options) :
  objects (write_options w l o) = objects w.
Proof. done. Qed.

Lemma length_configs_write_options (w : World) (l : loc) (o : Options) :
  length (configs (write_options w l o)) = length (configs w).
Proof. unfold write_options. simpl. apply length_insert. Qed.

Lemma length_objects_write_obj (w : World) (l : loc) (o : obj) :
  length (objects (write_obj w l o)) = length (objects w).
Proof. unfold write_obj. simpl. apply length_insert. Qed.

Lemma sent_write_obj (w : World) (l : loc) (o : obj) : sent (write_obj w l o) = sent w.
Proof. done. Qed.

Lemma sent_write_options (w : World) (l : loc) (o : Options) :
  sent (write_options w l o) = sent w.
Proof. done. Qed.

Lemma tokens_write_obj (w : World) (l : loc) (o : obj) :
  tokens (write_obj w l o) = tokens w.
Proof. done. Qed.

Lemma tokens_write_options (w : World) (l : loc) (o : Options) :
  tokens (write_options w l o) = tokens w.
Proof. done. Qed.

Lemma aborts_write_obj (w : World) (l : loc) (o : obj) :
  aborts (write_obj w l o) = aborts w.
Proof. done. Qed.

Lemma aborts_write_options (w : World) (l : loc) (o : Options) :
  aborts (write_options w l o) = aborts w.
Proof. done. Qed.

Create Rewrite HintDb store.

#[global] Hint Rewrite read_options_write_obj read_obj_write_options
  configs_write_obj objects_write_options length_configs_write_options
  length_objects_write_obj sent_write_obj sent_write_options
  tokens_write_obj tokens_write_options aborts_write_obj aborts_write_options
  : store.
#[global] Hint Rewrite read_write_options read_write_obj
  using (autorewrite with store; assumption) : store.

(** What [request] does: one more request, the snapshot of [options]. *)
Lemma request_spec (client : Client) (transport : nat → AxiosOutcome)
    (w : World) (options : loc) :
  (options < length (configs w))%nat →
  let w' := (Base.request client transport w options).1 in
  sent w' = sent w ++ [with_url_signal (read_options w options) (apiUrl client) (aborts w)]
  ∧ objects w' = objects w
  ∧ tokens w' = tokens w
  ∧ length (configs w') = length (configs w)
  ∧ (Base.request client transport w options).2 = settle (transport (length (sent w))).
Proof.
  intros Hl. unfold Base.request. cbn [fst snd].
  cbn [sent objects tokens configs].
  autorewrite with store. done.
Qed.

Lemma keys_assign (target source : obj) (k : string) :
  k ∈ keys (obj_assign target source) → k ∈ keys target ∨ k ∈ keys source.
Proof.
  unfold obj_assign. revert target.
  induction source as [|[k0 v0] r IH]; simpl; [auto|].
  intros target Hk. apply IH in Hk as [Hk|Hk]; [|right; by right].
  rewrite keys_set_perm in Hk. destruct (has_key target k0); [by left|].
  apply elem_of_cons in Hk as [->|Hk]; [right; left | by left].
Qed.

Lemma keys_preprocess_key (o : obj) (k key : string) :
  k ∈ keys (preprocess_key o key) → k ∈ keys o.
Proof.
  unfold preprocess_key. destruct (obj_get o key) as [v|] eqn:E; simpl.
  - destruct v as [| |[|]| | | | |]; try done.
    + rewrite keys_delete. by intros [? ?]%list_elem_of_filter.
    + rewrite keys_delete. by intros [? ?]%list_elem_of_filter.
    + rewrite keys_set_perm.
      assert (has_key o key = true) as ->; [|done].
      apply has_key_true. by eapply obj_get_Some_key.
  - rewrite keys_delete. by intros [? ?]%list_elem_of_filter.
Qed.

Lemma keys_preprocess (o : obj) (k : string) :
  k ∈ keys (preprocess o) → k ∈ keys o.
Proof.
  unfold preprocess. generalize (keys o) at 1 as ks. intros ks. revert o.
  induction ks as [|key ks IH]; simpl; [done|].
  intros o Hk. apply IH in Hk. by eapply keys_preprocess_key.
Qed.

(** ** Claim C8 *)

Lemma last_form_of_record (d : obj) (k : string) (v : JsVal) :
  last (List.map (λ kv : string * string, (kv.1, JStr kv.2)) (form_of_record (d ++ [(k, v)])))
  = Some (k, JStr (to_string v)).
Proof.
  unfold form_of_record. rewrite !List.map_app. simpl. apply last_snoc.
Qed.

(** C8, as amended: when the parameter map holds a non-empty string under
    [token], and neither the object that [ajax] fills nor the defaults of
    the client supply a [token] entry, the key is taken out of the map
    before normalisation and its value is the last entry of the payload of
    the one request that is sent, for GET and for POST. *)
Theorem ajax_token_last (client : Client) (transport : nat → AxiosOutcome)
    (w : World) (parameters options : loc) (t : string) :
  (parameters < length (objects w))%nat →
  (options < length (configs w))%nat →
  obj_get (read_obj w parameters) "token" = Some (JStr t) →
  t ≠ EmptyString →
  token_unset client (read_options w options) →
  ∃ request,
    sent (MWCC.ajax client transport w parameters options).1 = sent w ++ [request]
    ∧ last (payload request) = Some ("token", JStr t)
    ∧ "token" ∉ keys (read_obj (MWCC.ajax client transport w parameters options).1 parameters).
Proof.
  intros Hp Ho Htok Ht Hunset.
  unfold MWCC.ajax, Base.ajax, Base.preprocessParameters.
  unfold prop. rewrite Htok. cbn [default from_option id is_string].
  assert (truthy (JStr t) = true) as -> by (by destruct t).
  autorewrite with store.
  set (ps := preprocess (obj_delete (read_obj w parameters) "token")).
  assert ("token" ∉ keys ps) as Hps.
  { intros Hin. apply keys_preprocess in Hin. rewrite keys_delete in Hin.
    by apply list_elem_of_filter in Hin as [? _]. }
  unfold token_unset in Hunset. fold (method_of client (read_options w options)).
  set (m := method_of client (read_options w options)) in *.
  assert (array_index "token" = None) as Hidx by done.
  assert (∀ a b c : obj, "token" ∉ keys a → "token" ∉ keys b → "token" ∉ keys c →
            "token" ∉ keys (obj_assign (obj_assign (obj_assign a b) defaults) c)) as Hassign.
  { assert ("token" ∉ keys defaults) as Hd by compute_done.
    intros a b c Ha Hb Hc Hin.
    apply keys_assign in Hin as [Hin|Hin]; [|done].
    apply keys_assign in Hin as [Hin|Hin]; [|done].
    apply keys_assign in Hin as [Hin|Hin]; done. }
  assert (∀ W, objects W = objects (write_obj (write_obj w parameters
                    (obj_delete (read_obj w parameters) "token")) parameters ps) →
            "token" ∉ keys (read_obj W parameters)) as Hextracted.
  { intros W HW. unfold read_obj. rewrite HW.
    change ("token" ∉ keys (read_obj (write_obj (write_obj w parameters
              (obj_delete (read_obj w parameters) "token")) parameters ps) parameters)).
    by autorewrite with store. }
  destruct (is_GET m) eqn:EG.
  - destruct Hunset as [Hopt Hdef].
    match goal with
    | |- context [Base.request client transport ?W options] =>
        destruct (request_spec client transport W options) as (Hs & Hobj & _);
        [by autorewrite with store|]
    end.
    eexists. split; [rewrite Hs; by autorewrite with store|]. split.
    + autorewrite with store. unfold payload. cbn [method with_url_signal with_params with_method
        default from_option id params].
      rewrite EG. rewrite obj_set_new_last by auto. apply last_snoc.
    + apply Hextracted. rewrite Hobj. by autorewrite with store.
  - destruct Hunset as [Hdef Hdata].
    cbn [data with_method].
    assert (∀ target : obj, "token" ∉ keys target →
      ∃ request,
        sent (Base.request client transport
                (write_options
                   (write_options
                      (write_obj (write_obj w parameters
                                    (obj_delete (read_obj w parameters) "token"))
                                 parameters ps)
                      options (with_method (read_options w options) m))
                   options
                   (with_data (with_method (read_options w options) m)
                      (BodyString (form_of_record
                         (obj_set (obj_assign (obj_assign (obj_assign target
                            (defaults_data client)) defaults) ps) "token" (JStr t))))))
                options).1 = sent w ++ [request]
        ∧ last (payload request) = Some ("token", JStr t)
        ∧ "token" ∉ keys (read_obj (Base.request client transport
                (write_options
                   (write_options
                      (write_obj (write_obj w parameters
                                    (obj_delete (read_obj w parameters) "token"))
                                 parameters ps)
                      options (with_method (read_options w options) m))
                   options
                   (with_data (with_method (read_options w options) m)
                      (BodyString (form_of_record
                         (obj_set (obj_assign (obj_assign (obj_assign target
                            (defaults_data client)) defaults) ps) "token" (JStr t))))))
                options).1 parameters)) as Hbuild.
    { intros target Htarget.
      match goal with
      | |- context [Base.request client transport ?W options] =>
          destruct (request_spec client transport W options) as (Hs & Hobj & _);
          [by autorewrite with store|]
      end.
      eexists. split; [rewrite Hs; by autorewrite with store|]. split.
      + autorewrite with store. unfold payload.
        cbn [method with_url_signal with_data with_method default from_option id data].
        rewrite EG. rewrite obj_set_new_last by auto. apply last_form_of_record.
      + apply Hextracted. rewrite Hobj. by autorewrite with store. }
    destruct (data (read_options w options)) as [|o|[|e f]|f]; try done.
    all: apply Hbuild; first [done | apply not_elem_of_nil].
Qed.


Lemma ajax_token_last_witness :
  (0 < length (objects ex_world_token))%nat
  ∧ (0 < length (configs ex_world_token))%nat
  ∧ obj_get (read_obj ex_world_token 0%nat) "token" = Some (JStr "abc+\")
  ∧ "abc+\" ≠ EmptyString
  ∧ token_unset ex_client (read_options ex_world_token 0%nat)
  ∧ ∃ request,
      sent (MWCC.ajax ex_client ex_transport ex_world_token 0%nat 0%nat).1
      = sent ex_world_token ++ [request]
      ∧ last (payload request) = Some ("token", JStr "abc+\")
      ∧ "token" ∉ keys (read_obj (MWCC.ajax ex_client ex_transport ex_world_token 0%nat 0%nat).1 0%nat).
Proof.
  assert (0 < length (objects ex_world_token))%nat as H1 by (simpl; lia).
  assert (0 < length (configs ex_world_token))%nat as H2 by (simpl; lia).
  assert (obj_get (read_obj ex_world_token 0%nat) "token" = Some (JStr "abc+\")) as H3
    by reflexivity.
  assert ("abc+\" ≠ EmptyString) as H4 by discriminate.
  assert (token_unset ex_client (read_options ex_world_token 0%nat)) as H5
    by (split; compute_done).
  repeat (split; [assumption|]).
  exact (ajax_token_last ex_client ex_transport ex_world_token 0%nat 0%nat _ H1 H2 H3 H4 H5).
Defined.

(** C8, as stated, fails: a [token] that is not a string is not taken out
    of the map, and the parameters after it follow it in the payload. *)
Lemma ajax_token_not_last :
  has_key (read_obj ex_world_number_token 0%nat) "token" = true
  ∧ List.map payload (sent (MWCC.ajax ex_client ex_transport ex_world_number_token 0%nat 0%nat).1)
    = [[("action", JStr "query"); ("format", JStr "json"); ("formatversion", JStr "2");
        ("token", JNum 5); ("title", JStr "A")]]
  ∧ ¬ ∃ request v,
        last (sent (MWCC.ajax ex_client ex_transport ex_world_number_token 0%nat 0%nat).1)
        = Some request
        ∧ last (payload request) = Some ("token", v).
Proof.
  split; [reflexivity|]. split; [reflexivity|].
  intros (request & v & Hlast & Hpay).
  vm_compute in Hlast. injection Hlast as <-.
  vm_compute in Hpay. discriminate.
Qed.

(** An empty string under [token] is taken out of the map and not sent. *)
Lemma ajax_empty_token_dropped :
  has_key (read_obj ex_world_empty_token 0%nat) "token" = true
  ∧ List.map payload (sent (MWCC.ajax ex_client ex_transport ex_world_empty_token 0%nat 0%nat).1)
    = [[("action", JStr "query"); ("format", JStr "json"); ("formatversion", JStr "2");
        ("title", JStr "A")]].
Proof. split; reflexivity. Qed.

(** A [token] entry that [options.params] holds already keeps its place
    when the token of the parameter map is assigned to it. *)
Lemma ajax_token_preset_not_last :
  List.map payload (sent (MWCC.ajax ex_client ex_transport ex_world_options_token 0%nat 0%nat).1)
  = [[("token", JStr "abc+\"); ("maxlag", JNum 5); ("action", JStr "query");
      ("format", JStr "json"); ("formatversion", JStr "2"); ("title", JStr "A")]].
Proof. reflexivity. Qed.

(** ** [ajax] in closed form *)

Lemma insert_last {A} (l : list A) (x y : A) : <[length l := y]> (l ++ [x]) = l ++ [y].
Proof. rewrite insert_app_r_alt by lia. by rewrite Nat.sub_diag. Qed.

Lemma world_eq (w w' : World) :
  objects w = objects w' → configs w = configs w' → tokens w = tokens w' →
  aborts w = aborts w' → sent w = sent w' → w = w'.
Proof. destruct w, w'. simpl. by intros -> -> -> -> ->. Qed.

Ltac world_done :=
  f_equal; apply world_eq; unfold write_options, write_obj;
  cbn [objects configs tokens aborts sent];
  rewrite ?list_insert_insert_eq; done.

(** When [ajax] reaches [axios.request]: the parameter object is
    normalised in place, the options are completed in place, one request
    is sent and its outcome settles the promise. *)
Lemma ajax_sends (encode : form → Body) (client : Client) (transport : nat → AxiosOutcome)
    (w : World) (parameters options : loc) (request : Options) :
  (parameters < length (objects w))%nat →
  (options < length (configs w))%nat →
  ajax_request encode client (read_options w options) (read_obj w parameters) (aborts w)
  = Some request →
  Base.ajax encode client transport w parameters options =
  (mkWorld (<[parameters := ajax_parameters (read_obj w parameters)]> (objects w))
     (<[options := request]> (configs w)) (tokens w) (S (aborts w)) (sent w ++ [request]),
   settle (transport (length (sent w)))).
Proof.
  intros Hp Ho Hreq. unfold ajax_request, filled in Hreq.
  unfold Base.ajax, Base.preprocessParameters, Base.request.
  fold (ajax_token (read_obj w parameters)).
  fold (with_token).
  unfold ajax_parameters in *.
  fold (method_of client (read_options w options)) in *.
  destruct (is_string (prop (JObj (read_obj w parameters)) "token")) eqn:Estr;
    autorewrite with store; fold (method_of client (read_options w options));
    (destruct (is_GET (method_of client (read_options w options)));
     [ injection Hreq as <-; world_done
     | cbn [data with_method];
       destruct (data (read_options w options)) as [|o|[|e f]|f];
       try discriminate Hreq; autorewrite with store;
       injection Hreq as <-; world_done ]).
Qed.

(** When [ajax] throws: the parameter object is normalised and the method
    is set, and nothing is sent. *)
Lemma ajax_throws (encode : form → Body) (client : Client) (transport : nat → AxiosOutcome)
    (w : World) (parameters options : loc) :
  (parameters < length (objects w))%nat →
  (options < length (configs w))%nat →
  ajax_request encode client (read_options w options) (read_obj w parameters) (aborts w)
  = None →
  Base.ajax encode client transport w parameters options =
  (mkWorld (<[parameters := ajax_parameters (read_obj w parameters)]> (objects w))
     (<[options := with_method (read_options w options)
                     (method_of client (read_options w options))]> (configs w))
     (tokens w) (aborts w) (sent w),
   Thrown TypeError).
Proof.
  intros Hp Ho Hreq. unfold ajax_request, filled in Hreq.
  unfold Base.ajax, Base.preprocessParameters, Base.request.
  unfold ajax_parameters in *.
  fold (method_of client (read_options w options)) in *.
  destruct (is_string (prop (JObj (read_obj w parameters)) "token")) eqn:Estr;
    autorewrite with store; fold (method_of client (read_options w options));
    (destruct (is_GET (method_of client (read_options w options)));
     [ discriminate Hreq
     | cbn [data with_method];
       destruct (data (read_options w options)) as [|o|[|e f]|f];
       try discriminate Hreq; world_done ]).
Qed.

Lemma get_fresh (encode : form → Body) (client : Client) (transport : nat → AxiosOutcome)
    (w : World) (parameters : loc) :
  (parameters < length (objects w))%nat →
  Base.get encode client transport w parameters None =
  (mkWorld (<[parameters := ajax_parameters (read_obj w parameters)]> (objects w))
     (configs w ++ [get_request client (read_obj w parameters) (aborts w)])
     (tokens w) (S (aborts w))
     (sent w ++ [get_request client (read_obj w parameters) (aborts w)]),
   settle (transport (length (sent w)))).
Proof.
  intros Hp. unfold Base.get, Base.or_fresh, alloc_options.
  set (w1 := mkWorld _ _ _ _ _).
  assert (read_options w1 (length (configs w)) = no_options) as ->.
  { unfold w1, read_options. cbn [configs]. by apply list_lookup_total_middle. }
  set (w2 := write_options w1 _ _).
  assert (read_options w2 (length (configs w)) = with_method no_options "GET") as Hopt.
  { unfold w2, w1, read_options, write_options. cbn [configs].
    rewrite insert_last. by apply list_lookup_total_middle. }
  rewrite (ajax_sends encode client transport w2 parameters (length (configs w))
             (get_request client (read_obj w parameters) (aborts w))).
  - f_equal. apply world_eq; try done.
    unfold w2, w1, write_options. cbn [configs]. by rewrite !insert_last.
  - done.
  - unfold w2, w1. rewrite length_configs_write_options. cbn [configs].
    rewrite length_app. simpl. lia.
  - rewrite Hopt. done.
Qed.

Lemma post_fresh (encode : form → Body) (client : Client) (transport : nat → AxiosOutcome)
    (w : World) (parameters : loc) :
  (parameters < length (objects w))%nat →
  Base.post encode client transport w parameters None =
  (mkWorld (<[parameters := ajax_parameters (read_obj w parameters)]> (objects w))
     (configs w ++ [post_request encode client (read_obj w parameters) (aborts w)])
     (tokens w) (S (aborts w))
     (sent w ++ [post_request encode client (read_obj w parameters) (aborts w)]),
   settle (transport (length (sent w)))).
Proof.
  intros Hp. unfold Base.post, Base.or_fresh, alloc_options.
  set (w1 := mkWorld _ _ _ _ _).
  assert (read_options w1 (length (configs w)) = no_options) as ->.
  { unfold w1, read_options. cbn [configs]. by apply list_lookup_total_middle. }
  set (w2 := write_options w1 _ _).
  assert (read_options w2 (length (configs w)) = with_method no_options "POST") as Hopt.
  { unfold w2, w1, read_options, write_options. cbn [configs].
    rewrite insert_last. by apply list_lookup_total_middle. }
  rewrite (ajax_sends encode client transport w2 parameters (length (configs w))
             (post_request encode client (read_obj w parameters) (aborts w))).
  - f_equal. apply world_eq; try done.
    unfold w2, w1, write_options. cbn [configs]. by rewrite !insert_last.
  - done.
  - unfold w2, w1. rewrite length_configs_write_options. cbn [configs].
    rewrite length_app. simpl. lia.
  - rewrite Hopt. done.
Qed.

(** ** The token cache *)

(** [getToken] with a cached token: nothing changes. *)
Lemma getToken_hit (encode : form → Body) (client : Client) (transport : nat → AxiosOutcome)
    (w : World) (tokenType : string) (extra : Extra) (token : JsVal) :
  cached w tokenType = Some token →
  Base.getToken encode client transport w tokenType extra = (w, Resolved token).
Proof.
  unfold cached, token_name, Base.getToken.
  destruct (truthy _); [|done]. by intros [= <-].
Qed.

(** [getToken] without a cached token: one GET for [meta=tokens&type=*],
    and the response decides. *)
Lemma getToken_miss (encode : form → Body) (client : Client) (transport : nat → AxiosOutcome)
    (w : World) (tokenType : string) (extra : Extra) :
  cached w tokenType = None →
  Base.getToken encode client transport w tokenType extra =
  match settle (transport (length (sent w))) with
  | Resolved res =>
      let resToken := prop (prop res "query") "tokens" in
      if truthy resToken then
        (set_tokens (after_token_request client w extra) resToken,
         if truthy (prop resToken (token_name tokenType))
         then Resolved (prop resToken (token_name tokenType))
         else Rejected (badnamedtoken tokenType))
      else (after_token_request client w extra, Rejected ok_but_empty)
  | Rejected e | Thrown e => (after_token_request client w extra, Rejected e)
  | Pending => (after_token_request client w extra, Pending)
  end.
Proof.
  unfold cached, token_name, Base.getToken.
  destruct (truthy (prop (tokens w) _)); [done|]. intros _.
  fold (token_query w extra). unfold alloc_obj.
  set (w1 := mkWorld _ _ _ _ _).
  assert (read_obj w1 (length (objects w)) = token_query w extra) as Hread.
  { unfold w1, read_obj. cbn [objects]. by apply list_lookup_total_middle. }
  rewrite get_fresh by (unfold w1; cbn [objects]; rewrite length_app; simpl; lia).
  rewrite Hread. unfold w1. cbn [objects configs tokens aborts sent].
  rewrite insert_last. fold (after_token_request client w extra).
  destruct (settle (transport (length (sent w)))) as [res|e| |e]; try done.
  cbn zeta. destruct (truthy (prop (prop res "query") "tokens")); [|done].
  by destruct (truthy (prop (prop (prop res "query") "tokens") _)).
Qed.

Lemma prop_delete_prop (v : JsVal) (k : string) : prop (delete_prop v k) k = JUndef.
Proof.
  destruct v; try done. simpl. rewrite obj_get_delete. by rewrite decide_True.
Qed.

Lemma cached_badToken (w : World) (tokenType : string) :
  cached (Base.badToken w tokenType) tokenType = None.
Proof.
  unfold cached, Base.badToken. fold (token_name tokenType).
  destruct (truthy (prop (tokens w) (token_name tokenType))) eqn:E.
  - cbn [tokens set_tokens]. by rewrite prop_delete_prop.
  - by rewrite E.
Qed.

Lemma badToken_absent (w : World) (tokenType : string) :
  cached w tokenType = None → Base.badToken w tokenType = w.
Proof.
  unfold cached, Base.badToken. fold (token_name tokenType).
  by destruct (truthy (prop (tokens w) (token_name tokenType))).
Qed.

Lemma sent_badToken (w : World) (tokenType : string) :
  sent (Base.badToken w tokenType) = sent w.
Proof. unfold Base.badToken. by destruct (truthy _). Qed.

Lemma sent_getToken_miss (encode : form → Body) (client : Client)
    (transport : nat → AxiosOutcome) (w : World) (tokenType : string) (extra : Extra) :
  cached w tokenType = None →
  sent (Base.getToken encode client transport w tokenType extra).1
  = sent w ++ [get_request client (token_query w extra) (aborts w)].
Proof.
  intros Hmiss. rewrite getToken_miss by done.
  destruct (settle _) as [res|e| |e]; try done.
  cbn zeta. by destruct (truthy (prop (prop res "query") "tokens")).
Qed.

(** A token that [getToken] resolves with is in the cache afterwards. *)
Lemma getToken_resolved_cached (encode : form → Body) (client : Client)
    (transport : nat → AxiosOutcome) (w : World) (tokenType : string) (extra : Extra)
    (token : JsVal) :
  (Base.getToken encode client transport w tokenType extra).2 = Resolved token →
  cached (Base.getToken encode client transport w tokenType extra).1 tokenType = Some token.
Proof.
  destruct (cached w tokenType) as [t|] eqn:Hc.
  - rewrite (getToken_hit _ _ _ _ _ _ t) by done. simpl. by intros [= <-].
  - rewrite getToken_miss by done.
    destruct (settle _) as [res|e| |e]; try done.
    cbn zeta. destruct (truthy (prop (prop res "query") "tokens")) eqn:E1; [|done].
    destruct (truthy (prop (prop (prop res "query") "tokens") _)) eqn:E2; [|done].
    cbn [fst snd]. intros [= <-]. unfold cached. cbn [tokens set_tokens]. by rewrite E2.
Qed.

(** ** Claim C6 *)

(** C6: [getToken] answers from the cache, without a request, when the
    cache holds a token for the canonical type, and sends one request
    when it holds none; a second call after a call that resolved sends
    nothing and resolves with the same token, so that the two calls send
    at most one request; [badToken] leaves no cached token for the type,
    changes nothing when there was none, and the [getToken] that follows
    it sends a request. *)
Theorem getToken_served_from_cache (encode : form → Body) (client : Client)
    (transport : nat → AxiosOutcome) (w : World) (tokenType : string) (extra extra' : Extra) :
  let getToken := Base.getToken encode client transport in
  (∀ token, cached w tokenType = Some token →
     getToken w tokenType extra = (w, Resolved token))
  ∧ (cached w tokenType = None →
     sent (getToken w tokenType extra).1
     = sent w ++ [get_request client (token_query w extra) (aborts w)])
  ∧ (∀ token, (getToken w tokenType extra).2 = Resolved token →
     getToken (getToken w tokenType extra).1 tokenType extra'
     = ((getToken w tokenType extra).1, Resolved token)
     ∧ (length (sent (getToken w tokenType extra).1) ≤ S (length (sent w)))%nat)
  ∧ cached (Base.badToken w tokenType) tokenType = None
  ∧ (cached w tokenType = None → Base.badToken w tokenType = w)
  ∧ Base.badToken (Base.badToken w tokenType) tokenType = Base.badToken w tokenType
  ∧ length (sent (getToken (Base.badToken w tokenType) tokenType extra).1)
    = S (length (sent w)).
Proof.
  intros getToken. subst getToken. split_and!.
  - intros token Hc. by apply getToken_hit.
  - apply sent_getToken_miss.
  - intros token Hr. split.
    + apply getToken_hit. by apply getToken_resolved_cached.
    + destruct (cached w tokenType) as [t|] eqn:Hc.
      * rewrite (getToken_hit _ _ _ _ _ _ t) by done. simpl. lia.
      * rewrite sent_getToken_miss by done. rewrite length_app. simpl. lia.
  - apply cached_badToken.
  - apply badToken_absent.
  - apply badToken_absent, cached_badToken.
  - rewrite sent_getToken_miss by apply cached_badToken.
    rewrite length_app, sent_badToken. simpl. lia.
Qed.

(** ** Claim C7 *)

(** C7: when [getToken] goes to the network and the request resolves with
    [res]: if [res.query.tokens] is there, it becomes the whole cache, and
    the call resolves with the entry of the requested type or, when that
    entry is missing, rejects with [badnamedtoken]; if it is not there,
    the call rejects with [ok-but-empty] and the cache is as before. *)
Theorem getToken_replaces_cache (encode : form → Body) (client : Client)
    (transport : nat → AxiosOutcome) (w : World) (tokenType : string) (extra : Extra)
    (res : JsVal) :
  cached w tokenType = None →
  settle (transport (length (sent w))) = Resolved res →
  let resToken := prop (prop res "query") "tokens" in
  let w' := (Base.getToken encode client transport w tokenType extra).1 in
  let r := (Base.getToken encode client transport w tokenType extra).2 in
  (truthy resToken = true →
     tokens w' = resToken
     ∧ (truthy (prop resToken (token_name tokenType)) = true →
        r = Resolved (prop resToken (token_name tokenType)))
     ∧ (truthy (prop resToken (token_name tokenType)) = false →
        r = Rejected (badnamedtoken tokenType)))
  ∧ (truthy resToken = false → r = Rejected ok_but_empty ∧ tokens w' = tokens w)
  ∧ error_code (badnamedtoken tokenType) = JStr "badnamedtoken"
  ∧ error_code ok_but_empty = JStr "ok-but-empty".
Proof.
  intros Hmiss Hres resToken w' r. subst w' r.
  rewrite getToken_miss by done. rewrite Hres. cbn zeta. fold resToken.
  split_and!; [| |done|done].
  - intros ->. cbn [fst snd]. split_and!; [done| |]; by intros ->.
  - by intros ->.
Qed.

Lemma getToken_served_from_cache_witness :
  cached ex_world_cached "csrf" = Some (JStr "abc+\")
  ∧ Base.getToken BodyString ex_client ex_transport ex_world_cached "csrf" ExtraNone
    = (ex_world_cached, Resolved (JStr "abc+\")).
Proof.
  assert (cached ex_world_cached "csrf" = Some (JStr "abc+\")) as H by reflexivity.
  split; [exact H|].
  exact (proj1 (getToken_served_from_cache BodyString ex_client ex_transport ex_world_cached
                  "csrf" ExtraNone ExtraNone) _ H).
Defined.

Lemma getToken_replaces_cache_witness :
  cached ex_world_cached "patrol" = None
  ∧ settle (ex_token_transport (length (sent ex_world_cached))) = Resolved ex_tokens
  ∧ tokens (Base.getToken BodyString ex_client ex_token_transport ex_world_cached
              "patrol" ExtraNone).1
    = JObj [("csrftoken", JStr "fresh+\")]
  ∧ (Base.getToken BodyString ex_client ex_token_transport ex_world_cached
       "patrol" ExtraNone).2
    = Rejected (badnamedtoken "patrol").
Proof.
  assert (cached ex_world_cached "patrol" = None) as H1 by reflexivity.
  assert (settle (ex_token_transport (length (sent ex_world_cached))) = Resolved ex_tokens)
    as H2 by reflexivity.
  split; [exact H1|]. split; [exact H2|].
  destruct (getToken_replaces_cache BodyString ex_client ex_token_transport ex_world_cached
              "patrol" ExtraNone ex_tokens H1 H2) as (Hthere & _).
  destruct (Hthere eq_refl) as (Hcache & _ & Hmissing).
  split; [exact Hcache | exact (Hmissing eq_refl)].
Defined.

(** ** Claim C9 *)

Lemma mapLegacyToken_legacy (action : string) :
  action ∈ csrfActions → mapLegacyToken action = "csrf".
Proof. intros H. unfold mapLegacyToken. by rewrite bool_decide_eq_true_2. Qed.

Lemma mapLegacyToken_other (action : string) :
  action ∉ csrfActions → mapLegacyToken action = action.
Proof. intros H. unfold mapLegacyToken. by rewrite bool_decide_eq_false_2. Qed.

(** C9: a legacy type name is canonicalised to [csrf] in [getToken],
    [badToken] and [postWithToken] of both classes, which then do what
    they do for [csrf]: the same result, the same cache, the same
    requests; any other name is used as it is. *)
Theorem legacy_token_types_are_csrf (encode : form → Body) (client : Client)
    (transport : nat → AxiosOutcome) (w : World) (action : string)
    (extra : Extra) (params : loc) (options : option loc) :
  (action ∈ csrfActions →
     Base.getToken encode client transport w action extra
     = Base.getToken encode client transport w "csrf" extra
     ∧ Base.badToken w action = Base.badToken w "csrf"
     ∧ MWCC.postWithToken client transport w action params options
       = MWCC.postWithToken client transport w "csrf" params options
     ∧ MWCCStatic.postWithToken client transport w action params options
       = MWCCStatic.postWithToken client transport w "csrf" params options)
  ∧ (action ∉ csrfActions → mapLegacyToken action = action).
Proof.
  split; [|apply mapLegacyToken_other].
  intros Hlegacy. apply mapLegacyToken_legacy in Hlegacy.
  assert (mapLegacyToken "csrf" = "csrf") as Hcsrf by done.
  split_and!.
  - unfold Base.getToken. by rewrite Hlegacy, Hcsrf.
  - unfold Base.badToken. by rewrite Hlegacy, Hcsrf.
  - unfold MWCC.postWithToken, MWCC.getToken, MWCC.badToken, Base.getToken, Base.badToken.
    by rewrite Hlegacy, Hcsrf.
  - unfold MWCCStatic.postWithToken, MWCCStatic.getToken, MWCCStatic.badToken,
      Base.getToken, Base.badToken.
    by rewrite Hlegacy, Hcsrf.
Qed.

Lemma legacy_token_types_are_csrf_witness :
  "edit" ∈ csrfActions
  ∧ Base.getToken BodyString ex_client ex_token_transport ex_world "edit" ExtraNone
    = Base.getToken BodyString ex_client ex_token_transport ex_world "csrf" ExtraNone
  ∧ ("watch" ∉ csrfActions)
  ∧ mapLegacyToken "watch" = "watch".
Proof.
  assert ("edit" ∈ csrfActions) as H1 by compute_done.
  assert ("watch" ∉ csrfActions) as H2 by compute_done.
  destruct (legacy_token_types_are_csrf BodyString ex_client ex_token_transport ex_world
              "edit" ExtraNone 0%nat None) as (Hl & _).
  destruct (legacy_token_types_are_csrf BodyString ex_client ex_token_transport ex_world
              "watch" ExtraNone 0%nat None) as (_ & Ho).
  split; [exact H1|]. split; [exact (proj1 (Hl H1))|]. split; [exact H2 | exact (Ho H2)].
Defined.

(** ** The continuation driver *)

Lemma settle_settled (out : AxiosOutcome) :
  (∃ v, settle out = Resolved v) ∨ (∃ e, settle out = Rejected e).
Proof.
  unfold settle. destruct out as [response|error].
  - destruct (nullish response || negb (truthy (prop response "data"))); [eauto|].
    destruct (negb (is_object (prop response "data"))); [eauto|].
    destruct (truthy (prop (prop response "data") "error")); eauto.
  - destruct (truthy error && is_str (prop error "code") "ERR_CANCELED"); eauto.
Qed.

Lemma entries_S (transport : nat → AxiosOutcome) (first n : nat) :
  entries transport first (S n) = entry (transport first) :: entries transport (S first) n.
Proof.
  unfold entries. cbn [seq List.map]. rewrite Nat.add_0_r. f_equal.
  rewrite <- seq_shift, List.map_map. apply List.map_ext. intros i. f_equal. f_equal. lia.
Qed.

(** [req] makes one request after the other while the responses carry
    [continue] and the count is below the limit. *)
Lemma req_run (client : Client) (transport : nat → AxiosOutcome) (limit : Z) (n : nat) :
  ∀ (fuel : nat) (w : World) (params : loc) (count : Z) (responses : list JsVal),
    (params < length (objects w))%nat →
    (n < fuel)%nat →
    (∀ i, (i < n)%nat →
       continues (transport (length (sent w) + i)%nat) = true ∧ count + Z.of_nat i < limit) →
    (continues (transport (length (sent w) + n)%nat) = false ∨ limit ≤ count + Z.of_nat n) →
    (MWCCStatic.req client transport fuel limit w params count responses).2
    = Resolved (responses ++ entries transport (length (sent w)) (S n))
    ∧ length (sent (MWCCStatic.req client transport fuel limit w params count responses).1)
      = (length (sent w) + S n)%nat.
Proof.
  induction n as [|n IH]; intros fuel w params count responses Hp Hfuel Hcont Hstop.
  - destruct fuel as [|fuel]; [lia|]. cbn [MWCCStatic.req].
    unfold MWCCStatic.get. rewrite get_fresh by done.
    rewrite Nat.add_0_r in Hstop. unfold entries. cbn [seq List.map].
    rewrite Nat.add_0_r. unfold entry, continues in *.
    destruct (settle_settled (transport (length (sent w)))) as [[v Hv]|[e He]].
    + rewrite Hv in *.
      assert (truthy (prop v "continue") && (count <? limit) = false) as ->.
      { destruct Hstop as [->|Hl]; [done|].
        apply andb_false_iff. right. apply Z.ltb_ge. lia. }
      cbn [fst snd sent]. rewrite length_app. simpl. split; [done|lia].
    + rewrite He. cbn [fst snd sent]. rewrite length_app. simpl. split; [done|lia].
  - destruct fuel as [|fuel]; [lia|]. cbn [MWCCStatic.req].
    unfold MWCCStatic.get. rewrite get_fresh by done.
    assert (0 < S n)%nat as H0 by lia.
    destruct (Hcont 0%nat H0) as [Hc0 Hl0].
    rewrite Nat.add_0_r in Hc0. rewrite Z.add_0_r in Hl0.
    rewrite entries_S. unfold entry at 1. unfold continues in Hc0.
    destruct (settle (transport (length (sent w)))) as [res|e| |e]; try done.
    rewrite Hc0. assert ((count <? limit) = true) as -> by (apply Z.ltb_lt; lia).
    cbn [andb].
    set (w1 := mkWorld _ _ _ _ _).
    set (w2 := write_obj w1 params _).
    assert (length (sent w2) = S (length (sent w))) as Hsent.
    { unfold w2, w1. rewrite sent_write_obj. cbn [sent]. rewrite length_app. simpl. lia. }
    destruct (IH fuel w2 params (count + 1) (responses ++ [res])) as [Hr Hs].
    + unfold w2, w1. rewrite length_objects_write_obj. cbn [objects].
      by rewrite length_insert.
    + lia.
    + intros i Hi. rewrite Hsent.
      assert (S i < S n)%nat as Hi' by lia.
      destruct (Hcont (S i) Hi') as [Hc Hl].
      split; [by rewrite Nat.add_succ_comm | lia].
    + rewrite Hsent. rewrite <- Nat.add_succ_comm in Hstop.
      destruct Hstop as [?|?]; [by left | right; lia].
    + rewrite Hr, Hs, Hsent. split; [by rewrite <- app_assoc | lia].
Qed.

Lemma entries_snoc (transport : nat → AxiosOutcome) (first n : nat) :
  entries transport first (S n)
  = entries transport first n ++ [entry (transport (first + n)%nat)].
Proof. unfold entries. by rewrite seq_S, List.map_app. Qed.

(** [req] never rejects. *)
Lemma req_resolves (client : Client) (transport : nat → AxiosOutcome) (limit : Z) :
  ∀ (fuel : nat) (w : World) (params : loc) (count : Z) (responses : list JsVal),
    (params < length (objects w))%nat →
    (Z.to_nat (limit - count) < fuel)%nat →
    ∃ l, (MWCCStatic.req client transport fuel limit w params count responses).2
         = Resolved l.
Proof.
  induction fuel as [|fuel IH]; intros w params count responses Hp Hfuel; [lia|].
  cbn [MWCCStatic.req]. unfold MWCCStatic.get. rewrite get_fresh by done.
  destruct (settle_settled (transport (length (sent w)))) as [[v ->]|[e ->]]; [|eauto].
  destruct (truthy (prop v "continue") && (count <? limit)) eqn:E; [|eauto].
  apply andb_true_iff in E as [_ Hlt]. apply Z.ltb_lt in Hlt.
  apply IH; [|lia].
  rewrite length_objects_write_obj. cbn [objects]. by rewrite length_insert.
Qed.

(** ** Claim C2 *)

(** C2, as amended: when the responses to the first k - 1 requests carry
    [continue] and the k-th does not, [continuedQuery] makes
    max 1 (min k limit) requests and resolves with their responses in
    request order: k requests when limit >= k, limit requests when
    1 <= limit < k, and one request when limit < 1.  The promise never
    rejects: it always resolves with a sequence, and a request that fails
    ends the sequence with its error and ends the iteration. *)
Theorem continuedQuery_requests (client : Client) (transport : nat → AxiosOutcome)
    (w : World) (parameters : loc) (limit : option Z) (k : nat) :
  (parameters < length (objects w))%nat →
  let first := length (sent w) in
  let run := MWCCStatic.continuedQuery client transport w parameters limit in
  ((0 < k)%nat →
   (∀ i, (i < k - 1)%nat → continues (transport (first + i)%nat) = true) →
   continues (transport (first + (k - 1))%nat) = false →
   let n := Z.to_nat (Z.max 1 (Z.min (Z.of_nat k) (default 10 limit))) in
   run.2 = Resolved (entries transport first n)
   ∧ length (sent run.1) = (first + n)%nat)
  ∧ (∃ l, run.2 = Resolved l)
  ∧ (∀ (j : nat) (e : JsVal),
       (∀ i, (i < j)%nat → continues (transport (first + i)%nat) = true
                           ∧ 1 + Z.of_nat i < default 10 limit) →
       settle (transport (first + j)%nat) = Rejected e →
       run.2 = Resolved (entries transport first j ++ [e])
       ∧ length (sent run.1) = (first + S j)%nat).
Proof.
  intros Hp first run. subst first run. unfold MWCCStatic.continuedQuery.
  set (lim := default 10 limit). split_and!.
  - intros Hk Hcont Hlast. cbv zeta.
    set (n := Z.to_nat (Z.max 1 (Z.min (Z.of_nat k) lim))).
    assert (∃ m, n = S m) as [m Hm] by (exists (n - 1)%nat; lia).
    destruct (req_run client transport lim m (S (Z.to_nat (lim - 1))) w parameters 1 [])
      as [Hr Hs]; [done|lia| | |].
    + intros i Hi. split; [apply Hcont|]; lia.
    + destruct (decide (S m = k)) as [Heq|Hne].
      * left. assert (m = (k - 1)%nat) as -> by lia. done.
      * right. lia.
    + rewrite Hm. by rewrite Hr, Hs.
  - apply req_resolves; [done|lia].
  - intros j e Hcont Hfail.
    destruct (req_run client transport lim j (S (Z.to_nat (lim - 1))) w parameters 1 [])
      as [Hr Hs]; [done| |done| |].
    + destruct j as [|j]; [lia|].
      assert (j < S j)%nat as Hj by lia. destruct (Hcont j Hj) as [_ Hl]. lia.
    + left. unfold continues. by rewrite Hfail.
    + rewrite Hr, Hs. split; [|done]. rewrite entries_snoc.
      unfold entry at 1. by rewrite Hfail.
Qed.

Lemma continuedQuery_requests_witness :
  (0 < length (objects ex_world))%nat
  ∧ (0 < 3)%nat
  ∧ (∀ i, (i < 3 - 1)%nat →
       continues (ex_continue_transport (length (sent ex_world) + i)%nat) = true)
  ∧ continues (ex_continue_transport (length (sent ex_world) + (3 - 1))%nat) = false
  ∧ (MWCCStatic.continuedQuery ex_client ex_continue_transport ex_world 0%nat (Some 2)).2
    = Resolved (entries ex_continue_transport 0 2)
  ∧ length (sent (MWCCStatic.continuedQuery ex_client ex_continue_transport ex_world
                    0%nat (Some 2)).1) = 2%nat.
Proof.
  assert (0 < length (objects ex_world))%nat as H1 by (simpl; lia).
  assert (0 < 3)%nat as H2 by lia.
  assert (∀ i, (i < 3 - 1)%nat →
            continues (ex_continue_transport (length (sent ex_world) + i)%nat) = true) as H3.
  { intros i Hi. destruct i as [|[|i]]; [reflexivity|reflexivity|simpl in Hi; lia]. }
  assert (continues (ex_continue_transport (length (sent ex_world) + (3 - 1))%nat) = false)
    as H4 by reflexivity.
  repeat (split; [assumption|]).
  exact (proj1 (continuedQuery_requests ex_client ex_continue_transport ex_world 0%nat
                  (Some 2) 3 H1) H2 H3 H4).
Defined.

(** C2, as stated, fails for a limit below one: the first request is made
    whatever the limit is. *)
Lemma continuedQuery_limit_zero :
  continues (ex_transport (length (sent ex_world))) = false
  ∧ 0 < Z.of_nat 1
  ∧ length (sent (MWCCStatic.continuedQuery ex_client ex_transport ex_world 0%nat (Some 0)).1)
    = 1%nat
  ∧ length (sent (MWCCStatic.continuedQuery ex_client ex_transport ex_world 0%nat (Some 0)).1)
    ≠ (length (sent ex_world) + Z.to_nat 0)%nat.
Proof. split_and!; [reflexivity | lia | reflexivity | by vm_compute]. Qed.

(** ** The batch splitter: validation *)

Lemma omap_filter_ext {A B} (f g : A → option B) (P : A → Prop) `{∀ x, Decision (P x)}
    (l : list A) :
  (∀ x, P x → f x = g x) → omap f (filter P l) = omap g (filter P l).
Proof.
  intros Hfg. induction l as [|x l IH]; [done|].
  rewrite filter_cons. destruct (decide (P x)); [|done].
  change (omap f (x :: filter P l)) with
    (match f x with Some y => y :: omap f (filter P l) | None => omap f (filter P l) end).
  change (omap g (x :: filter P l)) with
    (match g x with Some y => y :: omap g (filter P l) | None => omap g (filter P l) end).
  rewrite Hfg by done. by rewrite IH.
Qed.

Lemma array_strings_set (o : obj) (key k : string) (v : JsVal) :
  key ≠ k → array_strings (obj_set o key v) k = array_strings o k.
Proof.
  intros Hne. unfold array_strings, prop. rewrite obj_get_set. by rewrite decide_False.
Qed.

Lemma array_strings_set_max (named : list string) (apilimit : Z) (o : obj) (key k : string) :
  k ∈ named → array_strings (set_max named apilimit o key) k = array_strings o k.
Proof.
  intros Hk. unfold set_max, wants_max.
  destruct (bool_decide (key ∈ named)) eqn:E; [done|].
  apply bool_decide_eq_false in E.
  destruct (negb false && _ && _); [|done].
  apply array_strings_set. congruence.
Qed.

Lemma collect_array (named : list string) (apilimit : Z) (o : obj)
    (acc : list (list string)) (na : list string) (key : string) (strs : list string) :
  key ∈ named → array_strings o key = Some strs →
  MWCCStatic.collect named apilimit (o, acc, na) key = (o, acc ++ [strs], na).
Proof.
  intros Hin Ha. unfold MWCCStatic.collect. rewrite (bool_decide_eq_true_2 _ Hin).
  unfold array_strings in Ha. destruct (prop (JObj o) key); try done. by injection Ha as <-.
Qed.

Lemma collect_nonarray (named : list string) (apilimit : Z) (o : obj)
    (acc : list (list string)) (na : list string) (key : string) :
  key ∈ named → array_strings o key = None →
  MWCCStatic.collect named apilimit (o, acc, na) key
  = (o, acc, na ++ [dquote +:+ key +:+ dquote]).
Proof.
  intros Hin Ha. unfold MWCCStatic.collect. rewrite (bool_decide_eq_true_2 _ Hin).
  unfold array_strings in Ha. by destruct (prop (JObj o) key).
Qed.

Lemma collect_unnamed (named : list string) (apilimit : Z) (o : obj)
    (acc : list (list string)) (na : list string) (key : string) :
  key ∉ named →
  MWCCStatic.collect named apilimit (o, acc, na) key
  = (set_max named apilimit o key, acc, na).
Proof.
  intros Hout. unfold MWCCStatic.collect, set_max, wants_max.
  rewrite (bool_decide_eq_false_2 _ Hout). cbn [negb andb].
  by destruct (ends_with_limit key && _).
Qed.

(** The [reduce] of [massQuery] in closed form. *)
Lemma collect_foldl (named : list string) (apilimit : Z) (ks : list string) :
  ∀ (o : obj) (acc : list (list string)) (na : list string),
    foldl (MWCCStatic.collect named apilimit) (o, acc, na) ks
    = (foldl (set_max named apilimit) o ks,
       acc ++ omap (array_strings o) (filter (λ key, key ∈ named) ks),
       na ++ ((λ key, dquote +:+ key +:+ dquote)
                <$> filter (λ key, key ∈ named ∧ array_strings o key = None) ks)).
Proof.
  induction ks as [|key ks IH]; intros o acc na.
  - simpl. by rewrite !app_nil_r.
  - cbn [foldl]. rewrite !filter_cons.
    destruct (decide (key ∈ named)) as [Hin|Hout].
    + assert (set_max named apilimit o key = o) as ->.
      { unfold set_max, wants_max. by rewrite (bool_decide_eq_true_2 _ Hin). }
      destruct (array_strings o key) as [strs|] eqn:Ea.
      * rewrite (collect_array _ _ _ _ _ _ strs) by done. rewrite IH.
        rewrite decide_False by (by intros [_ ?]).
        change (omap (array_strings o) (key :: ?l)) with
          (match array_strings o key with
           | Some y => y :: omap (array_strings o) l
           | None => omap (array_strings o) l
           end).
        rewrite Ea. by rewrite <- !app_assoc.
      * rewrite collect_nonarray by done. rewrite IH.
        rewrite decide_True by done.
        change (omap (array_strings o) (key :: ?l)) with
          (match array_strings o key with
           | Some y => y :: omap (array_strings o) l
           | None => omap (array_strings o) l
           end).
        rewrite Ea. rewrite fmap_cons. by rewrite <- !app_assoc.
    + rewrite collect_unnamed by done. rewrite IH.
      rewrite decide_False by (by intros [? _]).
      f_equal; [f_equal|].
      * f_equal. apply omap_filter_ext. intros k Hk. by apply array_strings_set_max.
      * f_equal. f_equal. apply list_filter_iff. intros k.
        split; intros [Hk Hn]; (split; [done|]).
        -- by rewrite array_strings_set_max in Hn.
        -- by rewrite array_strings_set_max.
Qed.

(** [massQuery] as a cascade of checks on the copied parameters. *)
Lemma massQuery_eq (client : Client) (transport : nat → AxiosOutcome) (fuel : nat)
    (w : World) (parameters : loc) (fields : Fields) (limit : option Z) :
  let apilimit := default MWCCStatic.apilimit limit in
  let named := named_fields fields in
  let copy := copied w parameters in
  let w1 := validated w parameters named apilimit in
  MWCCStatic.massQuery client transport fuel w parameters fields limit =
  if bool_decide (nonarray_fields named copy ≠ []) then
    Some (w1, Rejected (nonarray_exception (nonarray_fields named copy)))
  else if bool_decide (named = []) then Some (w1, Rejected emptyfield)
  else
    match field_arrays named copy with
    | [] => Some (w1, Rejected nomultivalue)
    | batchArray :: others =>
        if negb (forallb (same_array batchArray) others)
        then Some (w1, Rejected nonindentical_arrays)
        else
          match batchArray with
          | [] => Some (w1, Resolved [])
          | _ :: _ =>
              MWCCStatic.send_batches client transport fuel apilimit named
                (length (objects w)) w1 batchArray []
          end
    end.
Proof.
  intros apilimit named copy w1.
  unfold MWCCStatic.massQuery, alloc_obj.
  fold apilimit. fold (named_fields fields). fold named.
  fold (copied w parameters). fold copy.
  set (w0 := mkWorld _ _ _ _ _).
  assert (read_obj w0 (length (objects w)) = copy) as ->.
  { unfold w0, read_obj. cbn [objects]. by apply list_lookup_total_middle. }
  rewrite collect_foldl. rewrite !app_nil_l.
  fold (field_arrays named copy). fold (nonarray_fields named copy).
  assert (write_obj w0 (length (objects w)) (foldl (set_max named apilimit) copy (keys copy))
          = w1) as ->.
  { apply world_eq; try done. unfold w0, write_obj. cbn [objects]. by rewrite insert_last. }
  assert (bool_decide ((λ key, dquote +:+ key +:+ dquote) <$> nonarray_fields named copy ≠ [])
          = bool_decide (nonarray_fields named copy ≠ [])) as ->.
  { apply bool_decide_ext. by destruct (nonarray_fields named copy). }
  done.
Qed.

Lemma elem_of_keys (o : obj) (k : string) : k ∈ keys o ↔ is_Some (obj_get o k).
Proof.
  split.
  - intros Hin. destruct (obj_get o k) eqn:E; [eauto|].
    induction o as [|[k' v] r IH]; [by apply elem_of_nil in Hin|].
    simpl in E. destruct (decide (k' = k)); [done|].
    apply elem_of_cons in Hin as [->|Hin]; [done|]. by apply IH.
  - intros [v Hv]. by eapply obj_get_Some_key.
Qed.

Lemma obj_get_copied (w : World) (parameters : loc) (k : string) :
  obj_wf (read_obj w parameters) →
  obj_get (copied w parameters) k = obj_get (read_obj w parameters) k.
Proof.
  intros Hwf. unfold copied. rewrite obj_get_assign by done.
  by destruct (obj_get (read_obj w parameters) k).
Qed.

Lemma keys_copied (w : World) (parameters : loc) (k : string) :
  obj_wf (read_obj w parameters) →
  k ∈ keys (copied w parameters) ↔ k ∈ keys (read_obj w parameters).
Proof. intros Hwf. by rewrite !elem_of_keys, obj_get_copied. Qed.

Lemma array_strings_copied (w : World) (parameters : loc) (k : string) :
  obj_wf (read_obj w parameters) →
  array_strings (copied w parameters) k = array_strings (read_obj w parameters) k.
Proof. intros Hwf. unfold array_strings, prop. by rewrite obj_get_copied. Qed.

Lemma copied_wf (w : World) (parameters : loc) : obj_wf (copied w parameters).
Proof. apply obj_assign_wf. apply NoDup_nil_2. Qed.

Lemma array_strings_Some_key (o : obj) (k : string) (a : list string) :
  array_strings o k = Some a → k ∈ keys o.
Proof.
  unfold array_strings, prop. destruct (obj_get o k) eqn:E; [|done].
  intros _. by eapply obj_get_Some_key.
Qed.

Lemma same_array_eq (a0 arr : list string) : same_array a0 arr = true ↔ a0 = arr.
Proof.
  unfold same_array. rewrite andb_true_iff, bool_decide_eq_true, forallb_forall.
  split.
  - intros [Hlen Hall]. apply (list_eq_same_length _ _ (length a0)); [done..|].
    intros i x y Hi Hx Hy.
    assert (In (i, x) (imap pair a0)) as Hin.
    { apply list_elem_of_In, elem_of_lookup_imap. eauto. }
    apply Hall in Hin. apply bool_decide_eq_true in Hin. simpl in Hin. congruence.
  - intros <-. split; [done|]. intros [i x] Hin.
    apply list_elem_of_In, elem_of_lookup_imap in Hin as (j & y & [= -> ->] & Hy).
    by apply bool_decide_eq_true.
Qed.

Lemma elem_of_field_arrays (named : list string) (o : obj) (a : list string) :
  a ∈ field_arrays named o ↔ ∃ key, key ∈ named ∧ key ∈ keys o ∧ array_strings o key = Some a.
Proof.
  unfold field_arrays. rewrite list_elem_of_omap. split.
  - intros (key & Hin & Ha). apply list_elem_of_filter in Hin as [? ?]. eauto.
  - intros (key & Hn & Hk & Ha). exists key. split; [|done].
    by apply list_elem_of_filter.
Qed.

Lemma elem_of_nonarray_fields (named : list string) (o : obj) (key : string) :
  key ∈ nonarray_fields named o ↔ key ∈ named ∧ key ∈ keys o ∧ array_strings o key = None.
Proof. unfold nonarray_fields. rewrite list_elem_of_filter. tauto. Qed.

(** ** Claim C4 *)

(** C4: [massQuery] checks its arguments before it sends anything, and
    rejects, in this order: with [nonarray-exception], naming the fields,
    when a named field maps to a value that is not an array; with
    [emptyfield] when no name is left in [fields] after the falsy ones
    are dropped; with [nomultivalue] when no named field holds an array;
    with [nonindentical-arrays] when two named fields hold arrays that
    differ, in length or in an element, once their elements are text. *)
Theorem massQuery_validates (client : Client) (transport : nat → AxiosOutcome)
    (fuel : nat) (w : World) (parameters : loc) (fields : Fields) (limit : option Z) :
  obj_wf (read_obj w parameters) →
  let ps := read_obj w parameters in
  let named := named_fields fields in
  let run := MWCCStatic.massQuery client transport fuel w parameters fields limit in
  let offending := nonarray_fields named (copied w parameters) in
  let nonarray := ∃ key, key ∈ named ∧ key ∈ keys ps ∧ array_strings ps key = None in
  (nonarray →
     (∃ w', run = Some (w', Rejected (nonarray_exception offending)) ∧ sent w' = sent w)
     ∧ (∀ key, key ∈ offending ↔ key ∈ named ∧ key ∈ keys ps ∧ array_strings ps key = None))
  ∧ (named = [] →
     ∃ w', run = Some (w', Rejected emptyfield) ∧ sent w' = sent w)
  ∧ (¬ nonarray → named ≠ [] →
     (∀ key, key ∈ named → array_strings ps key = None) →
     ∃ w', run = Some (w', Rejected nomultivalue) ∧ sent w' = sent w)
  ∧ (¬ nonarray → named ≠ [] →
     (∃ k1 k2 a1 a2, k1 ∈ named ∧ k2 ∈ named
                     ∧ array_strings ps k1 = Some a1 ∧ array_strings ps k2 = Some a2
                     ∧ a1 ≠ a2) →
     ∃ w', run = Some (w', Rejected nonindentical_arrays) ∧ sent w' = sent w)
  ∧ error_code (nonarray_exception offending) = JStr "nonarray-exception"
  ∧ error_code emptyfield = JStr "emptyfield"
  ∧ error_code nomultivalue = JStr "nomultivalue"
  ∧ error_code nonindentical_arrays = JStr "nonindentical-arrays".
Proof.
  intros Hwf ps named run offending nonarray.
  assert (∀ key, key ∈ offending ↔ key ∈ named ∧ key ∈ keys ps ∧ array_strings ps key = None)
    as Hoff.
  { intros key. unfold offending. rewrite elem_of_nonarray_fields.
    by rewrite keys_copied, array_strings_copied. }
  assert (nonarray → offending ≠ []) as Hsome.
  { intros (key & Hkey) Hnil. apply Hoff in Hkey. rewrite Hnil in Hkey.
    by apply elem_of_nil in Hkey. }
  assert (¬ nonarray → offending = []) as Hnone.
  { intros Hno. destruct offending as [|key l] eqn:E; [done|]. destruct Hno.
    exists key. apply Hoff. left. }
  subst run. rewrite massQuery_eq. cbv zeta.
  fold named. fold offending.
  split_and!; try done.
  - intros Hna. split; [|done]. rewrite bool_decide_eq_true_2 by auto. eauto.
  - intros Hempty.
    assert (¬ nonarray) as Hno.
    { intros (key & Hkey & _). rewrite Hempty in Hkey. by apply elem_of_nil in Hkey. }
    rewrite bool_decide_eq_false_2 by (rewrite Hnone; auto).
    rewrite bool_decide_eq_true_2 by done. eauto.
  - intros Hno Hne Hall. rewrite bool_decide_eq_false_2 by (rewrite Hnone; auto).
    rewrite bool_decide_eq_false_2 by done.
    destruct (field_arrays named (copied w parameters)) as [|a rest] eqn:E; [eauto|].
    assert (a ∈ field_arrays named (copied w parameters)) as Ha by (rewrite E; left).
    apply elem_of_field_arrays in Ha as (key & Hn & _ & Ha).
    rewrite array_strings_copied in Ha by done. rewrite Hall in Ha by done. done.
  - intros Hno Hne (k1 & k2 & a1 & a2 & Hn1 & Hn2 & H1 & H2 & Hdiff).
    rewrite bool_decide_eq_false_2 by (rewrite Hnone; auto).
    rewrite bool_decide_eq_false_2 by done.
    assert (∀ k a, k ∈ named → array_strings ps k = Some a →
              a ∈ field_arrays named (copied w parameters)) as Hin.
    { intros k a Hk Ha. apply elem_of_field_arrays. exists k.
      rewrite keys_copied, array_strings_copied by done.
      split_and!; [done| |done]. by eapply array_strings_Some_key. }
    pose proof (Hin _ _ Hn1 H1) as Hin1. pose proof (Hin _ _ Hn2 H2) as Hin2.
    destruct (field_arrays named (copied w parameters)) as [|a rest]; [by apply elem_of_nil in Hin1|].
    assert (forallb (same_array a) rest = false) as ->; [|eauto].
    apply not_true_is_false. rewrite forallb_forall. intros Hall.
    assert (∀ b, b ∈ a :: rest → b = a) as Hsame.
    { intros b [->|Hb]%elem_of_cons; [done|].
      symmetry. apply same_array_eq, Hall. by apply list_elem_of_In. }
    apply Hdiff. by rewrite (Hsame a1), (Hsame a2).
Qed.

(** ** The batch splitter: sending *)

Lemma foldl_set_prop (w : World) (l : loc) (v : JsVal) (ks : list string) :
  (l < length (objects w))%nat →
  foldl (λ w key, set_prop w l key v) w ks
  = write_obj w l (foldl (λ o key, obj_set o key v) (read_obj w l) ks).
Proof.
  revert w. induction ks as [|k ks IH]; intros w Hl.
  - simpl. apply world_eq; try done. unfold write_obj, read_obj. cbn [objects].
    symmetry. apply list_insert_id. by apply list_lookup_lookup_total_lt.
  - cbn [foldl]. rewrite IH by (unfold set_prop; by rewrite length_objects_write_obj).
    unfold set_prop. rewrite read_write_obj by done.
    apply world_eq; try done. unfold write_obj. cbn [objects].
    by rewrite list_insert_insert_eq.
Qed.

(** One turn of the loop of [massQuery]. *)
Lemma send_batches_step (client : Client) (transport : nat → AxiosOutcome)
    (fuel : nat) (apilimit : Z) (named : list string) (parameters : loc) (w : World)
    (x : string) (batch : list string) (result : list (Result JsVal)) :
  (parameters < length (objects w))%nat →
  MWCCStatic.send_batches client transport (S fuel) apilimit named parameters w
    (x :: batch) result
  = MWCCStatic.send_batches client transport fuel apilimit named parameters
      (after_batch client w
         (batch_params (read_obj w parameters) named
            (String.concat "|" (take (Z.to_nat apilimit) (x :: batch)))))
      (drop (Z.to_nat apilimit) (x :: batch))
      (result ++ [Resolved (entry (transport (length (sent w))))]).
Proof.
  intros Hp. cbn [MWCCStatic.send_batches]. unfold alloc_obj.
  set (multiValue := String.concat "|" _).
  set (w1 := mkWorld _ _ _ _ _).
  assert (length (objects w) < length (objects w1))%nat as Hnew.
  { unfold w1. cbn [objects]. rewrite length_app. simpl. lia. }
  rewrite foldl_set_prop by done.
  assert (read_obj w1 (length (objects w)) = obj_assign [] (read_obj w parameters)) as ->.
  { unfold w1, read_obj. cbn [objects]. by apply list_lookup_total_middle. }
  fold (batch_params (read_obj w parameters) named multiValue).
  unfold MWCCStatic.post. rewrite post_fresh by (by rewrite length_objects_write_obj).
  rewrite read_write_obj by done.
  assert (length (sent (write_obj w1 (length (objects w))
                          (batch_params (read_obj w parameters) named multiValue)))
          = length (sent w)) as -> by done.
  unfold entry.
  destruct (settle_settled (transport (length (sent w)))) as [[v ->]|[e ->]];
    cbn [outcome_of]; f_equal; apply world_eq; try done;
    unfold write_obj, w1; cbn [objects];
    by rewrite list_insert_insert_eq, insert_last.
Qed.

Lemma ceil_div_0 (size : nat) : (1 ≤ size)%nat → ceil_div 0 size = 0%nat.
Proof. intros H. unfold ceil_div. apply Nat.div_small. lia. Qed.

Lemma ceil_div_step (n size : nat) :
  (1 ≤ size)%nat → (1 ≤ n)%nat → ceil_div n size = S (ceil_div (n - size) size).
Proof.
  intros Hs Hn. unfold ceil_div.
  replace (n + size - 1)%nat with ((n - 1) + 1 * size)%nat by lia.
  rewrite Nat.div_add by lia. rewrite Nat.add_1_r.
  destruct (decide (size ≤ n)%nat) as [Hle|Hgt].
  - by replace (n - size + size - 1)%nat with (n - 1)%nat by lia.
  - replace (n - size)%nat with 0%nat by lia.
    rewrite (Nat.div_small (n - 1)) by lia.
    by rewrite (Nat.div_small (0 + size - 1)) by lia.
Qed.

Lemma chunk_0 {A} (size : nat) (l : list A) : chunk size 0 l = take size l.
Proof. done. Qed.

Lemma chunk_S {A} (size i : nat) (l : list A) :
  chunk size (S i) l = chunk size i (drop size l).
Proof. unfold chunk. by rewrite drop_drop. Qed.

Lemma Promise_all_resolved {A} (vs : list A) : Promise_all (Resolved <$> vs) = Resolved vs.
Proof.
  induction vs as [|v vs IH]; [done|].
  rewrite fmap_cons. cbn [Promise_all]. by rewrite IH.
Qed.

(** The loop of [massQuery] with a batch size of at least one: a request
    for every run of the batch, and the outcomes in that order. *)
Lemma send_batches_run (client : Client) (transport : nat → AxiosOutcome)
    (apilimit : Z) (named : list string) (parameters : loc) (copy : obj) :
  1 ≤ apilimit →
  ∀ (fuel : nat) (w : World) (batch : list string) (vs : list JsVal),
    (parameters < length (objects w))%nat →
    read_obj w parameters = copy →
    (length batch ≤ fuel)%nat →
    let size := Z.to_nat apilimit in
    let n := ceil_div (length batch) size in
    ∃ w',
      MWCCStatic.send_batches client transport fuel apilimit named parameters w batch
        (Resolved <$> vs)
      = Some (w', Resolved (vs ++ entries transport (length (sent w)) n))
      ∧ sent w'
        = sent w ++ List.map (λ i, post_request BodySearchParams client
                                     (batch_params copy named
                                        (String.concat "|" (chunk size i batch)))
                                     (aborts w + i)) (seq 0 n).
Proof.
  intros Hlimit. induction fuel as [|fuel IH]; intros w batch vs Hp Hcopy Hfuel size n.
  - destruct batch; [|simpl in Hfuel; lia]. subst n. simpl length.
    rewrite ceil_div_0 by (unfold size; lia). exists w. simpl.
    by rewrite Promise_all_resolved, !app_nil_r.
  - destruct batch as [|x batch].
    + subst n. simpl length. rewrite ceil_div_0 by (unfold size; lia). exists w.
      simpl. by rewrite Promise_all_resolved, !app_nil_r.
    + rewrite send_batches_step by done. rewrite Hcopy. fold size.
      set (w1 := after_batch client w _).
      assert (Resolved <$> vs ++ [entry (transport (length (sent w)))]
              = (Resolved <$> vs) ++ [Resolved (entry (transport (length (sent w))))]) as <-
        by (by rewrite fmap_app).
      destruct (IH w1 (drop size (x :: batch)) (vs ++ [entry (transport (length (sent w)))]))
        as (w' & Hrun & Hsent).
      * unfold w1, after_batch. cbn [objects]. rewrite length_app. lia.
      * unfold w1, after_batch, read_obj. cbn [objects].
        rewrite lookup_total_app_l by done. exact Hcopy.
      * rewrite length_drop. simpl length in *. unfold size. lia.
      * exists w'. fold size in Hrun, Hsent.
        assert (n = S (ceil_div (length (drop size (x :: batch))) size)) as Hn.
        { subst n. rewrite length_drop. apply ceil_div_step; [unfold size; lia|simpl; lia]. }
        rewrite Hn, Hrun, Hsent. split.
        -- f_equal. f_equal. rewrite entries_S, <- app_assoc.
           unfold w1, after_batch. cbn [sent]. rewrite length_app. simpl.
           by rewrite Nat.add_1_r.
        -- unfold w1, after_batch. cbn [sent aborts]. rewrite <- app_assoc. f_equal.
           cbn [seq List.map app]. rewrite chunk_0, Nat.add_0_r. f_equal.
           rewrite <- seq_shift, List.map_map. apply List.map_ext. intros i.
           rewrite chunk_S. f_equal. lia.
Qed.

Lemma normalize_wf (o : obj) : obj_wf o → obj_wf (normalize_spec o).
Proof.
  unfold obj_wf. induction o as [|[k v] r IH]; [done|].
  change (keys ((k, v) :: r)) with (k :: keys r).
  intros [Hk Hr]%NoDup_cons. specialize (IH Hr).
  assert (NoDup (k :: keys (normalize_spec r))) as Hcons.
  { apply NoDup_cons. split; [|done]. intros Hin. by apply Hk, keys_normalize. }
  destruct v as [| |[|]| | | | |]; done.
Qed.

Lemma ajax_parameters_wf (ps : obj) : obj_wf ps → obj_wf (ajax_parameters ps).
Proof.
  intros Hwf. unfold ajax_parameters.
  destruct (is_string _).
  - rewrite preprocess_normalize by (by apply obj_delete_wf).
    by apply normalize_wf, obj_delete_wf.
  - rewrite preprocess_normalize by done. by apply normalize_wf.
Qed.

(** [ajax] keeps a string parameter other than [token] as it is. *)
Lemma obj_get_ajax_parameters_string (ps : obj) (k s : string) :
  obj_wf ps → k ≠ "token" → obj_get ps k = Some (JStr s) →
  obj_get (ajax_parameters ps) k = Some (JStr s).
Proof.
  intros Hwf Hk Hget. unfold ajax_parameters. destruct (is_string _).
  - rewrite preprocess_normalize by (by apply obj_delete_wf).
    rewrite obj_get_normalize by (by apply obj_delete_wf).
    rewrite obj_get_delete, decide_False by done. by rewrite Hget.
  - rewrite preprocess_normalize by done. rewrite obj_get_normalize by done.
    by rewrite Hget.
Qed.

Lemma obj_get_with_token (o : obj) (token k : string) :
  k ≠ "token" → obj_get (with_token o token) k = obj_get o k.
Proof.
  intros Hk. unfold with_token. destruct (truthy _); [|done].
  rewrite obj_get_set. by rewrite decide_False.
Qed.

(** The payload of a request carries a string parameter other than
    [token] as it is. *)
Lemma obj_get_filled_string (target client_defaults ps : obj) (k s : string) :
  obj_wf ps → k ≠ "token" → obj_get ps k = Some (JStr s) →
  obj_get (filled target client_defaults ps) k = Some (JStr s).
Proof.
  intros Hwf Hk Hget. unfold filled. rewrite obj_get_with_token by done.
  rewrite obj_get_assign by (by apply ajax_parameters_wf).
  by rewrite (obj_get_ajax_parameters_string ps k s).
Qed.

Lemma obj_get_form (o : obj) (k : string) :
  obj_get (List.map (λ kv : string * string, (kv.1, JStr kv.2)) (form_of_record o)) k
  = (λ v, JStr (to_string v)) <$> obj_get o k.
Proof.
  induction o as [|[k' v] r IH]; [done|]. simpl. by destruct (decide (k' = k)).
Qed.

Lemma payload_post_request (client : Client) (ps : obj) (controller : nat) (k s : string) :
  obj_wf ps → k ≠ "token" → obj_get ps k = Some (JStr s) →
  obj_get (payload (post_request BodySearchParams client ps controller)) k = Some (JStr s).
Proof.
  intros Hwf Hk Hget. unfold payload, post_request. cbn [method data default from_option id].
  assert (is_GET "POST" = false) as -> by done.
  rewrite obj_get_form. by rewrite (obj_get_filled_string _ _ ps k s).
Qed.

(** The same for a non-empty string under [token], which [ajax] moves
    to the end of the payload. *)
Lemma payload_post_request_token (client : Client) (ps : obj) (controller : nat)
    (k s : string) :
  obj_wf ps → k ≠ "token" ∨ s ≠ EmptyString → obj_get ps k = Some (JStr s) →
  obj_get (payload (post_request BodySearchParams client ps controller)) k = Some (JStr s).
Proof.
  intros Hwf Hk Hget. destruct (decide (k = "token")) as [->|Hne];
    [|by apply payload_post_request].
  destruct Hk as [Hk|Hs]; [done|].
  unfold payload, post_request. cbn [method data default from_option id].
  assert (is_GET "POST" = false) as -> by done.
  rewrite obj_get_form. unfold filled, with_token, ajax_token, prop. rewrite Hget.
  cbn [default from_option id]. assert (truthy (JStr s) = true) as -> by (by destruct s).
  rewrite obj_get_set. by rewrite decide_True.
Qed.

Lemma set_max_wf (named : list string) (apilimit : Z) (o : obj) (ks : list string) :
  obj_wf o → obj_wf (foldl (set_max named apilimit) o ks).
Proof.
  revert o. induction ks as [|k ks IH]; intros o Hwf; [done|].
  apply IH. unfold set_max. destruct (wants_max _ _ _); [by apply obj_set_wf|done].
Qed.

Lemma array_strings_foldl_set_max (named : list string) (apilimit : Z) (ks : list string)
    (o : obj) (k : string) :
  k ∈ named → array_strings (foldl (set_max named apilimit) o ks) k = array_strings o k.
Proof.
  intros Hk. revert o. induction ks as [|key ks IH]; intros o; [done|].
  cbn [foldl]. rewrite IH. by apply array_strings_set_max.
Qed.

Lemma filter_none {A} (P : A → Prop) `{∀ x, Decision (P x)} (l : list A) :
  (∀ x, x ∈ l → ¬ P x) → filter P l = [].
Proof.
  induction l as [|y l IH]; intros Hno; [done|].
  rewrite filter_cons. destruct (decide (P y)) as [Hy|Hy].
  - destruct (Hno y); [left|done].
  - apply IH. intros x Hx. apply Hno. by right.
Qed.

Lemma filter_singleton_NoDup (l : list string) (x : string) :
  NoDup l → x ∈ l → filter (λ k, k ∈ [x]) l = [x].
Proof.
  induction l as [|y l IH]; intros Hnd Hin; [by apply elem_of_nil in Hin|].
  apply NoDup_cons in Hnd as [Hy Hnd]. rewrite filter_cons.
  destruct (decide (y ∈ [x])) as [Hyx|Hyx].
  - apply list_elem_of_singleton in Hyx as ->. f_equal.
    apply filter_none. intros z Hz Hzx. apply list_elem_of_singleton in Hzx as ->. done.
  - apply IH; [done|]. apply elem_of_cons in Hin as [->|Hin]; [|done].
    destruct Hyx. by apply list_elem_of_singleton.
Qed.

(** The runs of a list, one after the other, are the list. *)
Lemma concat_chunks {A} (size : nat) (l : list A) :
  (1 ≤ size)%nat →
  concat (List.map (λ i, chunk size i l) (seq 0 (ceil_div (length l) size))) = l.
Proof.
  intros Hsize. remember (length l) as n eqn:Hn. revert l Hn.
  induction n as [n IH] using lt_wf_ind. intros l Hn.
  destruct l as [|x l].
  - subst n. simpl length. by rewrite ceil_div_0.
  - rewrite ceil_div_step by (subst n; simpl; lia).
    cbn [seq List.map concat]. rewrite chunk_0.
    rewrite <- seq_shift, List.map_map.
    rewrite (List.map_ext _ (λ i, chunk size i (drop size (x :: l))))
      by (intros i; apply chunk_S).
    assert (n - size = length (drop size (x :: l)))%nat as Hlen
      by (rewrite length_drop; lia).
    rewrite Hlen. rewrite (IH (length (drop size (x :: l)))); [|rewrite <- Hlen; subst n; simpl; lia|done].
    apply take_drop.
Qed.

(** ** Claim C3 *)

(** C3: for a call of [massQuery] that names one field [f], holding an
    array of N elements, with a ceiling C of at least one: ceil(N/C)
    requests are sent, all POST; the i-th carries under [f] the i-th run
    of at most C elements, as text and joined with a bar (when [f] is
    [token], which [ajax] sends only if it is not empty, a run that does
    not join to the empty text), and the runs one after the other are the
    array; the call resolves with the outcome of every request in order,
    the response of one that resolved and the error of one that rejected;
    for an empty array it resolves with no outcome and sends nothing. *)
Theorem massQuery_batches (client : Client) (transport : nat → AxiosOutcome)
    (fuel : nat) (w : World) (parameters : loc) (fields : Fields) (f : string)
    (limit : option Z) (elems : list JsVal) :
  obj_wf (read_obj w parameters) →
  named_fields fields = [f] →
  obj_get (read_obj w parameters) f = Some (JArr elems) →
  1 ≤ default MWCCStatic.apilimit limit →
  (length elems ≤ fuel)%nat →
  let size := Z.to_nat (default MWCCStatic.apilimit limit) in
  let strs := List.map to_string elems in
  let n := ceil_div (length elems) size in
  ∃ w',
    MWCCStatic.massQuery client transport fuel w parameters fields limit
    = Some (w', Resolved (entries transport (length (sent w)) n))
    ∧ length (sent w') = (length (sent w) + n)%nat
    ∧ (∀ i, (i < n)%nat →
         ∃ request,
           sent w' !! (length (sent w) + i)%nat = Some request
           ∧ method request = Some "POST"
           ∧ (f ≠ "token" ∨ String.concat "|" (chunk size i strs) ≠ EmptyString →
              obj_get (payload request) f
              = Some (JStr (String.concat "|" (chunk size i strs))))
           ∧ (length (chunk size i strs) ≤ size)%nat)
    ∧ concat (List.map (λ i, chunk size i strs) (seq 0 n)) = strs
    ∧ (elems = [] → sent w' = sent w).
Proof.
  intros Hwf Hnamed Hget Hlimit Hfuel size strs n.
  rewrite massQuery_eq. cbv zeta. rewrite Hnamed.
  set (apilimit := default MWCCStatic.apilimit limit) in *.
  set (copy := copied w parameters).
  assert (array_strings copy f = Some strs) as Harr.
  { unfold copy. rewrite array_strings_copied by done.
    unfold array_strings, prop. by rewrite Hget. }
  assert (nonarray_fields [f] copy = []) as ->.
  { apply filter_none. intros k _ [Hk Hnone].
    apply list_elem_of_singleton in Hk as ->. congruence. }
  rewrite bool_decide_eq_false_2 by auto.
  rewrite bool_decide_eq_false_2 by done.
  assert (field_arrays [f] copy = [strs]) as ->.
  { unfold field_arrays. rewrite filter_singleton_NoDup.
    - change (omap (array_strings copy) [f]) with
        (match array_strings copy f with Some y => [y] | None => [] end).
      by rewrite Harr.
    - apply copied_wf.
    - by eapply array_strings_Some_key. }
  cbn [forallb negb].
  assert (length strs = length elems) as Hlen by (unfold strs; by rewrite length_map).
  assert (concat (List.map (λ i, chunk size i strs) (seq 0 n)) = strs) as Hconcat.
  { subst n. rewrite <- Hlen. apply concat_chunks. unfold size. lia. }
  set (w1 := validated w parameters [f] apilimit).
  set (cm := copied_max w parameters [f] apilimit).
  assert (read_obj w1 (length (objects w)) = cm) as Hread.
  { unfold w1, validated, read_obj. cbn [objects]. by apply list_lookup_total_middle. }
  assert (obj_wf cm) as Hcm by apply set_max_wf, copied_wf.
  destruct (send_batches_run client transport apilimit [f] (length (objects w)) cm Hlimit
              fuel w1 strs []) as (w' & Hrun & Hsent);
    [unfold w1, validated; cbn [objects]; rewrite length_app; simpl; lia|done|lia|].
  change (Resolved <$> []) with (@nil (Result JsVal)) in Hrun.
  fold size in Hrun, Hsent. rewrite Hlen in Hrun, Hsent. fold n in Hrun, Hsent.
  change (sent w1) with (sent w) in *. change (aborts w1) with (aborts w) in *.
  rewrite app_nil_l in Hrun.
  assert (∃ w'', match strs with
                 | [] => Some (w1, Resolved [])
                 | _ :: _ => MWCCStatic.send_batches client transport fuel apilimit [f]
                               (length (objects w)) w1 strs []
                 end = Some (w'', Resolved (entries transport (length (sent w)) n))
                 ∧ sent w'' = sent w') as (w'' & -> & Hsame).
  { destruct strs as [|s strs'] eqn:Estrs.
    - assert (n = 0%nat) as Hn0.
      { subst n. rewrite <- Hlen. simpl. apply ceil_div_0. unfold size. lia. }
      exists w1. rewrite Hsent, Hn0. simpl. by rewrite app_nil_r.
    - exists w'. by rewrite Hrun. }
  exists w''. rewrite Hsame, Hsent. split_and!.
  - done.
  - by rewrite length_app, length_map, length_seq.
  - intros i Hi. eexists. split_and!.
    + rewrite lookup_app_r by lia.
      replace (length (sent w) + i - length (sent w))%nat with i by lia.
      apply list_lookup_fmap_Some. exists i. split; [done|].
      apply lookup_seq. split; [done|lia].
    + done.
    + intros Hcarried. apply payload_post_request_token; [|done|].
      * unfold batch_params. simpl. by apply obj_set_wf, obj_assign_wf, NoDup_nil_2.
      * unfold batch_params. simpl. rewrite obj_get_set. by rewrite decide_True.
    + unfold chunk. rewrite length_take. lia.
  - done.
  - intros ->. subst n. simpl length. rewrite ceil_div_0 by (unfold size; lia).
    simpl. by rewrite app_nil_r.
Qed.

(** With a ceiling below one the loop of [massQuery] removes nothing from
    the batch and does not end. *)
Lemma send_batches_never_ends (client : Client) (transport : nat → AxiosOutcome)
    (apilimit : Z) (named : list string) (parameters : loc) :
  apilimit ≤ 0 →
  ∀ (fuel : nat) (w : World) (x : string) (batch : list string) (result : list (Result JsVal)),
    (parameters < length (objects w))%nat →
    MWCCStatic.send_batches client transport fuel apilimit named parameters w
      (x :: batch) result = None.
Proof.
  intros Hlimit. induction fuel as [|fuel IH]; intros w x batch result Hp; [done|].
  rewrite send_batches_step by done.
  replace (Z.to_nat apilimit) with 0%nat by lia. rewrite drop_0. apply IH.
  unfold after_batch. cbn [objects]. rewrite length_app. lia.
Qed.

(** ** Claim C10 *)

(** The loop of [massQuery] writes to the objects it creates only. *)
Lemma send_batches_frame (client : Client) (transport : nat → AxiosOutcome)
    (apilimit : Z) (named : list string) (parameters : loc) (obase cbase : nat) :
  ∀ (fuel : nat) (w : World) (batch : list string) (result : list (Result JsVal))
    (w' : World) (r : Result (list JsVal)),
    MWCCStatic.send_batches client transport fuel apilimit named parameters w batch result
    = Some (w', r) →
    (parameters < length (objects w))%nat →
    (obase ≤ length (objects w))%nat →
    (cbase ≤ length (configs w))%nat →
    take obase (objects w') = take obase (objects w)
    ∧ take cbase (configs w') = take cbase (configs w)
    ∧ tokens w' = tokens w.
Proof.
  induction fuel as [|fuel IH]; intros w batch result w' r Hrun Hp Ho Hc.
  - destruct batch; [|done]. by injection Hrun as <- _.
  - destruct batch as [|x batch]; [by injection Hrun as <- _|].
    rewrite send_batches_step in Hrun by done.
    apply IH in Hrun as (Hobj & Hcfg & Htok).
    + rewrite Hobj, Hcfg, Htok. unfold after_batch. cbn [objects configs tokens].
      by rewrite !take_app_le.
    + unfold after_batch. cbn [objects]. rewrite length_app. lia.
    + unfold after_batch. cbn [objects]. rewrite length_app. lia.
    + unfold after_batch. cbn [configs]. rewrite length_app. lia.
Qed.

(** C10: [massQuery] leaves every object that exists when it is called as
    it is, the parameter object of the caller, with the arrays it holds,
    among them: the [limit] parameters are set to [max] in a copy, which
    is the first object it creates, and every request has a parameter
    object of its own.  [post] (and so [ajax] and [get]) normalises the
    object of the caller in place. *)
Theorem massQuery_leaves_parameters (client : Client) (transport : nat → AxiosOutcome)
    (fuel : nat) (w : World) (parameters : loc) (fields : Fields) (limit : option Z)
    (w' : World) (r : Result (list JsVal)) :
  (parameters < length (objects w))%nat →
  MWCCStatic.massQuery client transport fuel w parameters fields limit = Some (w', r) →
  read_obj w' parameters = read_obj w parameters
  ∧ take (length (objects w)) (objects w') = objects w
  ∧ take (length (configs w)) (configs w') = configs w
  ∧ objects w' !! length (objects w)
    = Some (copied_max w parameters (named_fields fields)
              (default MWCCStatic.apilimit limit))
  ∧ read_obj (MWCCStatic.post ex_client ex_transport ex_world 0%nat None).1 0%nat
    ≠ read_obj ex_world 0%nat.
Proof.
  intros Hp Hrun. rewrite massQuery_eq in Hrun. cbv zeta in Hrun.
  set (named := named_fields fields) in *.
  set (apilimit := default MWCCStatic.apilimit limit) in *.
  set (w1 := validated w parameters named apilimit) in *.
  assert (take (S (length (objects w))) (objects w') = take (S (length (objects w))) (objects w1)
          ∧ take (length (configs w)) (configs w') = configs w) as [Hobj Hcfg].
  { assert (take (S (length (objects w))) (objects w1)
            = take (S (length (objects w))) (objects w1)
            ∧ take (length (configs w)) (configs w1) = configs w) as Hw1.
    { split; [done|]. unfold w1, validated. cbn [configs]. apply firstn_all. }
    destruct (bool_decide (nonarray_fields named (copied w parameters) ≠ []));
      [by injection Hrun as <- _|].
    destruct (bool_decide (named = [])); [by injection Hrun as <- _|].
    destruct (field_arrays named (copied w parameters)) as [|batchArray others];
      [by injection Hrun as <- _|].
    destruct (negb (forallb (same_array batchArray) others)); [by injection Hrun as <- _|].
    destruct batchArray as [|x batch]; [by injection Hrun as <- _|].
    apply (send_batches_frame _ _ _ _ _ (S (length (objects w))) (length (configs w)))
      in Hrun as (Hobj & Hcfg & _).
    - split; [done|]. rewrite Hcfg. unfold w1, validated. cbn [configs]. apply firstn_all.
    - unfold w1, validated. cbn [objects]. rewrite length_app. simpl. lia.
    - unfold w1, validated. cbn [objects]. rewrite length_app. simpl. lia.
    - done. }
  assert (take (S (length (objects w))) (objects w1)
          = objects w ++ [copied_max w parameters named apilimit]) as Hw1.
  { unfold w1, validated. cbn [objects]. apply take_ge. rewrite length_app. simpl. lia. }
  rewrite Hw1 in Hobj.
  assert (take (length (objects w)) (objects w') = objects w) as Hold.
  { assert (take (length (objects w)) (take (S (length (objects w))) (objects w'))
            = take (length (objects w)) (objects w')) as <-.
    { rewrite take_take. f_equal. lia. }
    rewrite Hobj. by rewrite take_app_length. }
  split_and!.
  - unfold read_obj. rewrite <- Hold at 1. by rewrite lookup_total_take_lt.
  - done.
  - done.
  - rewrite <- (lookup_take_lt (objects w') (S (length (objects w)))) by lia.
    rewrite Hobj. by apply list_lookup_middle.
  - by vm_compute.
Qed.

(** ** Claim C1 *)

(** The retry of [postWithToken] in the two classes, side by side: when
    the first POST is rejected with [badtoken] and a new token is
    fetched, [MWCCStatic] settles the promise with the outcome of the
    second POST, and [MWCC] leaves it pending when that POST resolves. *)
Lemma postWithToken_retry (client : Client) (transport : nat → AxiosOutcome)
    (w : World) (tokenType : string) (params : loc) (options : option loc)
    (wo : World) (o : loc) (wa : World) (a : loc) (token err : JsVal) :
  Base.or_fresh w options = (wo, o) →
  alloc_obj wo [("assert", prop (JObj (read_obj wo params)) "assert");
                ("assertuser", prop (JObj (read_obj wo params)) "assertuser")] = (wa, a) →
  is_str (error_code err) "badtoken" = true →
  (∀ w1 w2 w4 w5 t r5,
     MWCCStatic.getToken client transport wa tokenType (ExtraObject a) = (w1, Resolved token) →
     MWCCStatic.post client transport (set_prop w1 params "token" token) params (Some o)
     = (w2, Rejected err) →
     MWCCStatic.getToken client transport
       (set_prop (Base.badToken w2 tokenType) params "token" JUndef) tokenType (ExtraObject a)
     = (w4, Resolved t) →
     MWCCStatic.post client transport (set_prop w4 params "token" t) params (Some o)
     = (w5, r5) →
     MWCCStatic.postWithToken client transport w tokenType params options = (w5, caught r5))
  ∧ (∀ w1 w2 w4 w5 t r5,
     MWCC.getToken client transport wa tokenType (ExtraObject a) = (w1, Resolved token) →
     MWCC.post client transport (set_prop w1 params "token" token) params (Some o)
     = (w2, Rejected err) →
     MWCC.getToken client transport
       (set_prop (Base.badToken w2 tokenType) params "token" JUndef) tokenType (ExtraObject a)
     = (w4, Resolved t) →
     MWCC.post client transport (set_prop w4 params "token" t) params (Some o)
     = (w5, r5) →
     MWCC.postWithToken client transport w tokenType params options
     = (w5, match r5 with Resolved _ => Pending | _ => caught r5 end)).
Proof.
  intros Ho Ha Hbad. split; intros w1 w2 w4 w5 t r5 H1 H2 H3 H4.
  - unfold MWCCStatic.postWithToken. rewrite Ho, Ha, H1, H2, Hbad.
    unfold MWCCStatic.badToken. rewrite H3, H4. by destruct r5.
  - unfold MWCC.postWithToken. rewrite Ho, Ha, H1, H2, Hbad.
    unfold MWCC.badToken. rewrite H3, H4. by destruct r5.
Qed.

(** [postWithToken] of [MWCC] never resolves once the first POST has been
    rejected with [badtoken]. *)
Lemma MWCC_postWithToken_retry_never_resolves (client : Client)
    (transport : nat → AxiosOutcome) (w : World) (tokenType : string) (params : loc)
    (options : option loc) (wo : World) (o : loc) (wa : World) (a : loc)
    (w1 w2 : World) (token err v : JsVal) :
  Base.or_fresh w options = (wo, o) →
  alloc_obj wo [("assert", prop (JObj (read_obj wo params)) "assert");
                ("assertuser", prop (JObj (read_obj wo params)) "assertuser")] = (wa, a) →
  MWCC.getToken client transport wa tokenType (ExtraObject a) = (w1, Resolved token) →
  MWCC.post client transport (set_prop w1 params "token" token) params (Some o)
  = (w2, Rejected err) →
  is_str (error_code err) "badtoken" = true →
  (MWCC.postWithToken client transport w tokenType params options).2 ≠ Resolved v.
Proof.
  intros Ho Ha H1 H2 Hbad. unfold MWCC.postWithToken. rewrite Ho, Ha, H1, H2, Hbad.
  destruct (MWCC.getToken client transport (set_prop _ _ _ _) _ _) as [w4 [t|e| |e]];
    try done.
  destruct (MWCC.post client transport (set_prop w4 _ _ _) _ _) as [w5 [v5|e| |e]]; done.
Qed.

(** C1 at the failing input, an edit whose token has expired.  [MWCC]
    fetches a token, posts, is told [badtoken], fetches a second token,
    and then fails to build the body of the second POST from the options
    that hold the text of the first body: no second POST is sent,
    although the transport would accept it, and the promise is rejected
    with the exception.  [MWCCStatic] sends the second POST and resolves
    with its response. *)
Theorem MWCC_postWithToken_retry_lost :
  let run := MWCC.postWithToken ex_client ex_badtoken_transport ex_edit_world "csrf" 0%nat None in
  let run' := MWCCStatic.postWithToken ex_client ex_badtoken_transport ex_edit_world
                "csrf" 0%nat None in
  run.2 = Rejected TypeError
  ∧ List.map method (sent run.1) = [Some "GET"; Some "POST"; Some "GET"]
  ∧ settle (ex_badtoken_transport 3) = Resolved ex_edit_done
  ∧ run'.2 = Resolved ex_edit_done
  ∧ List.map method (sent run'.1) = [Some "GET"; Some "POST"; Some "GET"; Some "POST"].
Proof. by vm_compute. Qed.

(** ** The theorems at the example inputs *)

Lemma massQuery_batches_witness :
  obj_wf (read_obj ex_world 0%nat)
  ∧ named_fields (OneField "titles") = ["titles"]
  ∧ obj_get (read_obj ex_world 0%nat) "titles" = Some (JArr [JStr "A"; JStr "B"; JStr "C"])
  ∧ 1 ≤ default MWCCStatic.apilimit (Some 2)
  ∧ (length [JStr "A"; JStr "B"; JStr "C"] ≤ 3)%nat
  ∧ ∃ w',
      MWCCStatic.massQuery ex_client ex_transport 3 ex_world 0%nat (OneField "titles") (Some 2)
      = Some (w', Resolved (entries ex_transport 0 2))
      ∧ length (sent w') = 2%nat.
Proof.
  assert (obj_wf (read_obj ex_world 0%nat)) as H1 by by_evaluation.
  assert (named_fields (OneField "titles") = ["titles"]) as H2 by reflexivity.
  assert (obj_get (read_obj ex_world 0%nat) "titles"
          = Some (JArr [JStr "A"; JStr "B"; JStr "C"])) as H4 by reflexivity.
  assert (1 ≤ default MWCCStatic.apilimit (Some 2)) as H5 by (simpl; lia).
  assert (length [JStr "A"; JStr "B"; JStr "C"] ≤ 3)%nat as H6 by (simpl; lia).
  repeat (split; [assumption|]).
  destruct (massQuery_batches ex_client ex_transport 3 ex_world 0%nat (OneField "titles")
              "titles" (Some 2) _ H1 H2 H4 H5 H6) as (w' & Hrun & Hlen & _).
  exists w'. split; [exact Hrun | exact Hlen].
Defined.

Lemma massQuery_validates_witness :
  obj_wf (read_obj ex_world 0%nat)
  ∧ (∃ key, key ∈ named_fields (ManyFields ["titles"; "rvlimit"])
            ∧ key ∈ keys (read_obj ex_world 0%nat)
            ∧ array_strings (read_obj ex_world 0%nat) key = None)
  ∧ ∃ w',
      MWCCStatic.massQuery ex_client ex_transport 3 ex_world 0%nat
        (ManyFields ["titles"; "rvlimit"]) None
      = Some (w', Rejected (nonarray_exception
                              (nonarray_fields (named_fields (ManyFields ["titles"; "rvlimit"]))
                                 (copied ex_world 0%nat))))
      ∧ sent w' = sent ex_world.
Proof.
  assert (obj_wf (read_obj ex_world 0%nat)) as H1 by by_evaluation.
  assert (∃ key, key ∈ named_fields (ManyFields ["titles"; "rvlimit"])
                 ∧ key ∈ keys (read_obj ex_world 0%nat)
                 ∧ array_strings (read_obj ex_world 0%nat) key = None) as H2.
  { exists "rvlimit". split_and!; [compute_done | compute_done | reflexivity]. }
  split; [exact H1|]. split; [exact H2|].
  exact (proj1 (proj1 (massQuery_validates ex_client ex_transport 3 ex_world 0%nat
                         (ManyFields ["titles"; "rvlimit"]) None H1) H2)).
Defined.

Lemma massQuery_leaves_parameters_witness :
  (0 < length (objects ex_world))%nat
  ∧ ∃ w' r,
      MWCCStatic.massQuery ex_client ex_transport 3 ex_world 0%nat (OneField "titles") (Some 2)
      = Some (w', r)
      ∧ read_obj w' 0%nat = read_obj ex_world 0%nat.
Proof.
  assert (0 < length (objects ex_world))%nat as H1 by (simpl; lia).
  assert (∃ w' r,
            MWCCStatic.massQuery ex_client ex_transport 3 ex_world 0%nat
              (OneField "titles") (Some 2) = Some (w', r)) as (w' & r & H2).
  { eexists. eexists. vm_compute. reflexivity. }
  split; [exact H1|]. exists w', r. split; [exact H2|].
  exact (proj1 (massQuery_leaves_parameters ex_client ex_transport 3 ex_world 0%nat
                  (OneField "titles") (Some 2) w' r H1 H2)).
Defined.

(** In [MWCCStatic] the second POST is sent, but its body is built from
    the [URLSearchParams] instance that the options hold since the first
    POST: it repeats the first body, with the token that was refused,
    while the cache holds the new token. *)
Lemma MWCCStatic_retry_repeats_body :
  let run := MWCCStatic.postWithToken ex_client ex_badtoken_transport ex_edit_world
               "csrf" 0%nat None in
  List.map (λ request, obj_get (payload request) "token") (sent run.1)
  = [None; Some (JStr "first+\"); None; Some (JStr "first+\")]
  ∧ cached run.1 "csrf" = Some (JStr "second+\").
Proof. by vm_compute. Qed.
(** * Further properties of the methods *)

(** ** The outcome of a request *)

Lemma request_cases (client : Client) (transport : nat → AxiosOutcome)
    (w : World) (options : loc) :
  (Base.request client transport w options).2 = settle (transport (length (sent w)))
  ∧ (∃ request, sent (Base.request client transport w options).1 = sent w ++ [request])
  ∧ aborts (Base.request client transport w options).1 = S (aborts w)
  ∧ tokens (Base.request client transport w options).1 = tokens w.
Proof. unfold Base.request. cbn [fst snd sent aborts tokens]. eauto. Qed.

Ltac sends_request :=
  match goal with
  | |- context [Base.request ?c ?t ?w ?o] =>
      let H1 := fresh in let H2 := fresh in let H3 := fresh in let H4 := fresh in
      let req := fresh "req" in
      pose proof (request_cases c t w o) as (H1 & [req H2] & H3 & H4);
      rewrite H1, H2, H3, H4; autorewrite with store;
      split_and!; [done | by eexists | done | done]
  end.

(** The two ways [ajax] ends: it throws before anything is sent, or it
    sends one request, registers one controller and returns the promise
    that the outcome of the request settles. *)
Lemma ajax_cases (encode : form → Body) (client : Client) (transport : nat → AxiosOutcome)
    (w : World) (parameters options : loc) :
  let w' := (Base.ajax encode client transport w parameters options).1 in
  let r := (Base.ajax encode client transport w parameters options).2 in
  (r = Thrown TypeError ∧ sent w' = sent w ∧ aborts w' = aborts w ∧ tokens w' = tokens w)
  ∨ (r = settle (transport (length (sent w))) ∧ (∃ request, sent w' = sent w ++ [request])
     ∧ aborts w' = S (aborts w) ∧ tokens w' = tokens w).
Proof.
  unfold Base.ajax. cbv zeta.
  set (w1 := Base.preprocessParameters _ _).
  assert (sent w1 = sent w ∧ aborts w1 = aborts w ∧ tokens w1 = tokens w) as (Hs & Ha & Ht).
  { unfold w1, Base.preprocessParameters.
    by destruct (is_string (prop (JObj (read_obj w parameters)) "token")). }
  clearbody w1. set (m := str_or _ _). clearbody m.
  set (token := match prop _ _ with JStr t => t | _ => EmptyString end). clearbody token.
  rewrite <- Hs, <- Ha, <- Ht.
  destruct (is_GET m); [right; sends_request|].
  destruct (data _) as [|o|[|e f]|f]; cbn [fst snd];
    first [ right; sends_request | left; by autorewrite with store ].
Qed.

Ltac listed := apply list_elem_of_In; simpl; auto 10.

Lemma settle_rejected (out : AxiosOutcome) (e : JsVal) :
  settle out = Rejected e →
  truthy (prop e "error") = true
  ∧ ((∃ code, code ∈ ajax_codes ∧ error_code e = JStr code)
     ∨ (∃ response, out = AxResponse response ∧ e = prop response "data")).
Proof.
  unfold settle. destruct out as [response|error].
  - destruct (nullish response || negb (truthy (prop response "data"))).
    { intros [= <-]. split; [done|]. left. exists "ok-but-empty". split; [|done].
      listed. }
    destruct (negb (is_object (prop response "data"))).
    { intros [= <-]. split; [done|]. left. exists "invalidjson". split; [|done].
      listed. }
    destruct (truthy (prop (prop response "data") "error")) eqn:E; [|done].
    intros [= <-]. split; [done|]. right. eauto.
  - destruct (truthy error && is_str (prop error "code") "ERR_CANCELED").
    + intros [= <-]. split; [done|]. left. exists "aborted". split; [|done].
      listed.
    + intros [= <-]. split; [done|]. left. exists "http". split; [|done].
      listed.
Qed.

Lemma settle_resolved (out : AxiosOutcome) (v : JsVal) :
  settle out = Resolved v →
  is_object v = true ∧ truthy v = true ∧ truthy (prop v "error") = false
  ∧ ∃ response, out = AxResponse response ∧ v = prop response "data".
Proof.
  unfold settle. destruct out as [response|error].
  - destruct (nullish response) eqn:En; [done|]. cbn [orb].
    destruct (truthy (prop response "data")) eqn:Et; [|done]. cbn [negb].
    destruct (is_object (prop response "data")) eqn:Eo; [|done]. cbn [negb].
    destruct (truthy (prop (prop response "data") "error")) eqn:Ee; [done|].
    intros [= <-]. eauto 10.
  - by destruct (truthy error && is_str (prop error "code") "ERR_CANCELED").
Qed.

(** X1: a promise that [ajax] returns is settled; when it is rejected, the
    error has a truthy [error] property, and it is either an error that
    [ajax] made, with one of four codes, or the body of the response as
    the server sent it; when it is resolved, the value is the body of the
    response, a non-null object without a truthy [error]; and when
    [ajax] throws instead, nothing has been sent. *)
Theorem ajax_outcome (encode : form → Body) (client : Client)
    (transport : nat → AxiosOutcome) (w : World) (parameters options : loc) :
  let w' := (Base.ajax encode client transport w parameters options).1 in
  let r := (Base.ajax encode client transport w parameters options).2 in
  r ≠ Pending
  ∧ (∀ e, r = Rejected e →
       truthy (prop e "error") = true
       ∧ ((∃ code, code ∈ ajax_codes ∧ error_code e = JStr code)
          ∨ (∃ response, transport (length (sent w)) = AxResponse response
                         ∧ e = prop response "data")))
  ∧ (∀ v, r = Resolved v →
       is_object v = true ∧ truthy v = true ∧ truthy (prop v "error") = false
       ∧ ∃ response, transport (length (sent w)) = AxResponse response
                     ∧ v = prop response "data")
  ∧ (∀ e, r = Thrown e → sent w' = sent w).
Proof.
  intros w' r. subst w' r.
  destruct (ajax_cases encode client transport w parameters options)
    as [(-> & Hs & _)|(-> & _)].
  - done.
  - split_and!.
    + by destruct (settle_settled (transport (length (sent w)))) as [[v ->]|[e ->]].
    + intros e. apply settle_rejected.
    + intros v. apply settle_resolved.
    + by destruct (settle_settled (transport (length (sent w)))) as [[v ->]|[e ->]].
Qed.

(** ** The payload by precedence *)

Lemma obj_get_normalize_bind (ps : obj) (k : string) :
  obj_wf ps → obj_get (normalize_spec ps) k = obj_get ps k ≫= normalized.
Proof.
  intros Hwf. rewrite obj_get_normalize by done.
  destruct (obj_get ps k) as [[| |[|]| | | | |]|]; done.
Qed.

Lemma obj_get_ajax_parameters (ps : obj) (k : string) :
  obj_wf ps →
  obj_get (ajax_parameters ps) k =
  if bool_decide (k = "token") && is_string (prop (JObj ps) "token") then None
  else obj_get ps k ≫= normalized.
Proof.
  intros Hwf. unfold ajax_parameters. destruct (is_string _) eqn:Es.
  - rewrite preprocess_normalize by (by apply obj_delete_wf).
    rewrite obj_get_normalize_bind by (by apply obj_delete_wf).
    rewrite obj_get_delete. rewrite andb_true_r.
    destruct (decide ("token" = k)) as [<-|Hne].
    + by rewrite bool_decide_eq_true_2.
    + by rewrite bool_decide_eq_false_2.
  - rewrite andb_false_r. rewrite preprocess_normalize by done.
    by apply obj_get_normalize_bind.
Qed.

(** The object that [ajax] fills, read key by key. *)
Lemma obj_get_filled (own cd ps : obj) (k : string) :
  obj_wf ps → obj_wf cd → obj_get (filled own cd ps) k = supplied own cd ps k.
Proof.
  intros Hps Hcd. unfold filled, with_token, supplied.
  assert (obj_wf defaults) as Hd by by_evaluation.
  assert (obj_get (obj_assign (obj_assign (obj_assign own cd) defaults) (ajax_parameters ps)) k
          = first_some (obj_get (ajax_parameters ps) k)
              (first_some (obj_get defaults k) (first_some (obj_get cd k) (obj_get own k))))
    as Hchain.
  { rewrite obj_get_assign by (by apply ajax_parameters_wf).
    rewrite obj_get_assign by done. rewrite obj_get_assign by done.
    unfold first_some.
    destruct (obj_get (ajax_parameters ps) k); [done|].
    destruct (obj_get defaults k); [done|]. by destruct (obj_get cd k). }
  rewrite obj_get_ajax_parameters in Hchain by done.
  unfold ajax_token, parameter, prop in *.
  destruct (decide (k = "token")) as [->|Hne].
  - rewrite bool_decide_eq_true_2 in Hchain by done. cbn [andb] in Hchain.
    destruct (obj_get ps "token") as [[| |b|n|n|s|a|o]|] eqn:Et;
      cbn [default from_option id is_string truthy] in *;
      try (rewrite Hchain; rewrite ?bool_decide_eq_true_2 by done; done).
    destruct s as [|c s]; cbn [truthy].
    + rewrite Hchain. by rewrite bool_decide_eq_true_2.
    + rewrite obj_get_set. by rewrite decide_True.
  - rewrite bool_decide_eq_false_2 in Hchain by done. cbn [andb] in Hchain.
    assert (obj_get (if truthy (JStr match default JUndef (obj_get ps "token") with
                                     | JStr t => t
                                     | _ => EmptyString
                                     end)
                     then obj_set (obj_assign (obj_assign (obj_assign own cd) defaults)
                                     (ajax_parameters ps)) "token"
                            (JStr match default JUndef (obj_get ps "token") with
                                  | JStr t => t
                                  | _ => EmptyString
                                  end)
                     else obj_assign (obj_assign (obj_assign own cd) defaults)
                            (ajax_parameters ps)) k
            = obj_get (obj_assign (obj_assign (obj_assign own cd) defaults)
                         (ajax_parameters ps)) k) as ->.
    { destruct (truthy _); [|done]. rewrite obj_get_set. by rewrite decide_False. }
    rewrite Hchain. f_equal.
    destruct (obj_get ps k) as [[| |b|n|n|s|a|o]|]; try done.
    destruct s; [|done]. by rewrite bool_decide_eq_false_2.
Qed.

(** The request that [ajax] sends when [options.data] is absent or a
    plain object, and what its payload holds under a key. *)
Lemma ajax_plain (encode : form → Body) (client : Client) (transport : nat → AxiosOutcome)
    (w : World) (parameters options : loc) (k : string) :
  (parameters < length (objects w))%nat →
  (options < length (configs w))%nat →
  obj_wf (read_obj w parameters) →
  obj_wf (defaults_params client) → obj_wf (defaults_data client) →
  encode = BodyString ∨ encode = BodySearchParams →
  plain_data (read_options w options) →
  let o := read_options w options in
  ∃ request,
    ajax_request encode client o (read_obj w parameters) (aborts w) = Some request
    ∧ obj_get (payload request) k
      = transmitted client o
        <$> supplied (own_payload client o) (client_defaults client o)
              (read_obj w parameters) k.
Proof.
  intros Hp Ho Hps Hdp Hdd Henc Hplain o. subst o.
  unfold ajax_request, own_payload, client_defaults, transmitted, plain_data in *.
  set (o := read_options w options) in *.
  destruct (is_GET (method_of client o)) eqn:Eg.
  - eexists. split; [done|]. unfold payload. cbn [method params default from_option id].
    rewrite Eg. rewrite obj_get_filled by done.
    by destruct (supplied _ _ _ _).
  - destruct (data o) as [|d| |] eqn:Ed; try done.
    + eexists. split; [done|]. unfold payload. cbn [method data default from_option id].
      rewrite Eg. destruct Henc as [-> | ->]; rewrite obj_get_form;
        by rewrite obj_get_filled by done.
    + eexists. split; [done|]. unfold payload. cbn [method data default from_option id].
      rewrite Eg. destruct Henc as [-> | ->]; rewrite obj_get_form;
        by rewrite obj_get_filled by done.
Qed.

(** X2: the payload of the request that [ajax] sends holds, under every
    key, the entry that comes first in this order: the parameter map
    (normalised, a non-empty string token included), the fixed
    defaults, the defaults of the client, the object that the options
    brought along; a form body holds it as text. *)
Theorem ajax_payload_precedence (encode : form → Body) (client : Client)
    (transport : nat → AxiosOutcome) (w : World) (parameters options : loc) (k : string) :
  (parameters < length (objects w))%nat →
  (options < length (configs w))%nat →
  obj_wf (read_obj w parameters) →
  obj_wf (defaults_params client) → obj_wf (defaults_data client) →
  encode = BodyString ∨ encode = BodySearchParams →
  plain_data (read_options w options) →
  let o := read_options w options in
  ∃ request,
    sent (Base.ajax encode client transport w parameters options).1 = sent w ++ [request]
    ∧ obj_get (payload request) k
      = transmitted client o
        <$> supplied (own_payload client o) (client_defaults client o)
              (read_obj w parameters) k.
Proof.
  intros Hp Ho Hps Hdp Hdd Henc Hplain o.
  destruct (ajax_plain encode client transport w parameters options k)
    as (request & Hreq & Hget); try done.
  exists request. split; [|done].
  by rewrite (ajax_sends encode client transport w parameters options request).
Qed.


(** ** The token-guarded post *)

(** [post] with options that hold nothing but, possibly, a method. *)
Lemma post_at (encode : form → Body) (client : Client) (transport : nat → AxiosOutcome)
    (w : World) (parameters options : loc) :
  (parameters < length (objects w))%nat →
  (options < length (configs w))%nat →
  with_method (read_options w options) "POST" = with_method no_options "POST" →
  Base.post encode client transport w parameters (Some options) =
  (mkWorld (<[parameters := ajax_parameters (read_obj w parameters)]> (objects w))
     (<[options := post_request encode client (read_obj w parameters) (aborts w)]> (configs w))
     (tokens w) (S (aborts w))
     (sent w ++ [post_request encode client (read_obj w parameters) (aborts w)]),
   settle (transport (length (sent w)))).
Proof.
  intros Hp Ho Hopt. unfold Base.post, Base.or_fresh.
  set (w2 := write_options w _ _).
  assert (read_options w2 options = with_method no_options "POST") as Hread.
  { unfold w2. rewrite read_write_options by done. done. }
  rewrite (ajax_sends encode client transport w2 parameters options
             (post_request encode client (read_obj w parameters) (aborts w))).
  - f_equal. apply world_eq; try done.
    unfold w2, write_options. cbn [configs]. by rewrite list_insert_insert_eq.
  - done.
  - unfold w2. by rewrite length_configs_write_options.
  - rewrite Hread. done.
Qed.
Lemma lookup_total_insert_app {A} `{Inhabited A} (l : list A) (i : nat) (x y : A) :
  (i < length l)%nat → (<[i := x]> (l ++ [y])) = <[i := x]> l ++ [y].
Proof. intros Hi. by rewrite insert_app_l. Qed.

Lemma read_obj_alloc (w : World) (o : obj) (l : loc) :
  (l < length (objects w))%nat → read_obj (alloc_obj w o).1 l = read_obj w l.
Proof.
  intros Hl. unfold read_obj, alloc_obj. cbn [fst objects].
  by rewrite lookup_total_app_l.
Qed.

(** The first attempt of [postWithToken] with a cached token, when the
    POST is not rejected with [badtoken]. *)
Lemma postWithToken_hit (client : Client) (transport : nat → AxiosOutcome)
    (w : World) (tokenType : string) (params : loc) (token : JsVal) :
  (params < length (objects w))%nat →
  cached w tokenType = Some token →
  is_badtoken (settle (transport (length (sent w)))) = false →
  MWCCStatic.postWithToken client transport w tokenType params None
  = (after_token_post BodySearchParams client w params token,
     settle (transport (length (sent w))))
  ∧ MWCC.postWithToken client transport w tokenType params None
    = (after_token_post BodyString client w params token,
       settle (transport (length (sent w)))).
Proof.
  intros Hp Hc Hbad.
  assert (∀ encode,
    Base.post encode client transport
      (set_prop (mkWorld (objects w ++ [assert_params (read_obj w params)])
                   (configs w ++ [no_options]) (tokens w) (aborts w) (sent w))
         params "token" token) params (Some (length (configs w)))
    = (after_token_post encode client w params token,
       settle (transport (length (sent w))))) as Hpost.
  { intros encode. set (w0 := mkWorld _ _ _ _ _).
    assert (read_obj w0 params = read_obj w params) as Hread.
    { unfold w0, read_obj. cbn [objects]. by rewrite lookup_total_app_l. }
    assert (params < length (objects w0))%nat as Hp0.
    { unfold w0. cbn [objects]. rewrite length_app. lia. }
    assert (read_obj (set_prop w0 params "token" token) params
            = obj_set (read_obj w params) "token" token) as Hset.
    { unfold set_prop. rewrite read_write_obj by done. by rewrite Hread. }
    rewrite post_at.
    - rewrite Hset. unfold after_token_post. f_equal.
      apply world_eq; unfold set_prop, write_obj;
        cbn [objects configs tokens aborts sent]; try done.
      + rewrite list_insert_insert_eq. unfold w0. cbn [objects].
        by rewrite insert_app_l.
      + unfold w0. cbn [configs]. by rewrite insert_last.
    - unfold set_prop. by rewrite length_objects_write_obj.
    - unfold set_prop, write_obj, w0. cbn [configs]. rewrite length_app. simpl. lia.
    - unfold set_prop, write_obj, read_options, w0. cbn [configs].
      by rewrite list_lookup_total_middle. }
  split.
  - unfold MWCCStatic.postWithToken, Base.or_fresh, alloc_options, alloc_obj.
    unfold MWCCStatic.getToken.
    rewrite (getToken_hit _ _ _ _ _ _ token) by done.
    unfold MWCCStatic.post.
    replace (read_obj (mkWorld (objects w) (configs w ++ [no_options]) (tokens w) (aborts w)
                         (sent w)) params) with (read_obj w params) by done.
    fold (assert_params (read_obj w params)).
    rewrite Hpost.
    destruct (settle_settled (transport (length (sent w)))) as [[v Hv]|[err Hv]];
      rewrite Hv in *; [done|].
    simpl in Hbad. by rewrite Hbad.
  - unfold MWCC.postWithToken, Base.or_fresh, alloc_options, alloc_obj.
    unfold MWCC.getToken.
    rewrite (getToken_hit _ _ _ _ _ _ token) by done.
    unfold MWCC.post.
    replace (read_obj (mkWorld (objects w) (configs w ++ [no_options]) (tokens w) (aborts w)
                         (sent w)) params) with (read_obj w params) by done.
    fold (assert_params (read_obj w params)).
    rewrite Hpost.
    destruct (settle_settled (transport (length (sent w)))) as [[v Hv]|[err Hv]];
      rewrite Hv in *; [done|].
    simpl in Hbad. by rewrite Hbad.
Qed.
(** The first attempt of [postWithToken] without a cached token, when
    the token request brings the token and the POST is not rejected with
    [badtoken]. *)
Lemma postWithToken_miss (client : Client) (transport : nat → AxiosOutcome)
    (w : World) (tokenType : string) (params : loc) (res : JsVal) :
  (params < length (objects w))%nat →
  cached w tokenType = None →
  settle (transport (length (sent w))) = Resolved res →
  let resToken := prop (prop res "query") "tokens" in
  let token := prop resToken (token_name tokenType) in
  truthy resToken = true →
  truthy token = true →
  is_badtoken (settle (transport (S (length (sent w))))) = false →
  MWCCStatic.postWithToken client transport w tokenType params None
  = (after_fetch_post BodySearchParams client w params resToken token,
     settle (transport (S (length (sent w)))))
  ∧ MWCC.postWithToken client transport w tokenType params None
    = (after_fetch_post BodyString client w params resToken token,
       settle (transport (S (length (sent w))))).
Proof.
  intros Hp Hc Hres resToken token Ht1 Ht2 Hbad.
  set (w0 := mkWorld (objects w ++ [assert_params (read_obj w params)])
               (configs w ++ [no_options]) (tokens w) (aborts w) (sent w)).
  assert (read_obj w0 params = read_obj w params) as Hread.
  { unfold w0, read_obj. cbn [objects]. by rewrite lookup_total_app_l. }
  assert (token_query w0 (ExtraObject (length (objects w))) = assert_query (read_obj w params))
    as Hquery.
  { unfold token_query, assert_query, w0, read_obj. cbn [objects].
    by rewrite list_lookup_total_middle. }
  set (w1 := set_tokens (after_token_request client w0 (ExtraObject (length (objects w))))
               resToken).
  assert (∀ encode,
    Base.getToken encode client transport w0 tokenType (ExtraObject (length (objects w)))
    = (w1, Resolved token)) as Hget.
  { intros encode. rewrite getToken_miss by done. cbn [sent w0]. rewrite Hres. cbn zeta.
    fold resToken. rewrite Ht1. fold token. by rewrite Ht2. }
  assert (read_obj w1 params = read_obj w params) as Hread1.
  { unfold w1, after_token_request, set_tokens, read_obj. cbn [objects].
    rewrite lookup_total_app_l by (unfold w0; cbn [objects]; rewrite length_app; lia).
    apply Hread. }
  assert (params < length (objects w1))%nat as Hp1.
  { unfold w1, after_token_request, set_tokens, w0. cbn [objects]. rewrite !length_app. lia. }
  assert (∀ encode,
    Base.post encode client transport (set_prop w1 params "token" token) params
      (Some (length (configs w)))
    = (after_fetch_post encode client w params resToken token,
       settle (transport (S (length (sent w)))))) as Hpost.
  { intros encode.
    assert (read_obj (set_prop w1 params "token" token) params
            = obj_set (read_obj w params) "token" token) as Hset.
    { unfold set_prop. rewrite read_write_obj by done. by rewrite Hread1. }
    rewrite post_at.
    - rewrite Hset. unfold after_fetch_post. f_equal.
      + apply world_eq; unfold set_prop, write_obj;
          cbn [objects configs tokens aborts sent]; try done.
        * rewrite list_insert_insert_eq.
          unfold w1, after_token_request, set_tokens, w0. cbn [objects].
          fold w0. rewrite Hquery. rewrite <- app_assoc. cbn [app].
          by rewrite insert_app_l.
        * unfold w1, after_token_request, set_tokens, w0.
          cbn [objects configs tokens aborts sent]. fold w0. rewrite Hquery.
          rewrite <- app_assoc. cbn [app].
          rewrite insert_app_r_alt by lia. by rewrite Nat.sub_diag.
        * unfold w1, after_token_request, set_tokens, w0.
          cbn [objects configs tokens aborts sent]. fold w0. rewrite Hquery.
          by rewrite <- app_assoc.
      + unfold set_prop, write_obj, w1, after_token_request, set_tokens, w0.
        cbn [sent]. rewrite length_app. simpl. do 3 f_equal. lia.
    - unfold set_prop. by rewrite length_objects_write_obj.
    - unfold set_prop, write_obj, w1, after_token_request, set_tokens, w0. cbn [configs].
      rewrite !length_app. simpl. lia.
    - unfold set_prop, write_obj, read_options, w1, after_token_request, set_tokens, w0.
      cbn [configs]. rewrite <- app_assoc. cbn [app]. by rewrite list_lookup_total_middle. }
  split.
  - unfold MWCCStatic.postWithToken, Base.or_fresh, alloc_options, alloc_obj.
    unfold MWCCStatic.getToken, MWCCStatic.post.
    replace (read_obj (mkWorld (objects w) (configs w ++ [no_options]) (tokens w) (aborts w)
                         (sent w)) params) with (read_obj w params) by done.
    fold (assert_params (read_obj w params)). cbn [objects configs]. fold w0.
    rewrite Hget, Hpost.
    destruct (settle_settled (transport (S (length (sent w))))) as [[v Hv]|[err Hv]];
      rewrite Hv in *; [done|].
    simpl in Hbad. by rewrite Hbad.
  - unfold MWCC.postWithToken, Base.or_fresh, alloc_options, alloc_obj.
    unfold MWCC.getToken, MWCC.post.
    replace (read_obj (mkWorld (objects w) (configs w ++ [no_options]) (tokens w) (aborts w)
                         (sent w)) params) with (read_obj w params) by done.
    fold (assert_params (read_obj w params)). cbn [objects configs]. fold w0.
    rewrite Hget, Hpost.
    destruct (settle_settled (transport (S (length (sent w))))) as [[v Hv]|[err Hv]];
      rewrite Hv in *; [done|].
    simpl in Hbad. by rewrite Hbad.
Qed.
(** A non-empty string token ends the object that [ajax] fills. *)
Lemma filled_token_last (target cd ps : obj) (t : string) :
  obj_get ps "token" = Some (JStr t) → t ≠ EmptyString →
  "token" ∉ keys target → "token" ∉ keys cd →
  ∃ front, filled target cd ps = front ++ [("token", JStr t)].
Proof.
  intros Hget Ht Htarget Hcd. unfold filled, with_token, ajax_token, ajax_parameters, prop.
  rewrite Hget. cbn [default from_option id is_string].
  assert (truthy (JStr t) = true) as -> by (by destruct t).
  eexists. apply obj_set_new_last; [done|].
  assert ("token" ∉ keys defaults) as Hd by compute_done.
  intros Hin.
  apply keys_assign in Hin as [Hin|Hin].
  - apply keys_assign in Hin as [Hin|Hin]; [|done].
    apply keys_assign in Hin as [Hin|Hin]; done.
  - apply keys_preprocess in Hin. rewrite keys_delete in Hin.
    by apply list_elem_of_filter in Hin as [? _].
Qed.

Lemma payload_post_last (encode : form → Body) (client : Client) (ps : obj)
    (controller : nat) (t : string) :
  encode = BodyString ∨ encode = BodySearchParams →
  obj_get ps "token" = Some (JStr t) → t ≠ EmptyString →
  "token" ∉ keys (defaults_data client) →
  last (payload (post_request encode client ps controller)) = Some ("token", JStr t).
Proof.
  intros Henc Hget Ht Hcd.
  destruct (filled_token_last [] (defaults_data client) ps t) as [front Hf];
    [done|done|apply not_elem_of_nil|done|].
  unfold payload, post_request. cbn [method data default from_option id].
  assert (is_GET "POST" = false) as -> by done.
  rewrite Hf. destruct Henc as [-> | ->]; apply last_form_of_record.
Qed.

Lemma payload_post (encode : form → Body) (client : Client) (ps : obj)
    (controller : nat) (k : string) :
  encode = BodyString ∨ encode = BodySearchParams →
  obj_wf ps → obj_wf (defaults_data client) →
  obj_get (payload (post_request encode client ps controller)) k
  = (λ v, JStr (to_string v)) <$> supplied [] (defaults_data client) ps k.
Proof.
  intros Henc Hps Hcd. unfold payload, post_request.
  cbn [method data default from_option id].
  assert (is_GET "POST" = false) as -> by done.
  destruct Henc as [-> | ->]; rewrite obj_get_form; by rewrite obj_get_filled.
Qed.

Lemma payload_get (client : Client) (ps : obj) (controller : nat) (k : string) :
  obj_wf ps → obj_wf (defaults_params client) →
  obj_get (payload (get_request client ps controller)) k
  = supplied [] (defaults_params client) ps k.
Proof.
  intros Hps Hcd. unfold payload, get_request.
  cbn [method params default from_option id].
  assert (is_GET "GET" = true) as -> by done.
  by rewrite obj_get_filled.
Qed.

Lemma supplied_set_token (own cd ps : obj) (k : string) (v : JsVal) :
  k ≠ "token" → supplied own cd (obj_set ps "token" v) k = supplied own cd ps k.
Proof.
  intros Hk. unfold supplied, parameter. rewrite obj_get_set.
  by rewrite decide_False by done.
Qed.

(** X4: with a cached string token, [postWithToken] sends one request, a
    POST whose payload ends with the cached token, whatever the caller
    had put under [token], and holds every other key by the precedence
    of [ajax]; the promise settles as that request does unless it is
    rejected with [badtoken], and the cache is as before. *)
Theorem postWithToken_cached_token (client : Client) (transport : nat → AxiosOutcome)
    (w : World) (tokenType : string) (params : loc) (token : string)
    (encode : form → Body) (run : World * Result JsVal) :
  (encode = BodySearchParams
   ∧ run = MWCCStatic.postWithToken client transport w tokenType params None)
  ∨ (encode = BodyString
     ∧ run = MWCC.postWithToken client transport w tokenType params None) →
  (params < length (objects w))%nat →
  obj_wf (read_obj w params) → obj_wf (defaults_data client) →
  "token" ∉ keys (defaults_data client) →
  cached w tokenType = Some (JStr token) →
  is_badtoken (settle (transport (length (sent w)))) = false →
  ∃ request,
    sent run.1 = sent w ++ [request]
    ∧ method request = Some "POST"
    ∧ last (payload request) = Some ("token", JStr token)
    ∧ (∀ k, k ≠ "token" →
         obj_get (payload request) k
         = (λ v, JStr (to_string v)) <$> supplied [] (defaults_data client) (read_obj w params) k)
    ∧ run.2 = settle (transport (length (sent w)))
    ∧ tokens run.1 = tokens w.
Proof.
  intros Hrun Hp Hps Hcd Htok Hc Hbad.
  destruct (postWithToken_hit client transport w tokenType params (JStr token))
    as [Hstatic Hmwcc]; [done..|].
  assert (token ≠ EmptyString) as Hne.
  { unfold cached in Hc. destruct (truthy _) eqn:E; [|done]. injection Hc as Hc.
    rewrite Hc in E. by destruct token. }
  assert (run = (after_token_post encode client w params (JStr token),
                 settle (transport (length (sent w))))) as ->.
  { by destruct Hrun as [[-> ->]|[-> ->]]. }
  assert (encode = BodyString ∨ encode = BodySearchParams) as Henc.
  { destruct Hrun as [[-> _]|[-> _]]; auto. }
  eexists. cbn [fst snd after_token_post sent tokens]. split_and!; try done.
  - apply payload_post_last; try done. rewrite obj_get_set. by rewrite decide_True.
  - intros k Hk. rewrite payload_post; [|done|by apply obj_set_wf|done].
    by rewrite supplied_set_token.
Qed.
Lemma assert_query_wf (ps : obj) : obj_wf (assert_query ps).
Proof. unfold assert_query, assert_params. apply obj_assign_wf. by_evaluation. Qed.

Lemma obj_get_assert_query (ps : obj) (k : string) :
  obj_get (assert_query ps) k =
  if decide (k = "assert") then Some (prop (JObj ps) "assert")
  else if decide (k = "assertuser") then Some (prop (JObj ps) "assertuser")
  else if decide (k = "meta") then Some (JStr "tokens")
  else if decide (k = "type") then Some (JStr "*")
  else None.
Proof.
  unfold assert_query, assert_params. rewrite obj_get_assign by by_evaluation.
  simpl. repeat case_decide; congruence.
Qed.

(** X5: without a cached token, [postWithToken] sends two requests: a
    GET for [meta=tokens] and [type=*] that carries the [assert] and
    [assertuser] of the caller's parameters, and then the POST, whose
    payload ends with the token that the response holds for the type;
    the response's tokens become the cache, and the promise settles as
    the POST does unless that is rejected with [badtoken]. *)
Theorem postWithToken_fetches_token (client : Client) (transport : nat → AxiosOutcome)
    (w : World) (tokenType : string) (params : loc) (res : JsVal) (token : string)
    (encode : form → Body) (run : World * Result JsVal) :
  (encode = BodySearchParams
   ∧ run = MWCCStatic.postWithToken client transport w tokenType params None)
  ∨ (encode = BodyString
     ∧ run = MWCC.postWithToken client transport w tokenType params None) →
  (params < length (objects w))%nat →
  obj_wf (defaults_params client) →
  "token" ∉ keys (defaults_data client) →
  cached w tokenType = None →
  settle (transport (length (sent w))) = Resolved res →
  let resToken := prop (prop res "query") "tokens" in
  prop resToken (token_name tokenType) = JStr token →
  token ≠ EmptyString →
  is_badtoken (settle (transport (S (length (sent w))))) = false →
  ∃ fetch post,
    sent run.1 = sent w ++ [fetch; post]
    ∧ method fetch = Some "GET" ∧ method post = Some "POST"
    ∧ obj_get (payload fetch) "meta" = Some (JStr "tokens")
    ∧ obj_get (payload fetch) "type" = Some (JStr "*")
    ∧ (∀ k, k = "assert" ∨ k = "assertuser" →
         obj_get (payload fetch) k
         = first_some (normalized (prop (JObj (read_obj w params)) k))
             (obj_get (defaults_params client) k))
    ∧ last (payload post) = Some ("token", JStr token)
    ∧ run.2 = settle (transport (S (length (sent w))))
    ∧ tokens run.1 = resToken.
Proof.
  intros Hrun Hp Hcd Htok Hc Hres resToken Htoken Hne Hbad.
  assert (truthy (prop resToken (token_name tokenType)) = true) as Ht2.
  { rewrite Htoken. by destruct token. }
  assert (truthy resToken = true) as Ht1.
  { destruct resToken; try done. }
  destruct (postWithToken_miss client transport w tokenType params res)
    as [Hstatic Hmwcc]; [done..|].
  fold resToken in Hstatic, Hmwcc. rewrite Htoken in Hstatic, Hmwcc.
  assert (run = (after_fetch_post encode client w params resToken (JStr token),
                 settle (transport (S (length (sent w)))))) as ->.
  { by destruct Hrun as [[-> ->]|[-> ->]]. }
  assert (encode = BodyString ∨ encode = BodySearchParams) as Henc.
  { destruct Hrun as [[-> _]|[-> _]]; auto. }
  eexists _, _. cbn [fst snd after_fetch_post sent tokens]. split_and!; try done.
  - rewrite payload_get by (done || apply assert_query_wf).
    unfold supplied, parameter. rewrite obj_get_assert_query. done.
  - rewrite payload_get by (done || apply assert_query_wf).
    unfold supplied, parameter. rewrite obj_get_assert_query. done.
  - intros k Hk. rewrite payload_get by (done || apply assert_query_wf).
    unfold supplied, parameter. rewrite obj_get_assert_query.
    destruct Hk as [-> | ->]; cbn [decide].
    + rewrite decide_True by done.
      assert (obj_get defaults "assert" = None) as Hd by done.
      unfold first_some at 2. rewrite Hd.
      destruct (prop (JObj (read_obj w params)) "assert") as [| |[|]| | |[|c s]| |];
        try done; by destruct (obj_get (defaults_params client) _).
    + rewrite decide_False by done. rewrite decide_True by done.
      assert (obj_get defaults "assertuser" = None) as Hd by done.
      unfold first_some at 2. rewrite Hd.
      destruct (prop (JObj (read_obj w params)) "assertuser") as [| |[|]| | |[|c s]| |];
        try done; by destruct (obj_get (defaults_params client) _).
  - apply payload_post_last; try done. rewrite obj_get_set. by rewrite decide_True.
Qed.
Lemma prop_delete_prop_ne (v : JsVal) (k k' : string) :
  k ≠ k' → prop (delete_prop v k) k' = prop v k'.
Proof.
  intros Hne. destruct v; try done. simpl. rewrite obj_get_delete.
  by rewrite decide_False.
Qed.

Lemma length_append (s t : string) :
  String.length (s +:+ t) = (String.length s + String.length t)%nat.
Proof.
  induction s as [|c s IH]; [done|].
  change (S (String.length (s +:+ t)) = S (String.length s + String.length t)).
  by rewrite IH.
Qed.

Lemma append_cancel_r (s1 s2 t : string) : s1 +:+ t = s2 +:+ t → s1 = s2.
Proof.
  revert s2. induction s1 as [|c1 s1 IH]; intros [|c2 s2]; simpl; intros H.
  - done.
  - apply (f_equal String.length) in H. rewrite !length_append in H. simpl in H. lia.
  - apply (f_equal String.length) in H. rewrite !length_append in H. simpl in H. lia.
  - change (String c1 (s1 +:+ t) = String c2 (s2 +:+ t)) in H.
    injection H as -> H. f_equal. by apply IH.
Qed.

(** X6: [badToken] drops the cached token of the type, and with it that
    of every type with the same canonical name, and nothing else: the
    tokens of the other types stay cached, no request is sent and no
    object changes. *)
Theorem badToken_keeps_other_tokens (w : World) (tokenType other : string) :
  let w' := Base.badToken w tokenType in
  cached w' other
  = (if decide (mapLegacyToken other = mapLegacyToken tokenType) then None else cached w other)
  ∧ objects w' = objects w ∧ configs w' = configs w
  ∧ aborts w' = aborts w ∧ sent w' = sent w.
Proof.
  intros w'. subst w'. split.
  - destruct (decide (mapLegacyToken other = mapLegacyToken tokenType)) as [Heq|Hne].
    + unfold cached, token_name. rewrite Heq.
      fold (token_name tokenType). apply cached_badToken.
    + unfold cached, Base.badToken. fold (token_name tokenType).
      destruct (truthy (prop (tokens w) (token_name tokenType))); [|done].
      cbn [tokens set_tokens]. rewrite prop_delete_prop_ne; [done|].
      unfold token_name. intros Heq. apply Hne.
      symmetry. by apply append_cancel_r in Heq.
  - unfold Base.badToken. by destruct (truthy _).
Qed.
(** X7: one token request serves every type.  When [getToken] has gone
    to the network and the response brought a token object, a later
    [getToken] for any type that the object holds a token for is
    answered from the cache, without a request, also when the first
    call itself was rejected because its own type was missing; a type
    that the object has no token for is cached no longer. *)
Theorem getToken_caches_all_types (encode : form → Body) (client : Client)
    (transport : nat → AxiosOutcome) (w : World) (tokenType other : string)
    (extra extra' : Extra) (res : JsVal) :
  cached w tokenType = None →
  settle (transport (length (sent w))) = Resolved res →
  let resToken := prop (prop res "query") "tokens" in
  truthy resToken = true →
  let w' := (Base.getToken encode client transport w tokenType extra).1 in
  (truthy (prop resToken (token_name other)) = true →
   Base.getToken encode client transport w' other extra'
   = (w', Resolved (prop resToken (token_name other))))
  ∧ (truthy (prop resToken (token_name other)) = false → cached w' other = None)
  ∧ length (sent w') = S (length (sent w)).
Proof.
  intros Hmiss Hres resToken Ht w'.
  assert (tokens w' = resToken ∧ length (sent w') = S (length (sent w))) as [Htok Hlen].
  { unfold w'. rewrite getToken_miss by done. rewrite Hres. cbn zeta.
    fold resToken. rewrite Ht. cbn [fst set_tokens tokens sent after_token_request].
    rewrite length_app. simpl. split; [done|lia]. }
  split_and!.
  - intros Hother. apply getToken_hit. unfold cached. rewrite Htok. by rewrite Hother.
  - intros Hother. unfold cached. rewrite Htok. by rewrite Hother.
  - done.
Qed.
(** A GET request for a parameter object that the helper has made. *)
Lemma get_alloc (encode : form → Body) (client : Client) (transport : nat → AxiosOutcome)
    (w : World) (ps : obj) :
  Base.get encode client transport (alloc_obj w ps).1 (alloc_obj w ps).2 None
  = (after_get client w ps, settle (transport (length (sent w)))).
Proof.
  unfold alloc_obj. cbn [fst snd]. rewrite get_fresh.
  - unfold read_obj. cbn [objects configs tokens aborts sent].
    rewrite list_lookup_total_middle by done. by rewrite insert_last.
  - cbn [objects]. rewrite length_app. simpl. lia.
Qed.

Lemma and_then_settle (out : AxiosOutcome) (f : JsVal → Result JsVal) :
  or_else (and_then (settle out) f) (λ _, Resolved JNull)
  = match settle out with
    | Resolved res =>
        match f res with
        | Resolved v => Resolved v
        | Pending => Pending
        | _ => Resolved JNull
        end
    | _ => Resolved JNull
    end.
Proof.
  destruct (settle_settled out) as [[v ->]|[e ->]]; [|done].
  simpl. by destruct (f v).
Qed.

(** X8: [getUserInfo] never rejects.  It sends one GET for
    [meta=userinfo] and resolves with [query.userinfo] of the response
    when there is one, and with [null] otherwise, whether the request
    failed or the response had no user information; [assert=user] is in
    the request when [assertUser] is truthy, and no [assert] comes from
    the call when it is [false] or left out. *)
Theorem getUserInfo_never_rejects (encode : form → Body) (client : Client)
    (transport : nat → AxiosOutcome) (w : World) (assertUser : JsVal) :
  obj_wf (defaults_params client) →
  let run := Base.getUserInfo encode client transport w assertUser in
  let out := settle (transport (length (sent w))) in
  (∃ v, run.2 = Resolved v)
  ∧ (∀ res, out = Resolved res →
       run.2 = Resolved (if truthy (prop (prop res "query") "userinfo")
                         then prop (prop res "query") "userinfo" else JNull))
  ∧ (∀ e, out = Rejected e → run.2 = Resolved JNull)
  ∧ ∃ request,
      sent run.1 = sent w ++ [request]
      ∧ method request = Some "GET"
      ∧ obj_get (payload request) "meta" = Some (JStr "userinfo")
      ∧ obj_get (payload request) "uiprop" = Some (JStr "groups|rights")
      ∧ obj_get (payload request) "assert"
        = first_some (normalized (js_and (or_false assertUser) (JStr "user")))
            (obj_get (defaults_params client) "assert").
Proof.
  intros Hcd run out.
  assert (run = (after_get client w (userinfo_query assertUser),
                 or_else (and_then out (λ res,
                   let resUi := prop (prop res "query") "userinfo" in
                   if truthy resUi then Resolved resUi else Rejected empty_result))
                   (λ _, Resolved JNull))) as ->.
  { unfold run, Base.getUserInfo. fold (userinfo_query assertUser).
    pose proof (get_alloc encode client transport w (userinfo_query assertUser)) as Hget.
    destruct (alloc_obj w (userinfo_query assertUser)) as [w1 l]. cbn [fst snd] in Hget.
    by rewrite Hget. }
  cbn [fst snd]. unfold out. rewrite and_then_settle. split_and!.
  - destruct (settle _) as [res| | |]; eauto.
    cbn zeta. destruct (truthy _); eauto.
  - intros res ->. cbn zeta. by destruct (truthy _).
  - by intros e ->.
  - assert (obj_wf (userinfo_query assertUser)) as Hwf by by_evaluation.
    eexists. split; [done|]. split; [done|].
    rewrite !payload_get by done. split_and!; try done.
    unfold supplied, parameter. simpl obj_get.
    destruct (js_and (or_false assertUser) (JStr "user")) as [| |[|]| | |[|c s]| |];
      try done; by destruct (obj_get (defaults_params client) _).
Qed.
Lemma truthy_first_page_prop (pages : JsVal) (k : string) :
  truthy (js_and pages (js_and (first_of pages) (prop (first_of pages) k)))
  = truthy (prop (first_of pages) k).
Proof.
  unfold js_and. destruct (truthy pages) eqn:Ep.
  - destruct (truthy (first_of pages)) eqn:Ef; [done|].
    rewrite Ef. by destruct (first_of pages) as [| |[|]| | | | |o].
  - rewrite Ep. by destruct pages as [| |[|]|[| |]|[| |]|[|c s]| |].
Qed.

(** X9: [isCategory] never rejects.  It sends one GET for
    [prop=categoryinfo] with the title as text, and resolves with
    [true] when the first page of the response has category
    information, with [false] for every other response, and with
    [null] when the request fails. *)
Theorem isCategory_result (client : Client) (transport : nat → AxiosOutcome)
    (w : World) (title : JsVal) :
  obj_wf (defaults_params client) →
  let run := MWCCStatic.isCategory client transport w title in
  let out := settle (transport (length (sent w))) in
  run.2 = Resolved (match out with
                    | Resolved res => JBool (truthy (prop (first_page res) "categoryinfo"))
                    | _ => JNull
                    end)
  ∧ ∃ request,
      sent run.1 = sent w ++ [request]
      ∧ method request = Some "GET"
      ∧ obj_get (payload request) "prop" = Some (JStr "categoryinfo")
      ∧ obj_get (payload request) "titles" = Some (JStr (to_string title)).
Proof.
  intros Hcd run out.
  assert (run = (after_get client w (categoryinfo_query title),
                 or_else (and_then out (λ res,
                   let resPages := prop (prop res "query") "pages" in
                   Resolved (JBool (truthy (js_and resPages
                     (js_and (first_of resPages) (prop (first_of resPages) "categoryinfo")))))))
                   (λ _, Resolved JNull))) as ->.
  { unfold run, MWCCStatic.isCategory, MWCCStatic.get. fold (categoryinfo_query title).
    pose proof (get_alloc BodySearchParams client transport w (categoryinfo_query title))
      as Hget.
    destruct (alloc_obj w (categoryinfo_query title)) as [w1 l]. cbn [fst snd] in Hget.
    by rewrite Hget. }
  cbn [fst snd]. unfold out. rewrite and_then_settle. split.
  - destruct (settle _) as [res| | |]; try done.
    cbn zeta. by rewrite truthy_first_page_prop.
  - assert (obj_wf (categoryinfo_query title)) as Hwf by by_evaluation.
    eexists. split; [done|]. split; [done|].
    rewrite !payload_get by done. split; try done.
    unfold supplied, parameter. simpl obj_get.
    by destruct (to_string title).
Qed.

(** X10: [getCategories] never rejects.  It sends one GET for
    [prop=categories] with the title as text, and resolves with the
    titles of the categories of the first page, in their order, when
    the page has an array of categories, none of them [null] or
    [undefined], and is neither invalid nor missing; in every other
    case, a failed request included, it resolves with [null]. *)
Theorem getCategories_result (client : Client) (transport : nat → AxiosOutcome)
    (w : World) (title : JsVal) :
  obj_wf (defaults_params client) →
  let run := MWCCStatic.getCategories client transport w title in
  let out := settle (transport (length (sent w))) in
  run.2 = Resolved (match out with
                    | Resolved res =>
                        let page := first_page res in
                        match prop page "categories" with
                        | JArr cats =>
                            if negb (truthy (prop page "invalidreason"))
                               && negb (truthy (prop page "missing"))
                               && forallb (λ cat, negb (nullish cat)) cats
                            then JArr (List.map (λ cat, prop cat "title") cats)
                            else JNull
                        | _ => JNull
                        end
                    | _ => JNull
                    end)
  ∧ ∃ request,
      sent run.1 = sent w ++ [request]
      ∧ method request = Some "GET"
      ∧ obj_get (payload request) "prop" = Some (JStr "categories")
      ∧ obj_get (payload request) "titles" = Some (JStr (to_string title)).
Proof.
  intros Hcd run out.
  assert (run = (after_get client w (categories_query title),
                 or_else (and_then out (λ res,
                   let resPages := prop (prop res "query") "pages" in
                   let page := first_of resPages in
                   let categories := prop page "categories" in
                   if negb (truthy resPages) || negb (truthy page) || negb (truthy categories)
                   then Rejected empty_result
                   else if truthy (prop page "invalidreason") then
                     Rejected (JObj [("error", JObj [("code", JStr "invalidtitle");
                                                     ("info", prop page "invalidreason")])])
                   else if truthy (prop page "missing") then
                     Rejected (error_value "pagemissing" "The requested page does not exist"
                                 None)
                   else MWCCStatic.category_titles categories))
                   (λ _, Resolved JNull))) as ->.
  { unfold run, MWCCStatic.getCategories, MWCCStatic.get. fold (categories_query title).
    pose proof (get_alloc BodySearchParams client transport w (categories_query title))
      as Hget.
    destruct (alloc_obj w (categories_query title)) as [w1 l]. cbn [fst snd] in Hget.
    by rewrite Hget. }
  cbn [fst snd]. unfold out. rewrite and_then_settle. split.
  - destruct (settle _) as [res| | |]; try done.
    cbn zeta. unfold first_page.
    set (pages := prop (prop res "query") "pages").
    destruct (prop (first_of pages) "categories") as [| |b|n|n|s|cats|o] eqn:Ec;
      cbn [truthy negb orb andb].
    1,2: by rewrite !orb_true_r.
    1-4,6: destruct (negb (truthy pages) || negb (truthy (first_of pages)) || _); [done|];
      destruct (truthy (prop (first_of pages) "invalidreason")); [done|];
      by destruct (truthy (prop (first_of pages) "missing")).
    assert (truthy (first_of pages) = true) as Hpage.
    { unfold prop in Ec. by destruct (first_of pages). }
    assert (truthy pages = true) as Hpages.
    { by destruct pages as [| |[|]|[| |]|[| |]|[|c s]| |]. }
    rewrite Hpage, Hpages. cbn [negb orb].
    destruct (truthy (prop (first_of pages) "invalidreason")); [done|].
    destruct (truthy (prop (first_of pages) "missing")); [done|].
    cbn [negb andb]. unfold MWCCStatic.category_titles.
    by destruct (forallb _ cats).
  - assert (obj_wf (categories_query title)) as Hwf by by_evaluation.
    eexists. split; [done|]. split; [done|].
    rewrite !payload_get by done. split; try done.
    unfold supplied, parameter. simpl obj_get.
    by destruct (to_string title).
Qed.
Lemma steps_refl (w : World) : steps [] w w.
Proof.
  split_and!; [done|done|]. exists []. rewrite app_nil_r. simpl. split; [done|lia].
Qed.

Lemma steps_trans (c1 c2 c : list loc) (w1 w2 w3 : World) :
  steps c1 w1 w2 → steps c2 w2 w3 →
  (∀ l, (l < length (objects w1))%nat → l ∈ c1 ∨ l ∈ c2 → l ∈ c) →
  steps c w1 w3.
Proof.
  intros (Hl1 & Hf1 & r1 & Hs1 & Ha1) (Hl2 & Hf2 & r2 & Hs2 & Ha2) Hc. split_and!.
  - lia.
  - intros l Hl Hn. rewrite Hf2; [apply Hf1; [done|]|lia|].
    + intros Hin. apply Hn, Hc; auto.
    + intros Hin. apply Hn, Hc; auto.
  - exists (r1 ++ r2). rewrite Hs2, Hs1, Ha2, Ha1, length_app, app_assoc. split; [done|lia].
Qed.

Lemma steps_weaken (c c' : list loc) (w w' : World) :
  steps c w w' → (∀ l, (l < length (objects w))%nat → l ∈ c → l ∈ c') → steps c' w w'.
Proof.
  intros (Hl & Hf & Hr) Hc. split_and!; [done| |done].
  intros l Hlt Hn. apply Hf; [done|]. intros Hin. by apply Hn, Hc.
Qed.

Lemma steps_write_obj (w : World) (l : loc) (o : obj) : steps [l] w (write_obj w l o).
Proof.
  split_and!.
  - by rewrite length_objects_write_obj.
  - intros l' Hl' Hn. apply read_write_obj_ne. intros ->. apply Hn. by left.
  - exists []. rewrite app_nil_r. split; [done|]. rewrite aborts_write_obj. simpl. lia.
Qed.

Lemma steps_set_prop (w : World) (l : loc) (k : string) (v : JsVal) :
  steps [l] w (set_prop w l k v).
Proof. apply steps_write_obj. Qed.

Lemma steps_alloc_obj (w : World) (o : obj) : steps [] w (alloc_obj w o).1.
Proof.
  split_and!.
  - unfold alloc_obj. cbn [fst objects]. rewrite length_app. lia.
  - intros l Hl _. by apply read_obj_alloc.
  - exists []. rewrite app_nil_r. simpl. split; [done|]. unfold alloc_obj. simpl. lia.
Qed.

Lemma steps_same_objects (w w' : World) (requests : list Options) :
  objects w' = objects w → sent w' = sent w ++ requests →
  aborts w' = (aborts w + length requests)%nat → steps [] w w'.
Proof.
  intros Ho Hs Ha. split_and!.
  - by rewrite Ho.
  - intros l _ _. unfold read_obj. by rewrite Ho.
  - by exists requests.
Qed.

Lemma steps_write_options (w : World) (l : loc) (o : Options) :
  steps [] w (write_options w l o).
Proof. apply (steps_same_objects _ _ []); [done|by rewrite app_nil_r|simpl; lia]. Qed.

Lemma steps_alloc_options (w : World) (o : Options) : steps [] w (alloc_options w o).1.
Proof. apply (steps_same_objects _ _ []); [done|by rewrite app_nil_r|simpl; lia]. Qed.

Lemma steps_set_tokens (w : World) (t : JsVal) : steps [] w (set_tokens w t).
Proof. apply (steps_same_objects _ _ []); [done|by rewrite app_nil_r|simpl; lia]. Qed.

Lemma steps_badToken (w : World) (tokenType : string) : steps [] w (Base.badToken w tokenType).
Proof.
  unfold Base.badToken. destruct (truthy _); [apply steps_set_tokens|apply steps_refl].
Qed.

Lemma steps_request (client : Client) (transport : nat → AxiosOutcome) (w : World)
    (options : loc) :
  steps [] w (Base.request client transport w options).1.
Proof.
  unfold Base.request. cbn [fst].
  eapply (steps_same_objects _ _ [_]); cbn [objects sent aborts]; [done|done|simpl; lia].
Qed.

Lemma steps_ajax (encode : form → Body) (client : Client) (transport : nat → AxiosOutcome)
    (w : World) (parameters options : loc) :
  steps [parameters] w (Base.ajax encode client transport w parameters options).1.
Proof.
  unfold Base.ajax. cbv zeta.
  set (w1 := Base.preprocessParameters _ _).
  assert (steps [parameters] w w1) as H1.
  { unfold w1, Base.preprocessParameters.
    destruct (is_string (prop (JObj (read_obj w parameters)) "token")).
    - eapply steps_trans; [apply steps_write_obj|apply steps_write_obj|].
      intros l _ [?|?]; done.
    - apply steps_write_obj. }
  clearbody w1. set (m := str_or _ _). clearbody m.
  set (token := match prop _ _ with JStr t => t | _ => EmptyString end). clearbody token.
  assert (∀ o o', steps [parameters] w
            (Base.request client transport
               (write_options (write_options w1 options o) options o') options).1) as Hreq.
  { intros o o'. eapply steps_trans; [apply H1| |].
    - eapply steps_trans; [apply steps_write_options| |].
      + eapply steps_trans; [apply steps_write_options|apply steps_request|].
        intros l _ [?|?]; done.
      + intros l _ [?|?]; done.
    - intros l _ [?|Hin]; [done|]. by apply not_elem_of_nil in Hin. }
  destruct (is_GET m); [apply Hreq|].
  destruct (data _) as [|o|[|e f]|f]; cbn [fst]; try apply Hreq.
  eapply steps_trans; [apply H1|apply steps_write_options|].
  intros l _ [?|Hin]; [done|]. by apply not_elem_of_nil in Hin.
Qed.
Lemma steps_get (encode : form → Body) (client : Client) (transport : nat → AxiosOutcome)
    (w : World) (parameters : loc) (options : option loc) :
  steps [parameters] w (Base.get encode client transport w parameters options).1.
Proof.
  unfold Base.get, Base.or_fresh. destruct options as [o|].
  - eapply steps_trans; [apply steps_write_options|apply steps_ajax|].
    intros l _ [Hin|?]; [by apply not_elem_of_nil in Hin|done].
  - eapply steps_trans; [apply steps_alloc_options| |].
    + eapply steps_trans; [apply steps_write_options|apply steps_ajax|].
      intros l _ [Hin|Hin]; [by apply not_elem_of_nil in Hin|apply Hin].
    + intros l _ [Hin|?]; [by apply not_elem_of_nil in Hin|done].
Qed.

Lemma steps_post (encode : form → Body) (client : Client) (transport : nat → AxiosOutcome)
    (w : World) (parameters : loc) (options : option loc) :
  steps [parameters] w (Base.post encode client transport w parameters options).1.
Proof.
  unfold Base.post, Base.or_fresh. destruct options as [o|].
  - eapply steps_trans; [apply steps_write_options|apply steps_ajax|].
    intros l _ [Hin|?]; [by apply not_elem_of_nil in Hin|done].
  - eapply steps_trans; [apply steps_alloc_options| |].
    + eapply steps_trans; [apply steps_write_options|apply steps_ajax|].
      intros l _ [Hin|Hin]; [by apply not_elem_of_nil in Hin|apply Hin].
    + intros l _ [Hin|?]; [by apply not_elem_of_nil in Hin|done].
Qed.

(** A step that changes a new object only changes none of the old. *)
Lemma steps_new (w w1 w2 : World) (l : loc) :
  steps [] w w1 → steps [l] w1 w2 → (length (objects w) ≤ l)%nat → steps [] w w2.
Proof.
  intros H1 H2 Hl. eapply steps_trans; [apply H1|apply H2|].
  intros l' Hl' [Hin|Hin]; [done|]. apply list_elem_of_singleton in Hin. lia.
Qed.

Lemma steps_getToken (encode : form → Body) (client : Client)
    (transport : nat → AxiosOutcome) (w : World) (tokenType : string) (extra : Extra) :
  steps [] w (Base.getToken encode client transport w tokenType extra).1.
Proof.
  unfold Base.getToken. destruct (truthy _); [apply steps_refl|].
  set (ps := obj_assign _ _).
  pose proof (steps_alloc_obj w ps) as Ha.
  assert ((alloc_obj w ps).2 = length (objects w)) as Hl by done.
  destruct (alloc_obj w ps) as [w1 l]. cbn [fst snd] in *.
  pose proof (steps_get encode client transport w1 l None) as Hg.
  destruct (Base.get encode client transport w1 l None) as [w2 r]. cbn [fst] in Hg.
  assert (steps [] w w2) as H2 by (eapply steps_new; [done..|lia]).
  destruct r as [res|e| |e]; cbn [fst]; try done.
  destruct (truthy (prop (prop res "query") "tokens")); [|done].
  assert (steps [] w (set_tokens w2 (prop (prop res "query") "tokens"))) as H3.
  { eapply steps_trans; [apply H2|apply steps_set_tokens|]. intros ? _ [?|?]; done. }
  by destruct (truthy (prop _ _)).
Qed.
Lemma steps_nil (c : list loc) (w w' : World) : steps [] w w' → steps c w w'.
Proof. intros H. eapply steps_weaken; [apply H|]. intros l _ Hin. by apply not_elem_of_nil in Hin. Qed.

Lemma steps_then (c : list loc) (w1 w2 w3 : World) :
  steps c w1 w2 → steps c w2 w3 → steps c w1 w3.
Proof. intros H1 H2. eapply steps_trans; [apply H1|apply H2|]. by intros l _ [?|?]. Qed.

Lemma steps_or_fresh (w : World) (options : option loc) :
  steps [] w (Base.or_fresh w options).1.
Proof. destruct options; [apply steps_refl|apply steps_alloc_options]. Qed.

(** One attempt of [postWithToken]: the token is put into the
    parameters, which are then posted. *)
Lemma steps_attempt (encode : form → Body) (client : Client)
    (transport : nat → AxiosOutcome) (w : World) (params : loc) (token : JsVal)
    (options : option loc) :
  steps [params] w
    (Base.post encode client transport (set_prop w params "token" token) params options).1.
Proof. eapply steps_then; [apply steps_set_prop|apply steps_post]. Qed.

Lemma steps_postWithToken (client : Client) (transport : nat → AxiosOutcome)
    (w : World) (tokenType : string) (params : loc) (options : option loc) :
  steps [params] w (MWCCStatic.postWithToken client transport w tokenType params options).1
  ∧ steps [params] w (MWCC.postWithToken client transport w tokenType params options).1.
Proof.
  split.
  - unfold MWCCStatic.postWithToken.
    pose proof (steps_or_fresh w options) as Ho.
    destruct (Base.or_fresh w options) as [wo o]. cbn [fst] in Ho.
    set (ap := [("assert", _); ("assertuser", _)]).
    pose proof (steps_alloc_obj wo ap) as Ha.
    destruct (alloc_obj wo ap) as [wa a]. cbn [fst] in Ha.
    pose proof (steps_getToken BodySearchParams client transport wa tokenType (ExtraObject a))
      as H1. unfold MWCCStatic.getToken.
    destruct (Base.getToken BodySearchParams client transport wa tokenType (ExtraObject a))
      as [w1 r1]. cbn [fst] in H1.
    assert (steps [params] w w1) as Hw1.
    { apply steps_nil. eapply steps_then; [apply Ho|]. by eapply steps_then. }
    destruct r1 as [token|e| |e]; cbn [fst]; try done.
    pose proof (steps_attempt BodySearchParams client transport w1 params token (Some o))
      as H2. unfold MWCCStatic.post.
    destruct (Base.post BodySearchParams client transport (set_prop w1 params "token" token)
                params (Some o)) as [w2 r2]. cbn [fst] in H2.
    assert (steps [params] w w2) as Hw2 by (by eapply steps_then).
    destruct r2 as [v|err| |e]; cbn [fst]; try done.
    destruct (is_str (error_code err) "badtoken"); [|done].
    unfold MWCCStatic.badToken.
    set (w3 := set_prop (Base.badToken w2 tokenType) params "token" JUndef).
    assert (steps [params] w w3) as Hw3.
    { eapply steps_then; [apply Hw2|]. eapply steps_then; [|apply steps_set_prop].
      apply steps_nil, steps_badToken. }
    pose proof (steps_getToken BodySearchParams client transport w3 tokenType (ExtraObject a))
      as H4.
    destruct (Base.getToken BodySearchParams client transport w3 tokenType (ExtraObject a))
      as [w4 r4]. cbn [fst] in H4.
    assert (steps [params] w w4) as Hw4.
    { eapply steps_then; [apply Hw3|]. by apply steps_nil. }
    destruct r4 as [t|e| |e]; cbn [fst]; try done.
    pose proof (steps_attempt BodySearchParams client transport w4 params t (Some o)) as H5.
    destruct (Base.post BodySearchParams client transport (set_prop w4 params "token" t)
                params (Some o)) as [w5 r5]. cbn [fst] in H5.
    assert (steps [params] w w5) as Hw5 by (by eapply steps_then).
    by destruct r5.
  - unfold MWCC.postWithToken.
    pose proof (steps_or_fresh w options) as Ho.
    destruct (Base.or_fresh w options) as [wo o]. cbn [fst] in Ho.
    set (ap := [("assert", _); ("assertuser", _)]).
    pose proof (steps_alloc_obj wo ap) as Ha.
    destruct (alloc_obj wo ap) as [wa a]. cbn [fst] in Ha.
    pose proof (steps_getToken BodyString client transport wa tokenType (ExtraObject a))
      as H1. unfold MWCC.getToken.
    destruct (Base.getToken BodyString client transport wa tokenType (ExtraObject a))
      as [w1 r1]. cbn [fst] in H1.
    assert (steps [params] w w1) as Hw1.
    { apply steps_nil. eapply steps_then; [apply Ho|]. by eapply steps_then. }
    destruct r1 as [token|e| |e]; cbn [fst]; try done.
    pose proof (steps_attempt BodyString client transport w1 params token (Some o))
      as H2. unfold MWCC.post.
    destruct (Base.post BodyString client transport (set_prop w1 params "token" token)
                params (Some o)) as [w2 r2]. cbn [fst] in H2.
    assert (steps [params] w w2) as Hw2 by (by eapply steps_then).
    destruct r2 as [v|err| |e]; cbn [fst]; try done.
    destruct (is_str (error_code err) "badtoken"); [|done].
    unfold MWCC.badToken.
    set (w3 := set_prop (Base.badToken w2 tokenType) params "token" JUndef).
    assert (steps [params] w w3) as Hw3.
    { eapply steps_then; [apply Hw2|]. eapply steps_then; [|apply steps_set_prop].
      apply steps_nil, steps_badToken. }
    pose proof (steps_getToken BodyString client transport w3 tokenType (ExtraObject a))
      as H4.
    destruct (Base.getToken BodyString client transport w3 tokenType (ExtraObject a))
      as [w4 r4]. cbn [fst] in H4.
    assert (steps [params] w w4) as Hw4.
    { eapply steps_then; [apply Hw3|]. by apply steps_nil. }
    destruct r4 as [t|e| |e]; cbn [fst]; try done.
    pose proof (steps_attempt BodyString client transport w4 params t (Some o)) as H5.
    destruct (Base.post BodyString client transport (set_prop w4 params "token" t)
                params (Some o)) as [w5 r5]. cbn [fst] in H5.
    assert (steps [params] w w5) as Hw5 by (by eapply steps_then).
    by destruct r5.
Qed.
Lemma settle_caught (out : AxiosOutcome) : caught (settle out) = settle out.
Proof. by destruct (settle_settled out) as [[v ->]|[e ->]]. Qed.

Lemma cached_alloc_obj (w : World) (o : obj) (tokenType : string) :
  cached (alloc_obj w o).1 tokenType = cached w tokenType.
Proof. done. Qed.

Lemma read_obj_new (w : World) (o : obj) : read_obj (alloc_obj w o).1 (length (objects w)) = o.
Proof. unfold read_obj, alloc_obj. cbn [fst objects]. by apply list_lookup_total_middle. Qed.

(** [create] with a cached token, when the POST is not rejected with
    [badtoken]. *)
Lemma create_hit (client : Client) (transport : nat → AxiosOutcome)
    (w : World) (title : JsVal) (params : loc) (content assertUser token : JsVal) :
  cached w "csrf" = Some token →
  is_badtoken (settle (transport (length (sent w)))) = false →
  let merged := obj_assign (create_fields title content assertUser) (read_obj w params) in
  MWCCStatic.create client transport w title params content assertUser
  = (after_token_post BodySearchParams client (alloc_obj w merged).1 (length (objects w)) token,
     settle (transport (length (sent w))))
  ∧ MWCC.create client transport w title params content assertUser
    = (after_token_post BodyString client (alloc_obj w merged).1 (length (objects w)) token,
       settle (transport (length (sent w)))).
Proof.
  intros Hc Hbad merged.
  destruct (postWithToken_hit client transport (alloc_obj w merged).1 "csrf"
              (length (objects w)) token) as [Hs Hm]; [|done|done|].
  { unfold alloc_obj. cbn [fst objects]. rewrite length_app. simpl. lia. }
  split.
  - unfold MWCCStatic.create, MWCCStatic.postWithEditToken.
    fold (create_fields title content assertUser). fold merged.
    change (alloc_obj w merged) with ((alloc_obj w merged).1, length (objects w)).
    cbv iota beta. rewrite Hs. by rewrite settle_caught.
  - unfold MWCC.create, MWCC.postWithEditToken.
    fold (create_fields title content assertUser). fold merged.
    change (alloc_obj w merged) with ((alloc_obj w merged).1, length (objects w)).
    cbv iota beta. rewrite Hm. by rewrite settle_caught.
Qed.

Lemma create_fields_wf (title content assertUser : JsVal) :
  obj_wf (create_fields title content assertUser).
Proof. by_evaluation. Qed.

Lemma parameter_assign (fields ps : obj) (k : string) (v : JsVal) :
  obj_wf ps → parameter ps k = Some v → parameter (obj_assign fields ps) k = Some v.
Proof.
  intros Hwf. unfold parameter. rewrite obj_get_assign by done.
  by destruct (obj_get ps k).
Qed.

Lemma parameter_assign_absent (fields ps : obj) (k : string) :
  obj_wf ps → k ∉ keys ps → parameter (obj_assign fields ps) k = parameter fields k.
Proof.
  intros Hwf Hk. unfold parameter. rewrite obj_get_assign by done.
  by rewrite obj_get_None.
Qed.

(** X11: with a cached csrf token, [create] sends one POST.  Its payload
    ends with the token, holds [action=edit], the title as text and
    [createonly=true], and holds the caller's parameters, which take
    precedence over the fields that [create] sets: a parameter of the
    caller under [action], [title], [text] or [createonly] replaces the
    value of [create]. *)
Theorem create_request (client : Client) (transport : nat → AxiosOutcome)
    (w : World) (title : JsVal) (params : loc) (content assertUser : JsVal) (token : string)
    (encode : form → Body) (run : World * Result JsVal) :
  (encode = BodySearchParams
   ∧ run = MWCCStatic.create client transport w title params content assertUser)
  ∨ (encode = BodyString
     ∧ run = MWCC.create client transport w title params content assertUser) →
  obj_wf (read_obj w params) → obj_wf (defaults_data client) →
  "token" ∉ keys (defaults_data client) →
  cached w "csrf" = Some (JStr token) →
  is_badtoken (settle (transport (length (sent w)))) = false →
  ∃ request,
    sent run.1 = sent w ++ [request]
    ∧ method request = Some "POST"
    ∧ last (payload request) = Some ("token", JStr token)
    ∧ (∀ k v, k ≠ "token" → parameter (read_obj w params) k = Some v →
         obj_get (payload request) k = Some (as_text v))
    ∧ (∀ k v, k ≠ "token" → k ∉ keys (read_obj w params) →
         parameter (create_fields title content assertUser) k = Some v →
         obj_get (payload request) k = Some (as_text v))
    ∧ parameter (create_fields title content assertUser) "action" = Some (JStr "edit")
    ∧ parameter (create_fields title content assertUser) "title" = Some (JStr (to_string title))
    ∧ parameter (create_fields title content assertUser) "createonly" = Some (JBool true)
    ∧ run.2 = settle (transport (length (sent w))).
Proof.
  intros Hrun Hps Hcd Htok Hc Hbad.
  set (merged := obj_assign (create_fields title content assertUser) (read_obj w params)).
  destruct (create_hit client transport w title params content assertUser (JStr token))
    as [Hstatic Hmwcc]; [done..|].
  fold merged in Hstatic, Hmwcc.
  assert (token ≠ EmptyString) as Hne.
  { unfold cached in Hc. destruct (truthy _) eqn:E; [|done]. injection Hc as Hc.
    rewrite Hc in E. by destruct token. }
  assert (run = (after_token_post encode client (alloc_obj w merged).1 (length (objects w))
                   (JStr token), settle (transport (length (sent w))))) as ->.
  { by destruct Hrun as [[-> ->]|[-> ->]]. }
  assert (encode = BodyString ∨ encode = BodySearchParams) as Henc.
  { destruct Hrun as [[-> _]|[-> _]]; auto. }
  assert (obj_wf merged) as Hwf by apply obj_assign_wf, create_fields_wf.
  eexists. cbn [fst snd after_token_post sent tokens]. rewrite read_obj_new.
  split_and!; try done.
  - apply payload_post_last; try done. rewrite obj_get_set. by rewrite decide_True.
  - intros k v Hk Hv. rewrite payload_post; [|done|by apply obj_set_wf|done].
    rewrite supplied_set_token by done. unfold supplied.
    unfold merged. by rewrite (parameter_assign _ _ k v).
  - intros k v Hk Habs Hv. rewrite payload_post; [|done|by apply obj_set_wf|done].
    rewrite supplied_set_token by done. unfold supplied.
    unfold merged. rewrite parameter_assign_absent by done. by rewrite Hv.
  - unfold parameter. simpl. by destruct (to_string title).
Qed.
Lemma steps_create (client : Client) (transport : nat → AxiosOutcome)
    (w : World) (title : JsVal) (params : loc) (content assertUser : JsVal) :
  steps [] w (MWCCStatic.create client transport w title params content assertUser).1
  ∧ steps [] w (MWCC.create client transport w title params content assertUser).1.
Proof.
  split.
  - unfold MWCCStatic.create, MWCCStatic.postWithEditToken.
    set (merged := obj_assign _ _).
    pose proof (steps_alloc_obj w merged) as Ha.
    change (alloc_obj w merged) with ((alloc_obj w merged).1, length (objects w)).
    cbv iota beta.
    destruct (steps_postWithToken client transport (alloc_obj w merged).1 "csrf"
                (length (objects w)) None) as [Hp _].
    destruct (MWCCStatic.postWithToken _ _ _ _ _ _) as [w2 r]. cbn [fst] in *.
    eapply steps_new; [apply Ha|apply Hp|lia].
  - unfold MWCC.create, MWCC.postWithEditToken.
    set (merged := obj_assign _ _).
    pose proof (steps_alloc_obj w merged) as Ha.
    change (alloc_obj w merged) with ((alloc_obj w merged).1, length (objects w)).
    cbv iota beta.
    destruct (steps_postWithToken client transport (alloc_obj w merged).1 "csrf"
                (length (objects w)) None) as [_ Hp].
    destruct (MWCC.postWithToken _ _ _ _ _ _) as [w2 r]. cbn [fst] in *.
    eapply steps_new; [apply Ha|apply Hp|lia].
Qed.

Lemma truthy_first_of (pages : JsVal) : truthy (first_of pages) = true → truthy pages = true.
Proof. by destruct pages as [| |[|]|[| |]|[| |]|[|c s]| |]. Qed.

(** [edit] after its request for the revision has resolved. *)
Lemma edit_resolved (client : Client) (transport : nat → AxiosOutcome) (anon : bool)
    (transform : World → JsVal → World * Result JsVal) (w : World) (title res : JsVal) :
  settle (transport (length (sent w))) = Resolved res →
  MWCCStatic.edit client transport anon transform w title =
  let w1 := after_get client w (revisions_query title) in
  let page := first_page res in
  if negb (truthy page) then (w1, Rejected empty_result)
  else if truthy (prop page "invalidreason") then
    (w1, Rejected (invalidtitle (prop page "invalidreason")))
  else if truthy (prop page "missing") then (w1, Rejected nocreate_missing)
  else
    let revision := revision_of page in
    match MWCCStatic.main_content revision with
    | Resolved content =>
        if negb (truthy revision) || negb (truthy (prop revision "timestamp"))
           || is_undefined content
        then (w1, Rejected empty_result)
        else
          let '(w2, r) :=
            transform w1 (JObj [("timestamp", prop revision "timestamp");
                                ("content", content)]) in
          match r with
          | Resolved result =>
              let '(w3, merged) :=
                alloc_obj w2
                  (obj_assign (edit_fields anon title (prop revision "timestamp")
                                 (prop res "curtimestamp"))
                     (edit_entries result)) in
              let '(w4, r) := MWCCStatic.postWithEditToken client transport w3 merged None in
              (w4, caught r)
          | Rejected e | Thrown e => (w2, Rejected e)
          | Pending => (w2, Pending)
          end
    | Rejected e | Thrown e => (w1, Rejected e)
    | Pending => (w1, Pending)
    end.
Proof.
  intros Hres. unfold MWCCStatic.edit, MWCCStatic.get.
  fold (revisions_query title).
  pose proof (get_alloc BodySearchParams client transport w (revisions_query title)) as Hget.
  destruct (alloc_obj w (revisions_query title)) as [w1 l]. cbn [fst snd] in Hget.
  rewrite Hget, Hres.
  apply settle_resolved in Hres as (_ & _ & -> & _).
  cbv zeta. unfold first_page.
  set (pages := prop (prop res "query") "pages").
  destruct (truthy (first_of pages)) eqn:Ep.
  - rewrite (truthy_first_of pages Ep). cbn [negb orb]. done.
  - by rewrite orb_true_r.
Qed.
(** X13: [edit] posts nothing unless it has read a revision to start
    from.  It first sends one GET for the revision of the page.  When
    that request fails, [edit] rejects with its error.  When the
    response has no first page, or the page has no revision, no
    timestamp or no content, it rejects with [ok-but-empty]; when the
    page is invalid, with [invalidtitle] and the reason; when the page
    is missing, with [nocreate-missing]; when the revision has slots
    without a main slot, with the TypeError.  In each of these cases the
    GET is the only request, and the callback has not run. *)
Theorem edit_rejects_without_post (client : Client) (transport : nat → AxiosOutcome)
    (anon : bool) (transform : World → JsVal → World * Result JsVal)
    (w : World) (title : JsVal) :
  let run := MWCCStatic.edit client transport anon transform w title in
  let out := settle (transport (length (sent w))) in
  let w1 := after_get client w (revisions_query title) in
  sent w1 = sent w ++ [get_request client (revisions_query title) (aborts w)]
  ∧ (∀ e, out = Rejected e → run = (w1, Rejected e))
  ∧ (∀ res, out = Resolved res →
       let page := first_page res in
       let revision := revision_of page in
       (truthy page = false → run = (w1, Rejected empty_result))
       ∧ (truthy page = true → truthy (prop page "invalidreason") = true →
          run = (w1, Rejected (invalidtitle (prop page "invalidreason"))))
       ∧ (truthy page = true → truthy (prop page "invalidreason") = false →
          truthy (prop page "missing") = true →
          run = (w1, Rejected nocreate_missing))
       ∧ (truthy page = true → truthy (prop page "invalidreason") = false →
          truthy (prop page "missing") = false →
          (MWCCStatic.main_content revision = Thrown TypeError →
           run = (w1, Rejected TypeError))
          ∧ (∀ content, MWCCStatic.main_content revision = Resolved content →
               truthy revision = false ∨ truthy (prop revision "timestamp") = false
               ∨ content = JUndef →
               run = (w1, Rejected empty_result)))).
Proof.
  intros run out w1. split; [done|]. split.
  - intros e He. unfold run, MWCCStatic.edit, MWCCStatic.get.
    fold (revisions_query title).
    pose proof (get_alloc BodySearchParams client transport w (revisions_query title))
      as Hget.
    destruct (alloc_obj w (revisions_query title)) as [w0 l]. cbn [fst snd] in Hget.
    rewrite Hget. fold out. by rewrite He.
  - intros res Hres page revision. unfold run.
    rewrite (edit_resolved client transport anon transform w title res Hres).
    cbv zeta. fold w1 page revision. split_and!.
    + by intros ->.
    + by intros -> ->.
    + by intros -> -> ->.
    + intros -> -> ->. cbn [negb]. split; [by intros ->|].
      intros content -> Hor.
      destruct Hor as [-> | [-> | ->]]; cbn [negb orb is_undefined];
        by rewrite ?orb_true_r.
Qed.
Lemma cached_nonempty (w : World) (tokenType token : string) :
  cached w tokenType = Some (JStr token) → token ≠ EmptyString.
Proof.
  unfold cached. destruct (truthy _) eqn:E; [|done]. intros [= Hc].
  rewrite Hc in E. by destruct token.
Qed.

(** X14: when [edit] has read a revision with a timestamp and a content
    and the callback has returned, it posts once (the csrf token being
    cached): the payload ends with the token, holds the entries of the
    callback's result, or its text under [text] when the result is not
    an object, and, where the result has no entry, [action=edit], the
    title, [nocreate=true], the timestamp of the revision under
    [basetimestamp], the [curtimestamp] of the response under
    [starttimestamp], and [assert=user] unless the client is
    anonymous. *)
Theorem edit_posts_revision (client : Client) (transport : nat → AxiosOutcome)
    (anon : bool) (transform : World → JsVal → World * Result JsVal)
    (w w2 : World) (title res content result : JsVal) (token : string) :
  obj_wf (defaults_data client) → "token" ∉ keys (defaults_data client) →
  settle (transport (length (sent w))) = Resolved res →
  let page := first_page res in
  let revision := revision_of page in
  let basetimestamp := prop revision "timestamp" in
  let fields := edit_fields anon title basetimestamp (prop res "curtimestamp") in
  truthy page = true → truthy (prop page "invalidreason") = false →
  truthy (prop page "missing") = false →
  MWCCStatic.main_content revision = Resolved content →
  truthy basetimestamp = true → is_undefined content = false →
  transform (after_get client w (revisions_query title))
    (JObj [("timestamp", basetimestamp); ("content", content)]) = (w2, Resolved result) →
  obj_wf (edit_entries result) →
  cached w2 "csrf" = Some (JStr token) →
  is_badtoken (settle (transport (length (sent w2)))) = false →
  let run := MWCCStatic.edit client transport anon transform w title in
  ∃ request,
    sent run.1 = sent w2 ++ [request]
    ∧ method request = Some "POST"
    ∧ last (payload request) = Some ("token", JStr token)
    ∧ (∀ k v, k ≠ "token" → parameter (edit_entries result) k = Some v →
         obj_get (payload request) k = Some (as_text v))
    ∧ (∀ k v, k ≠ "token" → k ∉ keys (edit_entries result) → parameter fields k = Some v →
         obj_get (payload request) k = Some (as_text v))
    ∧ parameter fields "action" = Some (JStr "edit")
    ∧ parameter fields "nocreate" = Some (JBool true)
    ∧ parameter fields "basetimestamp" = normalized basetimestamp
    ∧ parameter fields "starttimestamp"
      = parameter [("starttimestamp", prop res "curtimestamp")] "starttimestamp"
    ∧ parameter fields "assert" = (if anon then None else Some (JStr "user"))
    ∧ (is_object result = false → edit_entries result = [("text", JStr (to_string result))])
    ∧ run.2 = settle (transport (length (sent w2))).
Proof.
  intros Hcd Htok Hres page revision basetimestamp fields Hpage Hinv Hmiss Hcontent Hts Hdef
    Htrans Hwf Hc Hbad run.
  assert (truthy revision = true) as Hrev.
  { unfold basetimestamp, prop in Hts. by destruct revision. }
  set (merged := obj_assign fields (edit_entries result)).
  assert (run = (after_token_post BodySearchParams client (alloc_obj w2 merged).1
                   (length (objects w2)) (JStr token),
                 settle (transport (length (sent w2))))) as ->.
  { unfold run. rewrite (edit_resolved client transport anon transform w title res Hres).
    cbv zeta. fold page revision basetimestamp.
    rewrite Hpage, Hinv, Hmiss, Hcontent, Hrev, Hts, Hdef. cbn [negb orb].
    rewrite Htrans. fold fields merged.
    change (alloc_obj w2 merged) with ((alloc_obj w2 merged).1, length (objects w2)).
    cbv iota beta. unfold MWCCStatic.postWithEditToken.
    destruct (postWithToken_hit client transport (alloc_obj w2 merged).1 "csrf"
                (length (objects w2)) (JStr token)) as [-> _]; [|done|done|].
    { unfold alloc_obj. cbn [fst objects]. rewrite length_app. simpl. lia. }
    by rewrite settle_caught. }
  assert (token ≠ EmptyString) as Hne by (by eapply cached_nonempty).
  assert (obj_wf merged) as Hm.
  { apply obj_assign_wf. unfold fields, edit_fields. by_evaluation. }
  eexists. cbn [fst snd after_token_post sent tokens]. rewrite read_obj_new.
  split_and!; try done.
  - apply payload_post_last; auto. rewrite obj_get_set. by rewrite decide_True.
  - intros k v Hk Hv. rewrite payload_post; [|auto|by apply obj_set_wf|done].
    rewrite supplied_set_token by done. unfold supplied, merged.
    by rewrite (parameter_assign _ _ k v).
  - intros k v Hk Habs Hv. rewrite payload_post; [|auto|by apply obj_set_wf|done].
    rewrite supplied_set_token by done. unfold supplied, merged.
    rewrite parameter_assign_absent by done. by rewrite Hv.
  - unfold parameter. simpl. destruct basetimestamp as [| |[|]| | |[|c s]| |]; done.
  - by destruct anon.
  - intros Ho. unfold edit_entries. by rewrite Ho.
Qed.
(** [post] with options of the caller that hold no [data]. *)
Lemma post_at_plain (encode : form → Body) (client : Client) (transport : nat → AxiosOutcome)
    (w : World) (parameters options : loc) :
  (parameters < length (objects w))%nat →
  (options < length (configs w))%nat →
  data (read_options w options) = BodyNone →
  let request := post_request_with encode client (read_options w options)
                   (read_obj w parameters) (aborts w) in
  Base.post encode client transport w parameters (Some options) =
  (mkWorld (<[parameters := ajax_parameters (read_obj w parameters)]> (objects w))
     (<[options := request]> (configs w)) (tokens w) (S (aborts w)) (sent w ++ [request]),
   settle (transport (length (sent w)))).
Proof.
  intros Hp Ho Hdata request. unfold Base.post, Base.or_fresh.
  set (w2 := write_options w _ _).
  assert (read_options w2 options = with_method (read_options w options) "POST") as Hread.
  { unfold w2. by rewrite read_write_options. }
  rewrite (ajax_sends encode client transport w2 parameters options request).
  - f_equal. apply world_eq; try done.
    unfold w2, write_options. cbn [configs]. by rewrite list_insert_insert_eq.
  - done.
  - unfold w2. by rewrite length_configs_write_options.
  - rewrite Hread. unfold ajax_request, method_of. cbn [method with_method str_or data].
    assert (is_GET "POST" = false) as -> by done. by rewrite Hdata.
Qed.

Lemma payload_post_request_with (encode : form → Body) (client : Client) (options : Options)
    (ps : obj) (controller controller' : nat) :
  payload (post_request_with encode client options ps controller)
  = payload (post_request encode client ps controller').
Proof. done. Qed.

(** X15: [newSection] hands [additionalParams] to [postWithEditToken] as
    the options of the request, not as parameters.  With a cached csrf
    token it sends one POST whose payload is that of a call without
    additional parameters: the five fields of the section, the defaults
    and the token, which ends it.  The object that was passed is
    overwritten with the method, the body, the url and the signal of
    the request. *)
Theorem newSection_additional_params_not_sent (client : Client)
    (transport : nat → AxiosOutcome) (w : World) (title header content : JsVal)
    (additionalParams : loc) (token : string) :
  (additionalParams < length (configs w))%nat →
  data (read_options w additionalParams) = BodyNone →
  "token" ∉ keys (defaults_data client) →
  cached w "csrf" = Some (JStr token) →
  is_badtoken (settle (transport (length (sent w)))) = false →
  let run := MWCCStatic.newSection client transport w title header content
               (Some additionalParams) in
  let run' := MWCCStatic.newSection client transport w title header content None in
  ∃ request request',
    sent run.1 = sent w ++ [request]
    ∧ sent run'.1 = sent w ++ [request']
    ∧ method request = Some "POST"
    ∧ payload request = payload request'
    ∧ payload request'
      = payload (post_request BodySearchParams client
                   (obj_set (section_fields title header content) "token" (JStr token)) 0)
    ∧ last (payload request) = Some ("token", JStr token)
    ∧ read_options run.1 additionalParams = request
    ∧ run.2 = settle (transport (length (sent w)))
    ∧ run'.2 = run.2.
Proof.
  intros Ho Hdata Htok Hc Hbad run run'.
  set (fields := section_fields title header content).
  assert (token ≠ EmptyString) as Hne by (by eapply cached_nonempty).
  set (w1 := (alloc_obj w fields).1).
  assert (run' = (after_token_post BodySearchParams client w1 (length (objects w)) (JStr token),
                  settle (transport (length (sent w))))) as Hrun'.
  { unfold run', MWCCStatic.newSection, MWCCStatic.postWithEditToken.
    change (obj_assign _ []) with fields.
    change (alloc_obj w fields) with (w1, length (objects w)). cbv iota beta.
    destruct (postWithToken_hit client transport w1 "csrf" (length (objects w)) (JStr token))
      as [-> _]; [|done|done|done].
    unfold w1, alloc_obj. cbn [fst objects]. rewrite length_app. simpl. lia. }
  set (ps := obj_set fields "token" (JStr token)).
  set (request := post_request_with BodySearchParams client (read_options w additionalParams)
                    ps (aborts w)).
  assert (run = (mkWorld (<[length (objects w) := ajax_parameters ps]> (objects w1)
                          ++ [assert_params fields])
                   (<[additionalParams := request]> (configs w)) (tokens w) (S (aborts w))
                   (sent w ++ [request]),
                 settle (transport (length (sent w))))) as Hrun.
  { unfold run, MWCCStatic.newSection, MWCCStatic.postWithEditToken.
    change (obj_assign _ []) with fields.
    change (alloc_obj w fields) with (w1, length (objects w)). cbv iota beta.
    unfold MWCCStatic.postWithToken, Base.or_fresh, alloc_obj, MWCCStatic.getToken.
    rewrite (getToken_hit _ _ _ _ _ _ (JStr token)) by done.
    unfold MWCCStatic.post.
    assert (read_obj w1 (length (objects w)) = fields) as Hf by apply read_obj_new.
    rewrite Hf. fold (assert_params fields).
    set (w0 := mkWorld _ _ _ _ _).
    assert (read_obj (set_prop w0 (length (objects w)) "token" (JStr token))
              (length (objects w)) = ps) as Hset.
    { unfold set_prop. rewrite read_write_obj.
      - assert (read_obj w0 (length (objects w)) = fields) as ->; [|done].
        unfold w0, read_obj. cbn [objects].
        rewrite lookup_total_app_l
          by (unfold w1, alloc_obj; cbn [fst objects]; rewrite length_app; simpl; lia).
        apply Hf.
      - unfold w0, w1, alloc_obj. cbn [fst objects]. rewrite !length_app. simpl. lia. }
    rewrite post_at_plain.
    - rewrite Hset. cbn zeta.
      assert (read_options (set_prop w0 (length (objects w)) "token" (JStr token))
                additionalParams = read_options w additionalParams) as -> by done.
      assert (aborts (set_prop w0 (length (objects w)) "token" (JStr token)) = aborts w)
        as -> by done.
      fold request.
      change (sent (set_prop w0 (length (objects w)) "token" (JStr token))) with (sent w).
      destruct (settle_settled (transport (length (sent w)))) as [[v Hv]|[err Hv]];
        rewrite Hv in *.
      + f_equal. apply world_eq; try done.
        unfold set_prop, write_obj, w0. cbn [objects].
        rewrite list_insert_insert_eq.
        by rewrite insert_app_l
          by (unfold w1, alloc_obj; cbn [fst objects]; rewrite length_app; simpl; lia).
      + simpl in Hbad. rewrite Hbad. f_equal. apply world_eq; try done.
        unfold set_prop, write_obj, w0. cbn [objects].
        rewrite list_insert_insert_eq.
        by rewrite insert_app_l
          by (unfold w1, alloc_obj; cbn [fst objects]; rewrite length_app; simpl; lia).
    - unfold set_prop. rewrite length_objects_write_obj.
      unfold w0, w1, alloc_obj. cbn [fst objects]. rewrite !length_app. simpl. lia.
    - done.
    - done. }
  rewrite Hrun, Hrun'. eexists _, _. cbn [fst snd after_token_post sent configs].
  unfold w1 at 2 3. rewrite read_obj_new. fold ps.
  split_and!; try done.
  - unfold request. rewrite (payload_post_request_with _ _ _ _ _ 0%nat).
    apply payload_post_last; auto.
  - unfold read_options. cbn [configs]. by rewrite list_lookup_total_insert_eq.
Qed.
Lemma update_eq (cd : Config.ConfigData) (name : Config.ConfigName) (v : Config.Val) :
  Config.update cd name v name = v.
Proof. unfold Config.update. by rewrite decide_True. Qed.

Lemma update_ne (cd : Config.ConfigData) (name n : Config.ConfigName) (v : Config.Val) :
  n ≠ name → Config.update cd name v n = cd n.
Proof. intros Hne. unfold Config.update. by rewrite decide_False. Qed.

(** X16: [config.set] and [config.get].  A value is set exactly when the
    key holds a value of the same [typeof]; a value that is not set
    leaves the store as it was; after a value is set, [config.get]
    returns it for the key when it is a string other than the
    temporary one, a number other than NaN, or an array that is empty
    or starts with such a string or number, and returns [null] when it
    is anything else; the other keys read as before.  Before anything
    is set, every key reads [null] and none exists. *)
Theorem config_set_get (cd : Config.ConfigData) (name : Config.ConfigName) (v : Config.Val) :
  let cd' := (Config.set cd name v).1 in
  let ok := (Config.set cd name v).2 in
  (ok = true ↔ Config.typeof (cd name) ≠ Config.TUndefined
               ∧ Config.typeof (cd name) = Config.typeof v)
  ∧ (ok = false → cd' = cd)
  ∧ (ok = true →
     Config.get cd' name = Config.validateConfigValue v
     ∧ Config.exists_ cd' name
       = (if Config.validateConfigValue v is Config.VNull then false else true)
     ∧ ∀ other, other ≠ name → Config.get cd' other = Config.get cd other)
  ∧ (∀ s, s ≠ Config.unset →
       Config.validateConfigValue (Config.VStr s) = Config.VStr s
       ∧ ∀ a, Config.validateConfigValue (Config.VArr (Config.VStr s :: a))
              = Config.VArr (Config.VStr s :: a))
  ∧ (∀ n, Config.validateConfigValue (Config.VNum (Config.Int n)) = Config.VNum (Config.Int n)
          ∧ ∀ a, Config.validateConfigValue (Config.VArr (Config.VNum (Config.Int n) :: a))
                 = Config.VArr (Config.VNum (Config.Int n) :: a))
  ∧ Config.validateConfigValue (Config.VArr []) = Config.VArr []
  ∧ Config.validateConfigValue (Config.VStr Config.unset) = Config.VNull
  ∧ Config.validateConfigValue (Config.VNum Config.NaN) = Config.VNull
  ∧ (∀ o, Config.validateConfigValue (Config.VObj o) = Config.VNull)
  ∧ (∀ n, Config.get Config.initial n = Config.VNull
          ∧ Config.exists_ Config.initial n = false).
Proof.
  intros cd' ok. subst cd' ok.
  assert ((Config.set cd name v).2
          = bool_decide (Config.typeof (cd name) ≠ Config.TUndefined)
            && bool_decide (Config.typeof (cd name) = Config.typeof v)) as Hok.
  { unfold Config.set. by destruct (_ && _). }
  split_and!.
  - rewrite Hok, andb_true_iff, !bool_decide_eq_true. done.
  - unfold Config.set. by destruct (_ && _).
  - unfold Config.set. destruct (_ && _); [|done]. intros _. cbn [fst].
    unfold Config.get, Config.exists_. rewrite update_eq.
    split_and!; [done|done|]. intros other Hne. by rewrite update_ne.
  - intros s Hs. cbn [Config.validateConfigValue].
    rewrite bool_decide_eq_true_2 by done. done.
  - done.
  - done.
  - cbn [Config.validateConfigValue]. by rewrite bool_decide_eq_false_2 by (by intros []).
  - done.
  - done.
  - intros n. by destruct n.
Qed.
Lemma set_value_at (cd : Config.ConfigData) (n : Config.ConfigName) (v : Config.Val) :
  Config.set_value cd (n, v) n = stored (cd n) v.
Proof.
  unfold Config.set_value, stored, Config.set. cbn [fst snd].
  destruct v; try done; destruct (_ && _); cbn [fst]; by rewrite ?update_eq.
Qed.

Lemma set_value_other (cd : Config.ConfigData) (n m : Config.ConfigName) (v : Config.Val) :
  n ≠ m → Config.set_value cd (m, v) n = cd n.
Proof.
  intros Hne. unfold Config.set_value, Config.set. cbn [fst snd].
  destruct v; try done; destruct (_ && _); cbn [fst]; by rewrite ?update_ne.
Qed.

Lemma foldl_set_value_other (l : list (Config.ConfigName * Config.Val))
    (cd : Config.ConfigData) (n : Config.ConfigName) :
  n ∉ l.*1 → foldl Config.set_value cd l n = cd n.
Proof.
  revert cd. induction l as [|[m v] l IH]; intros cd Hn; [done|].
  cbn [foldl]. rewrite fmap_cons in Hn. cbn [fst] in Hn.
  apply not_elem_of_cons in Hn as [Hne Hn]. rewrite IH by done.
  by apply set_value_other.
Qed.

Lemma foldl_set_value_at (l1 l2 : list (Config.ConfigName * Config.Val))
    (cd : Config.ConfigData) (n : Config.ConfigName) (v : Config.Val) :
  n ∉ l1.*1 → n ∉ l2.*1 →
  foldl Config.set_value cd (l1 ++ (n, v) :: l2) n = stored (cd n) v.
Proof.
  intros H1 H2. rewrite foldl_app. cbn [foldl].
  rewrite foldl_set_value_other by done. rewrite set_value_at.
  by rewrite foldl_set_value_other.
Qed.

Lemma typeof_stored (old v : Config.Val) : Config.typeof (stored old v) = Config.typeof old.
Proof.
  unfold stored. destruct v; try done;
    destruct (bool_decide (Config.typeof old ≠ Config.TUndefined)); cbn [andb]; try done;
    by case_bool_decide.
Qed.

Lemma typeof_set_value (cd : Config.ConfigData) (nv : Config.ConfigName * Config.Val)
    (n : Config.ConfigName) :
  Config.typeof (Config.set_value cd nv n) = Config.typeof (cd n).
Proof.
  destruct nv as [m v]. destruct (decide (n = m)) as [->|Hne].
  - rewrite set_value_at. apply typeof_stored.
  - by rewrite set_value_other.
Qed.

Lemma typeof_foldl_set_value (l : list (Config.ConfigName * Config.Val))
    (cd : Config.ConfigData) (n : Config.ConfigName) :
  Config.typeof (foldl Config.set_value cd l n) = Config.typeof (cd n).
Proof.
  revert cd. induction l as [|nv l IH]; intros cd; [done|].
  cbn [foldl]. rewrite IH. apply typeof_set_value.
Qed.

(** X17: the store keeps its types.  Neither [config.set] nor
    [initConfigData] changes the [typeof] of the value under any key,
    so a field of a response whose type is not that of the key never
    enters the store; and [initConfigData] leaves the store as it is
    when the response has an [error] or no [query]. *)
Theorem config_keeps_types (parseInt : string → Config.number)
    (toLowerCase : string → string) (cd : Config.ConfigData) (res : JsVal)
    (name n : Config.ConfigName) (v : Config.Val) :
  Config.typeof ((Config.set cd name v).1 n) = Config.typeof (cd n)
  ∧ Config.typeof ((Config.initConfigData parseInt toLowerCase cd res).1 n)
    = Config.typeof (cd n)
  ∧ (Config.typeof v ≠ Config.typeof (cd name) → (Config.set cd name v).1 = cd)
  ∧ (truthy (prop res "error") = true ∨ truthy (prop res "query") = false →
     Config.initConfigData parseInt toLowerCase cd res = (cd, None)).
Proof.
  split_and!.
  - unfold Config.set. destruct (bool_decide (_ ≠ _)); cbn [andb fst]; [|done].
    case_bool_decide as Ht; cbn [fst]; [|done].
    unfold Config.update. case_decide as Hn; [|done]. by rewrite Hn.
  - unfold Config.initConfigData.
    destruct (truthy (prop res "error") || negb (truthy (prop res "query"))); [done|].
    destruct (if truthy (prop (prop res "query") "namespaces") then _ else _)
      as [[[cs ct] fm]|]; [|done].
    destruct (if truthy (prop (prop res "query") "namespacealiases") then _ else _)
      as [ids|]; [|done].
    destruct (prop (prop (prop res "query") "general") "generator");
      cbn [fst]; by rewrite ?typeof_set_value, ?typeof_foldl_set_value.
  - intros Hne. unfold Config.set. destruct (bool_decide (_ ≠ _)); cbn [andb fst]; [|done].
    by rewrite bool_decide_eq_false_2.
  - intros Hor. unfold Config.initConfigData.
    destruct Hor as [-> | ->]; [done|]. by rewrite orb_true_r.
Qed.
Ltac store_at :=
  cbn [foldl fst];
  repeat (rewrite set_value_other by done);
  rewrite ?set_value_at;
  repeat (rewrite set_value_other by done).

Lemma unreadable_get (v : Config.Val) :
  unreadable v → Config.validateConfigValue v = Config.VNull.
Proof. by destruct v. Qed.

Lemma unreadable_stored_record (old : Config.Val) (o : obj) :
  unreadable old → unreadable (stored old (Config.of_js (JObj o))).
Proof. intros Hold. unfold stored. cbn [Config.of_js]. by destruct (_ && _). Qed.

Lemma unreadable_stored_falsy (old : Config.Val) (v : JsVal) :
  unreadable old → truthy v = false → unreadable (stored old (Config.of_js v)).
Proof.
  intros Hold Hv. unfold stored.
  destruct v as [| |[|]|[| |]|[| |]|[|c s]| |]; try done; cbn [Config.of_js];
    try done.
  all: destruct old; try done; by simpl.
Qed.

(** X18: the two records of the store cannot be read.  The keys
    [wgFormattedNamespaces] and [wgNamespaceIds] hold a record from the
    start, and whatever the response is, [initConfigData] leaves a
    record or [null] under them; [config.get] returns [null] for such
    a value and [config.exists] returns [false], before and after the
    store is initialised. *)
Theorem config_records_unreadable (parseInt : string → Config.number)
    (toLowerCase : string → string) (cd : Config.ConfigData) (res : JsVal)
    (n : Config.ConfigName) :
  n = Config.wgFormattedNamespaces ∨ n = Config.wgNamespaceIds →
  unreadable (cd n) →
  let cd' := (Config.initConfigData parseInt toLowerCase cd res).1 in
  unreadable (cd' n)
  ∧ Config.get cd' n = Config.VNull ∧ Config.exists_ cd' n = false
  ∧ Config.get cd n = Config.VNull ∧ Config.exists_ cd n = false
  ∧ unreadable (Config.initial n).
Proof.
  intros Hn Hold cd'.
  assert (unreadable (cd' n)) as Hnew.
  { unfold cd', Config.initConfigData.
    destruct (truthy (prop res "error") || negb (truthy (prop res "query"))); [done|].
    set (namespaces := prop (prop res "query") "namespaces").
    set (aliases := prop (prop res "query") "namespacealiases").
    destruct (if truthy namespaces then _ else _) as [[[cs ct] fm]|]; [|done].
    destruct (if truthy aliases then _ else _) as [ids|]; [|done].
    destruct Hn as [-> | ->].
    - destruct (prop (prop (prop res "query") "general") "generator"); store_at;
        (destruct (truthy namespaces) eqn:E;
         [by apply unreadable_stored_record | by apply unreadable_stored_falsy]).
    - destruct (prop (prop (prop res "query") "general") "generator"); store_at;
        (destruct (truthy aliases) eqn:E;
         [by apply unreadable_stored_record | by apply unreadable_stored_falsy]). }
  unfold Config.get, Config.exists_.
  rewrite !unreadable_get by done. split_and!; try done.
  by destruct Hn as [-> | ->].
Qed.
Lemma scan_namespaces_Some (parseInt : string → Config.number) (entries : obj)
    (cs ct cs' ct' : list Config.number) (fm fm' : obj) :
  Config.scan_namespaces parseInt entries cs ct fm = Some (cs', ct', fm') →
  cs' = cs ++ case_sensitive_ids parseInt entries
  ∧ ct' = ct ++ content_ids parseInt entries.
Proof.
  revert cs ct fm. induction entries as [|[k o] entries IH]; intros cs ct fm.
  - intros [= <- <- <-]. unfold case_sensitive_ids, content_ids. simpl.
    by rewrite !app_nil_r.
  - cbn [Config.scan_namespaces]. destruct (nullish o); [done|].
    unfold case_sensitive_ids, content_ids in *.
    destruct (is_str (prop o "case") "case-sensitive") eqn:Ec.
    + intros H. apply IH in H as [-> ->].
      rewrite filter_cons_True by done.
      rewrite filter_cons_False by (intros [Hc _]; cbn [snd] in Hc; unfold case_sensitive in Hc;
                                    congruence).
      rewrite fmap_cons. cbn [fst]. by rewrite <- app_assoc.
    + destruct (truthy (prop o "content")) eqn:Et.
      * intros H. apply IH in H as [-> ->].
        rewrite filter_cons_False by (cbn [snd]; unfold case_sensitive; congruence).
        rewrite filter_cons_True by done.
        rewrite fmap_cons. cbn [fst]. by rewrite <- app_assoc.
      * intros H. apply IH in H as [-> ->].
        rewrite filter_cons_False by (cbn [snd]; unfold case_sensitive; congruence).
        rewrite filter_cons_False by (intros [_ Hc]; cbn [snd] in Hc; congruence).
        done.
Qed.

(** X19: what [initConfigData] puts into the store.  When the response
    has no [error] and the method does not throw, each key that is
    filled from one field of [query.general] or [query.userinfo] holds
    that field if the field has the [typeof] of the key's old value,
    and the old value otherwise; and when [query.namespaces] is an
    object, [wgCaseSensitiveNamespaces] holds the numbers of its
    case-sensitive namespaces and [wgContentNamespaces] those of the
    namespaces that hold content and are not case-sensitive, in the
    order of the object. *)
Theorem initConfigData_fills (parseInt : string → Config.number)
    (toLowerCase : string → string) (cd : Config.ConfigData) (res : JsVal) :
  truthy (prop res "error") = false →
  (Config.initConfigData parseInt toLowerCase cd res).2 = None →
  let cd' := (Config.initConfigData parseInt toLowerCase cd res).1 in
  let query := prop res "query" in
  (∀ n o key, truthy query = true → field_of n = Some (o, key) →
     cd' n = stored (cd n) (Config.of_js (prop (prop query o) key)))
  ∧ (∀ namespaces, prop query "namespaces" = JObj namespaces →
       cd' Config.wgCaseSensitiveNamespaces
       = stored (cd Config.wgCaseSensitiveNamespaces)
           (Config.VArr (Config.VNum <$> case_sensitive_ids parseInt namespaces))
       ∧ cd' Config.wgContentNamespaces
         = stored (cd Config.wgContentNamespaces)
             (Config.VArr (Config.VNum <$> content_ids parseInt namespaces))).
Proof.
  intros Herr Hok cd' query. subst cd'. revert Hok.
  unfold Config.initConfigData. rewrite Herr. cbn [orb]. fold query.
  destruct (truthy query) eqn:Eq; cbn [negb].
  2: { intros _. split; [done|]. intros ns Hns. unfold prop in Hns.
       by destruct query. }
  set (namespaces := prop query "namespaces").
  set (aliases := prop query "namespacealiases").
  destruct (if truthy namespaces then _ else _) as [[[cs ct] fm]|] eqn:Es; [|done].
  destruct (if truthy aliases then _ else _) as [ids|]; [|done].
  destruct (prop (prop query "general") "generator") eqn:Eg; try done; intros _.
  all: split; [ intros n o key _ Hf; destruct n; try done;
                injection Hf as <- <-; by store_at | ].
  all: intros ns Hns; rewrite Hns in Es; cbn [truthy own_entries] in Es;
    apply scan_namespaces_Some in Es as [-> ->]; rewrite Hns; cbn [truthy];
    split; by store_at.
Qed.
Lemma params_at_S (transport : nat → AxiosOutcome) (first : nat) (ps : obj) (i : nat) :
  params_at transport first ps (S i)
  = obj_assign (ajax_parameters (params_at transport first ps i))
      (own_entries (prop (entry (transport (first + i)%nat)) "continue")).
Proof.
  revert first ps. induction i as [|i IH]; intros first ps.
  - cbn [params_at]. by rewrite Nat.add_0_r.
  - change (params_at transport first ps (S (S i)))
      with (params_at transport (S first)
              (obj_assign (ajax_parameters ps)
                 (own_entries (prop (entry (transport first)) "continue"))) (S i)).
    rewrite IH. cbn [params_at]. by rewrite Nat.add_succ_comm.
Qed.

(** The requests that [req] sends, and what it leaves in the parameter
    object. *)
Lemma req_sent (client : Client) (transport : nat → AxiosOutcome) (limit : Z) (n : nat) :
  ∀ (fuel : nat) (w : World) (params : loc) (count : Z) (responses : list JsVal),
    (params < length (objects w))%nat →
    (n < fuel)%nat →
    (∀ i, (i < n)%nat →
       continues (transport (length (sent w) + i)%nat) = true ∧ count + Z.of_nat i < limit) →
    (continues (transport (length (sent w) + n)%nat) = false ∨ limit ≤ count + Z.of_nat n) →
    let w' := (MWCCStatic.req client transport fuel limit w params count responses).1 in
    sent w' = sent w ++ continued_requests client transport w (read_obj w params) (S n)
    ∧ read_obj w' params
      = ajax_parameters (params_at transport (length (sent w)) (read_obj w params) n).
Proof.
  induction n as [|n IH]; intros fuel w params count responses Hp Hfuel Hcont Hstop.
  - destruct fuel as [|fuel]; [lia|]. cbn [MWCCStatic.req].
    unfold MWCCStatic.get. rewrite get_fresh by done.
    rewrite Nat.add_0_r in Hstop. unfold continued_requests. cbn [seq fmap list_fmap].
    rewrite Nat.add_0_r. cbn [params_at]. unfold continues in *.
    destruct (settle_settled (transport (length (sent w)))) as [[v Hv]|[e He]].
    + rewrite Hv in *.
      assert (truthy (prop v "continue") && (count <? limit) = false) as ->.
      { destruct Hstop as [->|Hl]; [done|].
        apply andb_false_iff. right. apply Z.ltb_ge. lia. }
      cbn [fst sent]. split; [done|].
      unfold read_obj. cbn [objects]. by rewrite list_lookup_total_insert_eq.
    + rewrite He. cbn [fst sent]. split; [done|].
      unfold read_obj. cbn [objects]. by rewrite list_lookup_total_insert_eq.
  - destruct fuel as [|fuel]; [lia|]. cbn [MWCCStatic.req].
    unfold MWCCStatic.get. rewrite get_fresh by done.
    assert (0 < S n)%nat as H0 by lia.
    destruct (Hcont 0%nat H0) as [Hc0 Hl0].
    rewrite Nat.add_0_r in Hc0. rewrite Z.add_0_r in Hl0.
    unfold continues in Hc0.
    assert (entry (transport (length (sent w))) = match settle (transport (length (sent w)))
                                                  with Resolved v => v | _ => JUndef end)
      as Hentry.
    { unfold entry. by destruct (settle (transport (length (sent w)))). }
    destruct (settle (transport (length (sent w)))) as [res|e| |e]; try done.
    rewrite Hc0. assert ((count <? limit) = true) as -> by (apply Z.ltb_lt; lia).
    cbn [andb].
    set (w1 := mkWorld _ _ _ _ _).
    set (w2 := write_obj w1 params _).
    assert (sent w2 = sent w ++ [get_request client (read_obj w params) (aborts w)]) as Hsent.
    { done. }
    assert (aborts w2 = S (aborts w)) as Hab by done.
    assert (params < length (objects w2))%nat as Hp2.
    { unfold w2, w1. rewrite length_objects_write_obj. cbn [objects].
      by rewrite length_insert. }
    assert (read_obj w2 params
            = obj_assign (ajax_parameters (read_obj w params))
                (own_entries (prop res "continue"))) as Hread.
    { unfold w2. rewrite read_write_obj by (unfold w1; cbn [objects];
                                          by rewrite length_insert).
      unfold w1, read_obj. cbn [objects]. by rewrite list_lookup_total_insert_eq. }
    assert (length (sent w2) = S (length (sent w))) as Hlen.
    { rewrite Hsent, length_app. simpl. lia. }
    destruct (IH fuel w2 params (count + 1) (responses ++ [res])) as [Hs Hr].
    + done.
    + lia.
    + intros i Hi. rewrite Hlen.
      assert (S i < S n)%nat as Hi' by lia.
      destruct (Hcont (S i) Hi') as [Hc Hl].
      split; [by rewrite Nat.add_succ_comm | lia].
    + rewrite Hlen. rewrite <- Nat.add_succ_comm in Hstop.
      destruct Hstop as [?|?]; [by left | right; lia].
    + cbv zeta. rewrite Hs, Hr. split.
      * unfold continued_requests. rewrite Hab, Hread, Hlen, Hsent.
        rewrite <- app_assoc. f_equal.
        change (seq 0 (S (S n))) with (0%nat :: seq 1 (S n)).
        rewrite fmap_cons. cbn [app]. f_equal.
        { by rewrite Nat.add_0_r. }
        rewrite <- seq_shift, <- list_fmap_compose. apply list_fmap_ext.
        intros _ i _. cbn [compose params_at]. rewrite Hentry. f_equal. lia.
      * rewrite Hread, Hlen. cbn [params_at]. by rewrite Hentry.
Qed.
Lemma params_at_wf (transport : nat → AxiosOutcome) (first : nat) (ps : obj) (i : nat) :
  obj_wf ps → obj_wf (params_at transport first ps i).
Proof.
  revert first ps. induction i as [|i IH]; intros first ps Hwf; [done|].
  cbn [params_at]. apply IH. by apply obj_assign_wf, ajax_parameters_wf.
Qed.

(** X20: how [continuedQuery] continues.  Each request after the first
    is made from the caller's parameter object as the request before
    left it, with the entries of the [continue] value of the last
    response assigned to it: a string entry of that value is in the
    payload of the next request.  The object of the caller is changed
    in place and ends as the last request normalised it. *)
Theorem continuedQuery_carries_continue (client : Client) (transport : nat → AxiosOutcome)
    (w : World) (parameters : loc) (limit : option Z) (k : nat) :
  (parameters < length (objects w))%nat →
  obj_wf (read_obj w parameters) →
  (0 < k)%nat →
  let first := length (sent w) in
  let ps := read_obj w parameters in
  (∀ i, (i < k - 1)%nat → continues (transport (first + i)%nat) = true) →
  continues (transport (first + (k - 1))%nat) = false →
  let n := Z.to_nat (Z.max 1 (Z.min (Z.of_nat k) (default 10 limit))) in
  let run := MWCCStatic.continuedQuery client transport w parameters limit in
  sent run.1 = sent w ++ continued_requests client transport w ps n
  ∧ read_obj run.1 parameters = ajax_parameters (params_at transport first ps (n - 1))
  ∧ (∀ i, params_at transport first ps (S i)
          = obj_assign (ajax_parameters (params_at transport first ps i))
              (own_entries (prop (entry (transport (first + i)%nat)) "continue")))
  ∧ (∀ i key s controller,
       obj_wf (own_entries (prop (entry (transport (first + i)%nat)) "continue")) →
       obj_get (own_entries (prop (entry (transport (first + i)%nat)) "continue")) key
       = Some (JStr s) →
       key ≠ "token" →
       obj_get (payload (get_request client (params_at transport first ps (S i)) controller))
         key = Some (JStr s)).
Proof.
  intros Hp Hwf Hk first ps Hcont Hlast n run. subst run.
  unfold MWCCStatic.continuedQuery. set (lim := default 10 limit) in *.
  assert (∃ m, n = S m) as [m Hm] by (exists (n - 1)%nat; lia).
  destruct (req_sent client transport lim m (S (Z.to_nat (lim - 1))) w parameters 1 [])
    as [Hs Hr]; [done|lia| | |].
  - intros i Hi. split; [apply Hcont|]; lia.
  - destruct (decide (S m = k)) as [Heq|Hne].
    + left. assert (m = (k - 1)%nat) as -> by lia. done.
    + right. lia.
  - split_and!.
    + by rewrite Hm, Hs.
    + rewrite Hr, Hm. by replace (S m - 1)%nat with m by lia.
    + intros i. apply params_at_S.
    + intros i key s controller Hc Hget Hkey.
      unfold payload, get_request. cbn [method params default from_option id].
      assert (is_GET "GET" = true) as -> by done.
      apply obj_get_filled_string; [|done|].
      * by apply params_at_wf.
      * rewrite params_at_S. rewrite obj_get_assign by done. by rewrite Hget.
Qed.
(** [massQuery] with one named field that holds an array: the
    validation passes. *)
Lemma massQuery_one_field (client : Client) (transport : nat → AxiosOutcome)
    (fuel : nat) (w : World) (parameters : loc) (fields : Fields) (f : string)
    (limit : option Z) (elems : list JsVal) :
  obj_wf (read_obj w parameters) →
  named_fields fields = [f] →
  obj_get (read_obj w parameters) f = Some (JArr elems) →
  let apilimit := default MWCCStatic.apilimit limit in
  let w1 := validated w parameters [f] apilimit in
  MWCCStatic.massQuery client transport fuel w parameters fields limit =
  match List.map to_string elems with
  | [] => Some (w1, Resolved [])
  | _ :: _ =>
      MWCCStatic.send_batches client transport fuel apilimit [f] (length (objects w)) w1
        (List.map to_string elems) []
  end.
Proof.
  intros Hwf Hnamed Hget apilimit w1.
  rewrite massQuery_eq. cbv zeta. rewrite Hnamed. fold apilimit.
  set (copy := copied w parameters). set (strs := List.map to_string elems).
  assert (array_strings copy f = Some strs) as Harr.
  { unfold copy. rewrite array_strings_copied by done.
    unfold array_strings, prop. by rewrite Hget. }
  assert (nonarray_fields [f] copy = []) as ->.
  { apply filter_none. intros k _ [Hk Hnone].
    apply list_elem_of_singleton in Hk as ->. congruence. }
  rewrite bool_decide_eq_false_2 by auto.
  rewrite bool_decide_eq_false_2 by done.
  assert (field_arrays [f] copy = [strs]) as ->.
  { unfold field_arrays. rewrite filter_singleton_NoDup.
    - change (omap (array_strings copy) [f]) with
        (match array_strings copy f with Some y => [y] | None => [] end).
      by rewrite Harr.
    - apply copied_wf.
    - by eapply array_strings_Some_key. }
  done.
Qed.

(** X21: a ceiling below one.  When the field of a [massQuery] call
    holds a non-empty array and [options.apilimit] is a number that is
    zero or negative, the loop that sends the batches takes nothing
    from the array and never ends: the call returns no promise,
    however long it runs. *)
Theorem massQuery_ceiling_below_one_never_returns (client : Client)
    (transport : nat → AxiosOutcome) (fuel : nat) (w : World) (parameters : loc)
    (fields : Fields) (f : string) (apilimit : Z) (elem : JsVal) (elems : list JsVal) :
  obj_wf (read_obj w parameters) →
  named_fields fields = [f] →
  obj_get (read_obj w parameters) f = Some (JArr (elem :: elems)) →
  apilimit ≤ 0 →
  MWCCStatic.massQuery client transport fuel w parameters fields (Some apilimit) = None.
Proof.
  intros Hwf Hnamed Hget Hlimit.
  rewrite (massQuery_one_field client transport fuel w parameters fields f (Some apilimit)
             (elem :: elems)) by done.
  cbn [List.map default from_option id].
  apply send_batches_never_ends; [done|].
  unfold validated. cbn [objects]. rewrite length_app. simpl. lia.
Qed.
Lemma obj_get_set_max (named : list string) (apilimit : Z) (o : obj) (key k : string) :
  obj_get (set_max named apilimit o key) k
  = if decide (key = k) then
      (if wants_max named apilimit key then Some (JStr "max") else obj_get o k)
    else obj_get o k.
Proof.
  unfold set_max. destruct (wants_max named apilimit key).
  - apply obj_get_set.
  - by destruct (decide (key = k)).
Qed.

Lemma obj_get_foldl_set_max (named : list string) (apilimit : Z) (ks : list string)
    (o : obj) (k : string) :
  obj_get (foldl (set_max named apilimit) o ks) k
  = if bool_decide (k ∈ ks) && wants_max named apilimit k then Some (JStr "max")
    else obj_get o k.
Proof.
  revert o. induction ks as [|key ks IH]; intros o; [done|].
  cbn [foldl]. rewrite IH. rewrite obj_get_set_max.
  destruct (decide (key = k)) as [->|Hne].
  - rewrite (bool_decide_eq_true_2 (k ∈ k :: ks)) by (by left). cbn [andb].
    destruct (wants_max named apilimit k); [|by rewrite andb_false_r].
    by destruct (bool_decide (k ∈ ks)).
  - assert (bool_decide (k ∈ key :: ks) = bool_decide (k ∈ ks)) as ->; [|done].
    apply bool_decide_ext. rewrite elem_of_cons.
    split; [intros [?|?]; [congruence|done] | by right].
Qed.

(** X22: the [limit] parameters of a batch.  With the default ceiling
    of 50, or with 500, every request of [massQuery] carries [max]
    under each parameter of the caller whose name ends in [limit] and
    is not the named field; with any other ceiling such a parameter is
    sent as the caller gave it. *)
Theorem massQuery_limit_parameters (client : Client) (transport : nat → AxiosOutcome)
    (fuel : nat) (w : World) (parameters : loc) (fields : Fields) (f key : string)
    (limit : option Z) (elems : list JsVal) :
  obj_wf (read_obj w parameters) →
  named_fields fields = [f] →
  obj_get (read_obj w parameters) f = Some (JArr elems) →
  1 ≤ default MWCCStatic.apilimit limit →
  (length elems ≤ fuel)%nat →
  key ∈ keys (read_obj w parameters) →
  key ≠ f → key ≠ "token" → ends_with_limit key = true →
  let apilimit := default MWCCStatic.apilimit limit in
  ∃ w' r requests,
    MWCCStatic.massQuery client transport fuel w parameters fields limit = Some (w', r)
    ∧ sent w' = sent w ++ requests
    ∧ ∀ request, request ∈ requests →
        (apilimit = 50 ∨ apilimit = 500 →
         obj_get (payload request) key = Some (JStr "max"))
        ∧ (∀ s, apilimit ≠ 50 → apilimit ≠ 500 →
             obj_get (read_obj w parameters) key = Some (JStr s) →
             obj_get (payload request) key = Some (JStr s)).
Proof.
  intros Hwf Hnamed Hget Hlimit Hfuel Hkey Hkf Hkt Hends apilimit.
  rewrite (massQuery_one_field client transport fuel w parameters fields f limit elems)
    by done.
  fold apilimit. set (strs := List.map to_string elems).
  set (w1 := validated w parameters [f] apilimit).
  set (cm := copied_max w parameters [f] apilimit).
  assert (read_obj w1 (length (objects w)) = cm) as Hread.
  { unfold w1, validated, read_obj. cbn [objects]. by apply list_lookup_total_middle. }
  assert (obj_wf cm) as Hcm by apply set_max_wf, copied_wf.
  assert (length strs = length elems) as Hlen by (unfold strs; by rewrite length_map).
  destruct (send_batches_run client transport apilimit [f] (length (objects w)) cm Hlimit
              fuel w1 strs []) as (w' & Hrun & Hsent);
    [unfold w1, validated; cbn [objects]; rewrite length_app; simpl; lia|done|lia|].
  change (Resolved <$> []) with (@nil (Result JsVal)) in Hrun.
  change (sent w1) with (sent w) in *.
  assert (∀ mv, obj_get (batch_params cm [f] mv) key
                = if wants_max [f] apilimit key then Some (JStr "max")
                  else obj_get (read_obj w parameters) key) as Hbatch.
  { intros mv. unfold batch_params. cbn [foldl]. rewrite obj_get_set.
    rewrite decide_False by done. rewrite obj_get_assign by done.
    assert (obj_get cm key
            = if wants_max [f] apilimit key then Some (JStr "max")
              else obj_get (read_obj w parameters) key) as ->.
    { unfold cm, copied_max. rewrite obj_get_foldl_set_max.
      rewrite bool_decide_eq_true_2 by (by apply keys_copied). cbn [andb].
      by rewrite obj_get_copied. }
    destruct (wants_max [f] apilimit key); [done|].
    by destruct (obj_get (read_obj w parameters) key). }
  assert (wants_max [f] apilimit key
          = bool_decide (apilimit = 500) || bool_decide (apilimit = 50)) as Hwants.
  { unfold wants_max. rewrite Hends.
    rewrite bool_decide_eq_false_2 by (by intros ->%list_elem_of_singleton). done. }
  assert (∀ mv, obj_wf (batch_params cm [f] mv)) as Hbwf.
  { intros mv. unfold batch_params. cbn [foldl].
    by apply obj_set_wf, obj_assign_wf, NoDup_nil_2. }
  assert (∀ request,
            request ∈ List.map (λ i, post_request BodySearchParams client
                                       (batch_params cm [f]
                                          (String.concat "|"
                                             (chunk (Z.to_nat apilimit) i strs)))
                                       (aborts w1 + i))
                        (seq 0 (ceil_div (length strs) (Z.to_nat apilimit))) →
            (apilimit = 50 ∨ apilimit = 500 →
             obj_get (payload request) key = Some (JStr "max"))
            ∧ (∀ s, apilimit ≠ 50 → apilimit ≠ 500 →
                 obj_get (read_obj w parameters) key = Some (JStr s) →
                 obj_get (payload request) key = Some (JStr s))) as Hall.
  { intros request Hin. apply list_elem_of_In, in_map_iff in Hin as (i & <- & _).
    split.
    - intros Hdef. apply payload_post_request; [done|done|].
      rewrite Hbatch, Hwants.
      destruct Hdef as [-> | ->]; by rewrite ?bool_decide_eq_true_2 by done.
    - intros s H50 H500 Hs. apply payload_post_request; [done|done|].
      rewrite Hbatch, Hwants.
      by rewrite !bool_decide_eq_false_2 by done. }
  destruct strs as [|s0 strs'] eqn:Estrs.
  - exists w1, (Resolved []), []. split_and!; [done|by rewrite app_nil_r|].
    intros request Hin. by apply elem_of_nil in Hin.
  - eexists _, _, _. split_and!; [apply Hrun|apply Hsent|apply Hall].
Qed.
Lemma steps_registers (c : list loc) (w w' : World) : steps c w w' → registers w w'.
Proof. by intros (_ & _ & H). Qed.

Lemma steps_req (client : Client) (transport : nat → AxiosOutcome) (limit : Z) :
  ∀ (fuel : nat) (w : World) (params : loc) (count : Z) (responses : list JsVal),
    steps [params] w (MWCCStatic.req client transport fuel limit w params count responses).1.
Proof.
  induction fuel as [|fuel IH]; intros w params count responses.
  - apply steps_nil, steps_refl.
  - cbn [MWCCStatic.req]. unfold MWCCStatic.get.
    pose proof (steps_get BodySearchParams client transport w params None) as Hg.
    destruct (Base.get BodySearchParams client transport w params None) as [w1 r].
    cbn [fst] in Hg. destruct r as [res|e| |e]; cbn [fst]; try done.
    destruct (truthy (prop res "continue") && (count <? limit)); [|done].
    eapply steps_then; [apply Hg|]. eapply steps_then; [apply steps_write_obj|apply IH].
Qed.

Lemma steps_send_batches (client : Client) (transport : nat → AxiosOutcome)
    (apilimit : Z) (fields : list string) (parameters : loc) :
  ∀ (fuel : nat) (w : World) (batch : list string) (result : list (Result JsVal))
    (w' : World) (r : Result (list JsVal)),
    MWCCStatic.send_batches client transport fuel apilimit fields parameters w batch result
    = Some (w', r) →
    steps [] w w'.
Proof.
  induction fuel as [|fuel IH]; intros w batch result w' r.
  - destruct batch; [|done]. intros [= <- _]. apply steps_refl.
  - destruct batch as [|x batch]; [intros [= <- _]; apply steps_refl|].
    cbn [MWCCStatic.send_batches].
    set (copy := obj_assign [] (read_obj w parameters)).
    pose proof (steps_alloc_obj w copy) as Ha.
    change (alloc_obj w copy) with ((alloc_obj w copy).1, length (objects w)).
    cbv iota beta.
    set (mv := String.concat "|" _).
    assert (∀ ks W, steps [length (objects w)] W
                      (foldl (λ W0 key, set_prop W0 (length (objects w)) key (JStr mv)) W ks))
      as Hfold.
    { induction ks as [|k ks IHk]; intros W; [apply steps_nil, steps_refl|].
      cbn [foldl]. eapply steps_then; [|apply IHk]. apply steps_set_prop. }
    set (w2 := foldl _ _ fields).
    assert (steps [] w w2) as H2.
    { eapply steps_new; [apply Ha|apply Hfold|lia]. }
    unfold MWCCStatic.post.
    pose proof (steps_post BodySearchParams client transport w2 (length (objects w)) None)
      as Hp.
    destruct (Base.post BodySearchParams client transport w2 (length (objects w)) None)
      as [w3 r3]. cbn [fst] in Hp.
    assert (steps [] w w3) as H3.
    { eapply steps_new; [apply H2|apply Hp|]. destruct H2 as (Hl & _). lia. }
    destruct r3 as [v|e| |e].
    1-3: intros Hrun; apply IH in Hrun; eapply steps_trans; [apply H3|apply Hrun|];
      by intros l _ [?|?].
    by intros [= <- _].
Qed.
Lemma steps_massQuery (client : Client) (transport : nat → AxiosOutcome) (fuel : nat)
    (w : World) (parameters : loc) (fields : Fields) (limit : option Z)
    (w' : World) (r : Result (list JsVal)) :
  MWCCStatic.massQuery client transport fuel w parameters fields limit = Some (w', r) →
  steps [] w w'.
Proof.
  rewrite massQuery_eq. cbv zeta.
  set (w1 := validated _ _ _ _).
  assert (steps [] w w1) as H1.
  { split_and!.
    - unfold w1, validated. cbn [objects]. rewrite length_app. lia.
    - intros l Hl _. unfold w1, validated, read_obj. cbn [objects].
      by rewrite lookup_total_app_l.
    - exists []. rewrite app_nil_r. simpl. split; [done|lia]. }
  destruct (bool_decide (nonarray_fields _ _ ≠ [])); [by intros [= <- _]|].
  destruct (bool_decide (named_fields fields = [])); [by intros [= <- _]|].
  destruct (field_arrays _ _) as [|batch others]; [by intros [= <- _]|].
  destruct (negb _); [by intros [= <- _]|].
  destruct batch as [|x batch]; [by intros [= <- _]|].
  intros Hrun. apply steps_send_batches in Hrun.
  eapply steps_trans; [apply H1|apply Hrun|]. by intros l _ [?|?].
Qed.

Lemma filled_nonempty (target cd ps : obj) :
  obj_wf ps → obj_wf cd → filled target cd ps ≠ [].
Proof.
  intros Hps Hcd Hnil.
  assert (is_Some (obj_get (filled target cd ps) "action")) as [v Hv].
  { rewrite obj_get_filled by done. unfold supplied, first_some.
    destruct (parameter ps "action"); [by eexists|]. by eexists. }
  by rewrite Hnil in Hv.
Qed.

(** X24: the options of a POST cannot serve twice.  [ajax] stores the
    body it has built in [options.data], and builds the next body from
    what it finds there.  When a second POST is made with the same
    options object, [MWCC], which stored the text of the body, throws
    a TypeError and sends nothing; [MWCCStatic], which stored the
    [URLSearchParams] instance, sends a request whose payload is that
    of the first request, whatever the new parameters are. *)
Theorem post_options_serve_once (client : Client) (transport : nat → AxiosOutcome)
    (w : World) (first second options : loc) :
  (first < length (objects w))%nat →
  (second < length (objects w))%nat →
  (options < length (configs w))%nat →
  obj_wf (read_obj w first) → obj_wf (defaults_data client) →
  data (read_options w options) = BodyNone →
  let run1 := MWCC.post client transport w first (Some options) in
  let run2 := MWCC.post client transport run1.1 second (Some options) in
  let run1' := MWCCStatic.post client transport w first (Some options) in
  let run2' := MWCCStatic.post client transport run1'.1 second (Some options) in
  run2.2 = Thrown TypeError
  ∧ sent run2.1 = sent run1.1
  ∧ ∃ request1 request2,
      sent run1'.1 = sent w ++ [request1]
      ∧ sent run2'.1 = sent w ++ [request1; request2]
      ∧ payload request2 = payload request1.
Proof.
  intros H1 H2 Ho Hwf Hcd Hdata run1 run2 run1' run2'.
  subst run1 run2 run1' run2'. unfold MWCC.post, MWCCStatic.post.
  set (f := form_of_record (filled [] (defaults_data client) (read_obj w first))).
  assert (f ≠ []) as Hf.
  { unfold f, form_of_record. intros Hnil. apply map_eq_nil in Hnil.
    by apply filled_nonempty in Hnil. }
  assert (∀ encode,
    let r1 := Base.post encode client transport w first (Some options) in
    (second < length (objects r1.1))%nat ∧ (options < length (configs r1.1))%nat
    ∧ sent r1.1 = sent w ++ [post_request_with encode client (read_options w options)
                               (read_obj w first) (aborts w)]
    ∧ aborts r1.1 = S (aborts w)
    ∧ read_options r1.1 options
      = post_request_with encode client (read_options w options) (read_obj w first)
          (aborts w)) as Hfirst.
  { intros encode. cbv zeta. rewrite post_at_plain by done. cbn [fst objects configs sent].
    rewrite !length_insert. split_and!; try done.
    unfold read_options. cbn [configs]. by rewrite list_lookup_total_insert_eq. }
  split_and!.
  - destruct (Hfirst BodyString) as (Hs & Hc & _ & _ & Hread).
    cbv zeta in Hs, Hc, Hread. unfold Base.post at 1. unfold Base.or_fresh.
    set (w2 := write_options _ _ _).
    rewrite (ajax_throws BodyString client transport w2 second options); [done|done| |].
    + unfold w2. by rewrite length_configs_write_options.
    + unfold w2. rewrite read_write_options by done. rewrite Hread.
      unfold ajax_request, method_of, post_request_with. cbn [method with_method str_or data].
      assert (is_GET "POST" = false) as -> by done. fold f. by destruct f.
  - destruct (Hfirst BodyString) as (Hs & Hc & _ & _ & Hread).
    cbv zeta in Hs, Hc, Hread. unfold Base.post at 1. unfold Base.or_fresh.
    set (w2 := write_options _ _ _).
    rewrite (ajax_throws BodyString client transport w2 second options); [done|done| |].
    + unfold w2. by rewrite length_configs_write_options.
    + unfold w2. rewrite read_write_options by done. rewrite Hread.
      unfold ajax_request, method_of, post_request_with. cbn [method with_method str_or data].
      assert (is_GET "POST" = false) as -> by done. fold f. by destruct f.
  - destruct (Hfirst BodySearchParams) as (Hs & Hc & Hsent & Hab & Hread).
    cbv zeta in Hs, Hc, Hsent, Hab, Hread.
    eexists _, _. split; [apply Hsent|].
    unfold Base.post at 1. unfold Base.or_fresh.
    set (w2 := write_options _ _ _).
    rewrite (ajax_sends BodySearchParams client transport w2 second options
               (mkOptions (Some "POST") (params (read_options w options))
                  (BodySearchParams f) (Some (apiUrl client)) (Some (S (aborts w))))).
    + cbn [fst sent]. unfold w2. rewrite sent_write_options, Hsent.
      rewrite <- app_assoc. split; [done|].
      unfold payload, post_request_with. cbn [method data default from_option id].
      by assert (is_GET "POST" = false) as -> by done.
    + done.
    + unfold w2. by rewrite length_configs_write_options.
    + unfold w2. rewrite read_write_options by done. rewrite Hread.
      rewrite aborts_write_options, Hab.
      unfold ajax_request, method_of, post_request_with.
      cbn [method with_method str_or data params]. fold f.
      by assert (is_GET "POST" = false) as -> by done.
Qed.
(** X25: a token request that fails.  When the cache has no token for
    the type and the request is rejected, [getToken] rejects with the
    error of the request and leaves the cache as it was, so that the
    next call for the type sends a request again. *)
Theorem getToken_request_fails (encode : form → Body) (client : Client)
    (transport : nat → AxiosOutcome) (w : World) (tokenType : string)
    (extra extra' : Extra) (e : JsVal) :
  cached w tokenType = None →
  settle (transport (length (sent w))) = Rejected e →
  let run := Base.getToken encode client transport w tokenType extra in
  run.2 = Rejected e
  ∧ tokens run.1 = tokens w
  ∧ length (sent run.1) = S (length (sent w))
  ∧ length (sent (Base.getToken encode client transport run.1 tokenType extra').1)
    = S (S (length (sent w))).
Proof.
  intros Hmiss Hrej run.
  assert (run = (after_token_request client w extra, Rejected e)) as ->.
  { unfold run. rewrite getToken_miss by done. by rewrite Hrej. }
  cbn [fst snd]. split_and!; try done.
  - cbn [after_token_request sent]. rewrite length_app. simpl. lia.
  - rewrite sent_getToken_miss by done.
    cbn [after_token_request sent]. rewrite !length_app. simpl. lia.
Qed.
Lemma parameter_ajax_parameters (ps : obj) (k : string) :
  obj_wf ps → k ≠ "token" → parameter (ajax_parameters ps) k = parameter ps k.
Proof.
  intros Hwf Hk. unfold parameter. rewrite obj_get_ajax_parameters by done.
  rewrite bool_decide_eq_false_2 by done. cbn [andb].
  destruct (obj_get ps k) as [v|]; [|done]. cbn [mbind option_bind].
  destruct v as [| |[|]| | |[|c s]|a|]; simpl; try done.
  all: rewrite ?bool_decide_eq_false_2 by done; try done.
  match goal with |- match ?x with _ => _ end = _ => by destruct x end.
Qed.

(** X26: a parameter object can be used again, but for its token.
    A second request made with the object that a first request has
    normalised carries the same payload under every key other than
    [token].  A string token is gone from the object after the first
    request: the second request has a token only if the defaults of
    the client supply one. *)
Theorem parameters_serve_again (encode : form → Body) (client : Client)
    (transport : nat → AxiosOutcome) (w : World) (parameters : loc) :
  (parameters < length (objects w))%nat →
  obj_wf (read_obj w parameters) → obj_wf (defaults_params client) →
  let ps := read_obj w parameters in
  let run1 := Base.get encode client transport w parameters None in
  let run2 := Base.get encode client transport run1.1 parameters None in
  ∃ request1 request2,
      sent run2.1 = sent w ++ [request1; request2]
      ∧ (∀ k, k ≠ "token" → obj_get (payload request2) k = obj_get (payload request1) k)
      ∧ (is_string (prop (JObj ps) "token") = true →
         obj_get (payload request2) "token" = obj_get (defaults_params client) "token").
Proof.
  intros Hp Hwf Hcd ps run1 run2.
  assert (run1 = (mkWorld (<[parameters := ajax_parameters ps]> (objects w))
                    (configs w ++ [get_request client ps (aborts w)]) (tokens w)
                    (S (aborts w)) (sent w ++ [get_request client ps (aborts w)]),
                  settle (transport (length (sent w))))) as H1.
  { unfold run1. by rewrite get_fresh. }
  assert (read_obj run1.1 parameters = ajax_parameters ps) as Hread1.
  { rewrite H1. unfold read_obj. cbn [fst objects]. by rewrite list_lookup_total_insert_eq. }
  assert (parameters < length (objects run1.1))%nat as Hp1.
  { rewrite H1. cbn [fst objects]. by rewrite length_insert. }
  assert (run2.1 = mkWorld (<[parameters := ajax_parameters (ajax_parameters ps)]>
                              (objects run1.1))
                     (configs run1.1 ++ [get_request client (ajax_parameters ps)
                                           (aborts run1.1)])
                     (tokens run1.1) (S (aborts run1.1))
                     (sent run1.1 ++ [get_request client (ajax_parameters ps)
                                        (aborts run1.1)])) as H2.
  { unfold run2. rewrite get_fresh by done. by rewrite Hread1. }
  assert (obj_wf (ajax_parameters ps)) as Hwf1 by (by apply ajax_parameters_wf).
  eexists _, _. split_and!.
    + rewrite H2. cbn [sent]. rewrite H1. cbn [fst sent]. by rewrite <- app_assoc.
    + intros k Hk. rewrite !payload_get by done. unfold supplied.
      by rewrite parameter_ajax_parameters.
    + intros Hs. rewrite payload_get by done. unfold supplied, parameter.
      rewrite obj_get_ajax_parameters by done.
      rewrite bool_decide_eq_true_2 by done. fold ps. rewrite Hs. cbn [andb first_some].
      assert (obj_get defaults "token" = None) as -> by done. cbn [first_some].
      by destruct (obj_get (defaults_params client) "token").
Qed.

(** ** The further properties at the example inputs *)

Lemma ajax_payload_precedence_witness :
  (0 < length (objects ex_world_options_token))%nat
  ∧ (0 < length (configs ex_world_options_token))%nat
  ∧ obj_wf (read_obj ex_world_options_token 0%nat)
  ∧ obj_wf (defaults_params ex_client) ∧ obj_wf (defaults_data ex_client)
  ∧ plain_data (read_options ex_world_options_token 0%nat)
  ∧ ∃ request,
      sent (Base.ajax BodyString ex_client ex_transport ex_world_options_token 0%nat 0%nat).1
      = [request]
      ∧ obj_get (payload request) "maxlag" = Some (JNum 5)
      ∧ obj_get (payload request) "token" = Some (JStr "abc+\").
Proof.
  assert (0 < length (objects ex_world_options_token))%nat as H1 by (simpl; lia).
  assert (0 < length (configs ex_world_options_token))%nat as H2 by (simpl; lia).
  assert (obj_wf (read_obj ex_world_options_token 0%nat)) as H3 by by_evaluation.
  assert (obj_wf (defaults_params ex_client)) as H4 by by_evaluation.
  assert (obj_wf (defaults_data ex_client)) as H5 by by_evaluation.
  assert (plain_data (read_options ex_world_options_token 0%nat)) as H6 by exact I.
  repeat (split; [assumption|]).
  destruct (ajax_payload_precedence BodyString ex_client ex_transport ex_world_options_token
              0%nat 0%nat "maxlag" H1 H2 H3 H4 H5 (or_introl eq_refl) H6)
    as (request & Hsent & Hmaxlag).
  exists request. split; [exact Hsent|]. split; [exact Hmaxlag|].
  destruct (ajax_payload_precedence BodyString ex_client ex_transport ex_world_options_token
              0%nat 0%nat "token" H1 H2 H3 H4 H5 (or_introl eq_refl) H6)
    as (request' & Hsent' & Htoken).
  rewrite Hsent in Hsent'. injection Hsent' as <-. exact Htoken.
Defined.


Lemma postWithToken_cached_token_witness :
  (0 < length (objects ex_world_cached))%nat
  ∧ obj_wf (read_obj ex_world_cached 0%nat) ∧ obj_wf (defaults_data ex_client)
  ∧ ("token" ∉ keys (defaults_data ex_client))
  ∧ cached ex_world_cached "csrf" = Some (JStr "abc+\")
  ∧ is_badtoken (settle (ex_transport (length (sent ex_world_cached)))) = false
  ∧ ∃ request,
      sent (MWCC.postWithToken ex_client ex_transport ex_world_cached "csrf" 0%nat None).1
      = [request]
      ∧ method request = Some "POST"
      ∧ last (payload request) = Some ("token", JStr "abc+\")
      ∧ obj_get (payload request) "titles" = Some (JStr "A|B|C").
Proof.
  assert (0 < length (objects ex_world_cached))%nat as H1 by (simpl; lia).
  assert (obj_wf (read_obj ex_world_cached 0%nat)) as H2 by by_evaluation.
  assert (obj_wf (defaults_data ex_client)) as H3 by by_evaluation.
  assert ("token" ∉ keys (defaults_data ex_client)) as H4 by by_evaluation.
  assert (cached ex_world_cached "csrf" = Some (JStr "abc+\")) as H5 by reflexivity.
  assert (is_badtoken (settle (ex_transport (length (sent ex_world_cached)))) = false) as H6
    by reflexivity.
  repeat (split; [assumption|]).
  destruct (postWithToken_cached_token ex_client ex_transport ex_world_cached "csrf" 0%nat
              "abc+\" BodyString _ (or_intror (conj eq_refl eq_refl)) H1 H2 H3 H4 H5 H6)
    as (request & Hsent & Hmethod & Hlast & Hkeys & _).
  exists request. split; [exact Hsent|]. split; [exact Hmethod|]. split; [exact Hlast|].
  apply (Hkeys "titles"). discriminate.
Defined.

Lemma postWithToken_fetches_token_witness :
  (0 < length (objects ex_edit_world))%nat
  ∧ obj_wf (defaults_params ex_client)
  ∧ ("token" ∉ keys (defaults_data ex_client))
  ∧ cached ex_edit_world "csrf" = None
  ∧ settle (ex_token_transport (length (sent ex_edit_world))) = Resolved ex_tokens
  ∧ prop (prop (prop ex_tokens "query") "tokens") (token_name "csrf") = JStr "fresh+\"
  ∧ "fresh+\" ≠ EmptyString
  ∧ is_badtoken (settle (ex_token_transport (S (length (sent ex_edit_world))))) = false
  ∧ ∃ fetch post,
      sent (MWCCStatic.postWithToken ex_client ex_token_transport ex_edit_world "csrf"
              0%nat None).1 = [fetch; post]
      ∧ method fetch = Some "GET" ∧ method post = Some "POST"
      ∧ obj_get (payload fetch) "meta" = Some (JStr "tokens")
      ∧ last (payload post) = Some ("token", JStr "fresh+\")
      ∧ tokens (MWCCStatic.postWithToken ex_client ex_token_transport ex_edit_world "csrf"
                  0%nat None).1 = JObj [("csrftoken", JStr "fresh+\")].
Proof.
  assert (0 < length (objects ex_edit_world))%nat as H1 by (simpl; lia).
  assert (obj_wf (defaults_params ex_client)) as H2 by by_evaluation.
  assert ("token" ∉ keys (defaults_data ex_client)) as H3 by by_evaluation.
  assert (cached ex_edit_world "csrf" = None) as H4 by reflexivity.
  assert (settle (ex_token_transport (length (sent ex_edit_world))) = Resolved ex_tokens)
    as H5 by reflexivity.
  assert (prop (prop (prop ex_tokens "query") "tokens") (token_name "csrf") = JStr "fresh+\")
    as H6 by reflexivity.
  assert ("fresh+\" ≠ EmptyString) as H7 by discriminate.
  assert (is_badtoken (settle (ex_token_transport (S (length (sent ex_edit_world))))) = false)
    as H8 by reflexivity.
  repeat (split; [assumption|]).
  destruct (postWithToken_fetches_token ex_client ex_token_transport ex_edit_world "csrf"
              0%nat ex_tokens "fresh+\" BodySearchParams _
              (or_introl (conj eq_refl eq_refl)) H1 H2 H3 H4 H5 H6 H7 H8)
    as (fetch & post & Hsent & Hget & Hpost & Hmeta & _ & _ & Hlast & _ & Htokens).
  exists fetch, post. repeat (split; [assumption|]). exact Htokens.
Defined.

Lemma getToken_caches_all_types_witness :
  cached ex_world_cached "patrol" = None
  ∧ settle (ex_token_transport (length (sent ex_world_cached))) = Resolved ex_tokens
  ∧ truthy (prop (prop ex_tokens "query") "tokens") = true
  ∧ truthy (prop (prop (prop ex_tokens "query") "tokens") (token_name "csrf")) = true
  ∧ truthy (prop (prop (prop ex_tokens "query") "tokens") (token_name "watch")) = false
  ∧ (let w' := (Base.getToken BodyString ex_client ex_token_transport ex_world_cached
                  "patrol" ExtraNone).1 in
     Base.getToken BodyString ex_client ex_token_transport w' "csrf" ExtraNone
     = (w', Resolved (JStr "fresh+\"))
     ∧ cached w' "watch" = None
     ∧ length (sent w') = 1%nat).
Proof.
  assert (cached ex_world_cached "patrol" = None) as H1 by reflexivity.
  assert (settle (ex_token_transport (length (sent ex_world_cached))) = Resolved ex_tokens)
    as H2 by reflexivity.
  assert (truthy (prop (prop ex_tokens "query") "tokens") = true) as H3 by reflexivity.
  assert (truthy (prop (prop (prop ex_tokens "query") "tokens") (token_name "csrf")) = true)
    as H4 by reflexivity.
  assert (truthy (prop (prop (prop ex_tokens "query") "tokens") (token_name "watch")) = false)
    as H5 by reflexivity.
  repeat (split; [assumption|]).
  destruct (getToken_caches_all_types BodyString ex_client ex_token_transport ex_world_cached
              "patrol" "csrf" ExtraNone ExtraNone ex_tokens H1 H2 H3) as (Hhit & _ & Hlen).
  destruct (getToken_caches_all_types BodyString ex_client ex_token_transport ex_world_cached
              "patrol" "watch" ExtraNone ExtraNone ex_tokens H1 H2 H3) as (_ & Hmiss & _).
  split; [exact (Hhit H4)|]. split; [exact (Hmiss H5) | exact Hlen].
Defined.

Lemma getUserInfo_never_rejects_witness :
  obj_wf (defaults_params ex_client)
  ∧ (Base.getUserInfo BodyString ex_client ex_failing_transport ex_world (JBool true)).2
    = Resolved JNull
  ∧ ∃ request,
      sent (Base.getUserInfo BodyString ex_client ex_failing_transport ex_world
              (JBool true)).1 = [request]
      ∧ obj_get (payload request) "meta" = Some (JStr "userinfo")
      ∧ obj_get (payload request) "assert" = Some (JStr "user").
Proof.
  assert (obj_wf (defaults_params ex_client)) as H1 by by_evaluation.
  split; [exact H1|].
  destruct (getUserInfo_never_rejects BodyString ex_client ex_failing_transport ex_world
              (JBool true) H1) as (_ & _ & Hfail & request & Hsent & _ & Hmeta & _ & Hassert).
  split; [exact (Hfail _ eq_refl)|].
  exists request. split; [exact Hsent|]. split; [exact Hmeta | exact Hassert].
Defined.

Lemma isCategory_result_witness :
  obj_wf (defaults_params ex_client)
  ∧ (MWCCStatic.isCategory ex_client ex_page_transport ex_world (JStr "Category:A")).2
    = Resolved (JBool true)
  ∧ (MWCCStatic.isCategory ex_client ex_failing_transport ex_world (JStr "Category:A")).2
    = Resolved JNull.
Proof.
  assert (obj_wf (defaults_params ex_client)) as H1 by by_evaluation.
  split; [exact H1|]. split.
  - exact (proj1 (isCategory_result ex_client ex_page_transport ex_world
                    (JStr "Category:A") H1)).
  - exact (proj1 (isCategory_result ex_client ex_failing_transport ex_world
                    (JStr "Category:A") H1)).
Defined.

Lemma getCategories_result_witness :
  obj_wf (defaults_params ex_client)
  ∧ (MWCCStatic.getCategories ex_client ex_page_transport ex_world (JStr "Category:A")).2
    = Resolved (JArr [JStr "Category:B"; JStr "Category:C"])
  ∧ (MWCCStatic.getCategories ex_client ex_transport ex_world (JStr "Category:A")).2
    = Resolved JNull.
Proof.
  assert (obj_wf (defaults_params ex_client)) as H1 by by_evaluation.
  split; [exact H1|]. split.
  - exact (proj1 (getCategories_result ex_client ex_page_transport ex_world
                    (JStr "Category:A") H1)).
  - exact (proj1 (getCategories_result ex_client ex_transport ex_world
                    (JStr "Category:A") H1)).
Defined.

Lemma create_request_witness :
  obj_wf (read_obj ex_world_cached 0%nat) ∧ obj_wf (defaults_data ex_client)
  ∧ ("token" ∉ keys (defaults_data ex_client))
  ∧ cached ex_world_cached "csrf" = Some (JStr "abc+\")
  ∧ is_badtoken (settle (ex_transport (length (sent ex_world_cached)))) = false
  ∧ ∃ request,
      sent (MWCCStatic.create ex_client ex_transport ex_world_cached (JStr "Sandbox") 0%nat
              (JStr "hello") JUndef).1 = [request]
      ∧ method request = Some "POST"
      ∧ last (payload request) = Some ("token", JStr "abc+\")
      ∧ obj_get (payload request) "bot" = Some (JStr "true")
      ∧ obj_get (payload request) "createonly" = Some (JStr "true")
      ∧ obj_get (payload request) "title" = Some (JStr "Sandbox").
Proof.
  assert (obj_wf (read_obj ex_world_cached 0%nat)) as H1 by by_evaluation.
  assert (obj_wf (defaults_data ex_client)) as H2 by by_evaluation.
  assert ("token" ∉ keys (defaults_data ex_client)) as H3 by by_evaluation.
  assert (cached ex_world_cached "csrf" = Some (JStr "abc+\")) as H4 by reflexivity.
  assert (is_badtoken (settle (ex_transport (length (sent ex_world_cached)))) = false) as H5
    by reflexivity.
  repeat (split; [assumption|]).
  destruct (create_request ex_client ex_transport ex_world_cached (JStr "Sandbox") 0%nat
              (JStr "hello") JUndef "abc+\" BodySearchParams _
              (or_introl (conj eq_refl eq_refl)) H1 H2 H3 H4 H5)
    as (request & Hsent & Hmethod & Hlast & Hcaller & Hown & _).
  exists request. repeat (split; [assumption|]).
  split; [|split].
  - apply (Hcaller "bot" (JBool true)); [discriminate | reflexivity].
  - apply (Hown "createonly" (JBool true)); [discriminate | by_evaluation | reflexivity].
  - apply (Hown "title" (JStr "Sandbox")); [discriminate | by_evaluation | reflexivity].
Defined.


Lemma edit_posts_revision_witness :
  obj_wf (defaults_data ex_client) ∧ ("token" ∉ keys (defaults_data ex_client))
  ∧ settle (ex_page_transport (length (sent ex_world_cached))) = Resolved ex_page_response
  ∧ truthy (first_page ex_page_response) = true
  ∧ truthy (prop (first_page ex_page_response) "invalidreason") = false
  ∧ truthy (prop (first_page ex_page_response) "missing") = false
  ∧ MWCCStatic.main_content ex_revision = Resolved (JStr "old text")
  ∧ truthy (prop ex_revision "timestamp") = true
  ∧ is_undefined (JStr "old text") = false
  ∧ ex_transform ex_world_read (JObj [("timestamp", prop ex_revision "timestamp");
                           ("content", JStr "old text")])
    = (ex_world_read, Resolved (JObj [("text", JStr "new text"); ("summary", JStr "test")]))
  ∧ obj_wf (edit_entries (JObj [("text", JStr "new text"); ("summary", JStr "test")]))
  ∧ cached ex_world_read "csrf" = Some (JStr "abc+\")
  ∧ is_badtoken (settle (ex_page_transport (length (sent ex_world_read)))) = false
  ∧ ∃ request,
      sent (MWCCStatic.edit ex_client ex_page_transport false ex_transform ex_world_cached
              (JStr "Category:A")).1 = sent ex_world_read ++ [request]
      ∧ method request = Some "POST"
      ∧ last (payload request) = Some ("token", JStr "abc+\")
      ∧ obj_get (payload request) "text" = Some (JStr "new text")
      ∧ obj_get (payload request) "basetimestamp" = Some (JStr "2024-01-01T00:00:00Z")
      ∧ (MWCCStatic.edit ex_client ex_page_transport false ex_transform ex_world_cached
           (JStr "Category:A")).2 = Resolved ex_edit_done.
Proof.
  assert (obj_wf (defaults_data ex_client)) as H1 by by_evaluation.
  assert ("token" ∉ keys (defaults_data ex_client)) as H2 by by_evaluation.
  assert (settle (ex_page_transport (length (sent ex_world_cached)))
          = Resolved ex_page_response) as H3 by reflexivity.
  assert (truthy (first_page ex_page_response) = true) as H4 by reflexivity.
  assert (truthy (prop (first_page ex_page_response) "invalidreason") = false) as H5
    by reflexivity.
  assert (truthy (prop (first_page ex_page_response) "missing") = false) as H6 by reflexivity.
  assert (MWCCStatic.main_content ex_revision = Resolved (JStr "old text")) as H7 by reflexivity.
  assert (truthy (prop ex_revision "timestamp") = true) as H8 by reflexivity.
  assert (is_undefined (JStr "old text") = false) as H9 by reflexivity.
  assert (ex_transform ex_world_read (JObj [("timestamp", prop ex_revision "timestamp");
                                 ("content", JStr "old text")])
          = (ex_world_read, Resolved (JObj [("text", JStr "new text"); ("summary", JStr "test")])))
    as H10 by reflexivity.
  assert (obj_wf (edit_entries (JObj [("text", JStr "new text"); ("summary", JStr "test")])))
    as H11 by by_evaluation.
  assert (cached ex_world_read "csrf" = Some (JStr "abc+\")) as H12 by reflexivity.
  assert (is_badtoken (settle (ex_page_transport (length (sent ex_world_read)))) = false) as H13
    by reflexivity.
  repeat (split; [assumption|]).
  destruct (edit_posts_revision ex_client ex_page_transport false ex_transform
              ex_world_cached ex_world_read (JStr "Category:A") ex_page_response (JStr "old text")
              (JObj [("text", JStr "new text"); ("summary", JStr "test")]) "abc+\"
              H1 H2 H3 H4 H5 H6 H7 H8 H9 H10 H11 H12 H13)
    as (request & Hsent & Hmethod & Hlast & Hresult & Hfields & _ & _ & _ & _ & _ & _ & Hrun).
  exists request. repeat (split; [assumption|]).
  split; [|split].
  - apply (Hresult "text" (JStr "new text")); [discriminate | reflexivity].
  - apply (Hfields "basetimestamp" (JStr "2024-01-01T00:00:00Z"));
      [discriminate | by_evaluation | reflexivity].
  - exact Hrun.
Defined.

Lemma newSection_additional_params_not_sent_witness :
  (0 < length (configs ex_section_world))%nat
  ∧ data (read_options ex_section_world 0%nat) = BodyNone
  ∧ ("token" ∉ keys (defaults_data ex_client))
  ∧ cached ex_section_world "csrf" = Some (JStr "abc+\")
  ∧ is_badtoken (settle (ex_transport (length (sent ex_section_world)))) = false
  ∧ ∃ request request',
      sent (MWCCStatic.newSection ex_client ex_transport ex_section_world (JStr "Talk:A")
              (JStr "Header") (JStr "Text") (Some 0%nat)).1 = [request]
      ∧ sent (MWCCStatic.newSection ex_client ex_transport ex_section_world (JStr "Talk:A")
                (JStr "Header") (JStr "Text") None).1 = [request']
      ∧ payload request = payload request'
      ∧ read_options (MWCCStatic.newSection ex_client ex_transport ex_section_world
                        (JStr "Talk:A") (JStr "Header") (JStr "Text") (Some 0%nat)).1 0%nat
        = request.
Proof.
  assert (0 < length (configs ex_section_world))%nat as H1 by (simpl; lia).
  assert (data (read_options ex_section_world 0%nat) = BodyNone) as H2 by reflexivity.
  assert ("token" ∉ keys (defaults_data ex_client)) as H3 by by_evaluation.
  assert (cached ex_section_world "csrf" = Some (JStr "abc+\")) as H4 by reflexivity.
  assert (is_badtoken (settle (ex_transport (length (sent ex_section_world)))) = false) as H5
    by reflexivity.
  repeat (split; [assumption|]).
  destruct (newSection_additional_params_not_sent ex_client ex_transport ex_section_world
              (JStr "Talk:A") (JStr "Header") (JStr "Text") 0%nat "abc+\" H1 H2 H3 H4 H5)
    as (request & request' & Hsent & Hsent' & _ & Hsame & _ & _ & Hoptions & _).
  exists request, request'. repeat (split; [assumption|]). exact Hoptions.
Defined.

Lemma config_records_unreadable_witness :
  (Config.wgNamespaceIds = Config.wgFormattedNamespaces
   ∨ Config.wgNamespaceIds = Config.wgNamespaceIds)
  ∧ unreadable (Config.initial Config.wgNamespaceIds)
  ∧ (Config.initConfigData ex_parseInt ex_toLowerCase Config.initial ex_siteinfo).1
      Config.wgNamespaceIds = Config.VObj [("wp", Config.VNum (Config.Int 4))]
  ∧ Config.get (Config.initConfigData ex_parseInt ex_toLowerCase Config.initial ex_siteinfo).1
      Config.wgNamespaceIds = Config.VNull
  ∧ Config.exists_
      (Config.initConfigData ex_parseInt ex_toLowerCase Config.initial ex_siteinfo).1
      Config.wgNamespaceIds = false.
Proof.
  assert (Config.wgNamespaceIds = Config.wgFormattedNamespaces
          ∨ Config.wgNamespaceIds = Config.wgNamespaceIds) as H1 by (right; reflexivity).
  assert (unreadable (Config.initial Config.wgNamespaceIds)) as H2 by exact I.
  split; [exact H1|]. split; [exact H2|]. split; [reflexivity|].
  destruct (config_records_unreadable ex_parseInt ex_toLowerCase Config.initial ex_siteinfo
              Config.wgNamespaceIds H1 H2) as (_ & Hget & Hexists & _).
  split; [exact Hget | exact Hexists].
Defined.

Lemma initConfigData_fills_witness :
  truthy (prop ex_siteinfo "error") = false
  ∧ (Config.initConfigData ex_parseInt ex_toLowerCase Config.initial ex_siteinfo).2 = None
  ∧ (let cd' := (Config.initConfigData ex_parseInt ex_toLowerCase Config.initial
                   ex_siteinfo).1 in
     cd' Config.wgSiteName = Config.VStr "Wikipedia"
     ∧ cd' Config.wgServerName = Config.initial Config.wgServerName
     ∧ cd' Config.wgCaseSensitiveNamespaces = Config.VArr [Config.VNum (Config.Int 2600)]
     ∧ cd' Config.wgContentNamespaces = Config.VArr [Config.VNum (Config.Int 4)]).
Proof.
  assert (truthy (prop ex_siteinfo "error") = false) as H1 by reflexivity.
  assert ((Config.initConfigData ex_parseInt ex_toLowerCase Config.initial ex_siteinfo).2
          = None) as H2 by reflexivity.
  split; [exact H1|]. split; [exact H2|].
  destruct (initConfigData_fills ex_parseInt ex_toLowerCase Config.initial ex_siteinfo H1 H2)
    as (Hfield & Hnamespaces).
  split; [|split].
  - exact (Hfield Config.wgSiteName "general" "sitename" eq_refl eq_refl).
  - exact (Hfield Config.wgServerName "general" "servername" eq_refl eq_refl).
  - exact (Hnamespaces _ eq_refl).
Defined.

Lemma continuedQuery_carries_continue_witness :
  (0 < length (objects ex_world))%nat
  ∧ obj_wf (read_obj ex_world 0%nat)
  ∧ (0 < 3)%nat
  ∧ (∀ i, (i < 3 - 1)%nat →
       continues (ex_continue_transport (length (sent ex_world) + i)%nat) = true)
  ∧ continues (ex_continue_transport (length (sent ex_world) + (3 - 1))%nat) = false
  ∧ length (sent (MWCCStatic.continuedQuery ex_client ex_continue_transport ex_world 0%nat
                    None).1) = 3%nat
  ∧ obj_get (payload (get_request ex_client
                        (params_at ex_continue_transport 0 (read_obj ex_world 0%nat) 1) 1))
      "rvcontinue" = Some (JStr "20240101|1").
Proof.
  assert (0 < length (objects ex_world))%nat as H1 by (simpl; lia).
  assert (obj_wf (read_obj ex_world 0%nat)) as H2 by by_evaluation.
  assert (0 < 3)%nat as H3 by lia.
  assert (∀ i, (i < 3 - 1)%nat →
            continues (ex_continue_transport (length (sent ex_world) + i)%nat) = true) as H4.
  { intros [|[|i]] Hi; [reflexivity | reflexivity | simpl in Hi; lia]. }
  assert (continues (ex_continue_transport (length (sent ex_world) + (3 - 1))%nat) = false)
    as H5 by reflexivity.
  repeat (split; [assumption|]).
  destruct (continuedQuery_carries_continue ex_client ex_continue_transport ex_world 0%nat
              None 3 H1 H2 H3 H4 H5) as (Hsent & _ & _ & Hcarried).
  split.
  - rewrite Hsent. reflexivity.
  - apply (Hcarried 0%nat "rvcontinue" "20240101|1" 1%nat);
      [by_evaluation | reflexivity | discriminate].
Defined.

Lemma massQuery_ceiling_below_one_never_returns_witness :
  obj_wf (read_obj ex_world 0%nat)
  ∧ named_fields (OneField "titles") = ["titles"]
  ∧ obj_get (read_obj ex_world 0%nat) "titles" = Some (JArr [JStr "A"; JStr "B"; JStr "C"])
  ∧ 0 ≤ 0
  ∧ MWCCStatic.massQuery ex_client ex_transport 1000 ex_world 0%nat (OneField "titles")
      (Some 0) = None.
Proof.
  assert (obj_wf (read_obj ex_world 0%nat)) as H1 by by_evaluation.
  assert (named_fields (OneField "titles") = ["titles"]) as H2 by reflexivity.
  assert (obj_get (read_obj ex_world 0%nat) "titles"
          = Some (JArr [JStr "A"; JStr "B"; JStr "C"])) as H3 by reflexivity.
  assert (0 ≤ 0) as H4 by lia.
  repeat (split; [assumption|]).
  exact (massQuery_ceiling_below_one_never_returns ex_client ex_transport 1000 ex_world 0%nat
           (OneField "titles") "titles" 0 (JStr "A") [JStr "B"; JStr "C"] H1 H2 H3 H4).
Defined.

Lemma massQuery_limit_parameters_witness :
  obj_wf (read_obj ex_world 0%nat)
  ∧ named_fields (OneField "titles") = ["titles"]
  ∧ obj_get (read_obj ex_world 0%nat) "titles" = Some (JArr [JStr "A"; JStr "B"; JStr "C"])
  ∧ 1 ≤ default MWCCStatic.apilimit None
  ∧ (length [JStr "A"; JStr "B"; JStr "C"] ≤ 3)%nat
  ∧ "rvlimit" ∈ keys (read_obj ex_world 0%nat)
  ∧ "rvlimit" ≠ "titles" ∧ "rvlimit" ≠ "token" ∧ ends_with_limit "rvlimit" = true
  ∧ ∃ w' r requests,
      MWCCStatic.massQuery ex_client ex_transport 3 ex_world 0%nat (OneField "titles") None
      = Some (w', r)
      ∧ sent w' = sent ex_world ++ requests
      ∧ ∀ request, request ∈ requests →
          obj_get (payload request) "rvlimit" = Some (JStr "max").
Proof.
  assert (obj_wf (read_obj ex_world 0%nat)) as H1 by by_evaluation.
  assert (named_fields (OneField "titles") = ["titles"]) as H2 by reflexivity.
  assert (obj_get (read_obj ex_world 0%nat) "titles"
          = Some (JArr [JStr "A"; JStr "B"; JStr "C"])) as H3 by reflexivity.
  assert (1 ≤ default MWCCStatic.apilimit None) as H4 by (unfold MWCCStatic.apilimit; simpl; lia).
  assert (length [JStr "A"; JStr "B"; JStr "C"] ≤ 3)%nat as H5 by (simpl; lia).
  assert ("rvlimit" ∈ keys (read_obj ex_world 0%nat)) as H6 by by_evaluation.
  assert ("rvlimit" ≠ "titles") as H7 by discriminate.
  assert ("rvlimit" ≠ "token") as H8 by discriminate.
  assert (ends_with_limit "rvlimit" = true) as H9 by reflexivity.
  repeat (split; [assumption|]).
  destruct (massQuery_limit_parameters ex_client ex_transport 3 ex_world 0%nat
              (OneField "titles") "titles" "rvlimit" None _ H1 H2 H3 H4 H5 H6 H7 H8 H9)
    as (w' & r & requests & Hrun & Hsent & Hmax).
  exists w', r, requests. split; [exact Hrun|]. split; [exact Hsent|].
  intros request Hin. exact (proj1 (Hmax request Hin) (or_introl eq_refl)).
Defined.

Lemma post_options_serve_once_witness :
  (0 < length (objects ex_two_world))%nat
  ∧ (1 < length (objects ex_two_world))%nat
  ∧ (0 < length (configs ex_two_world))%nat
  ∧ obj_wf (read_obj ex_two_world 0%nat) ∧ obj_wf (defaults_data ex_client)
  ∧ data (read_options ex_two_world 0%nat) = BodyNone
  ∧ (MWCC.post ex_client ex_transport
       (MWCC.post ex_client ex_transport ex_two_world 0%nat (Some 0%nat)).1
       1%nat (Some 0%nat)).2 = Thrown TypeError
  ∧ ∃ request1 request2,
      sent (MWCCStatic.post ex_client ex_transport
              (MWCCStatic.post ex_client ex_transport ex_two_world 0%nat (Some 0%nat)).1
              1%nat (Some 0%nat)).1 = [request1; request2]
      ∧ payload request2 = payload request1.
Proof.
  assert (0 < length (objects ex_two_world))%nat as H1 by (simpl; lia).
  assert (1 < length (objects ex_two_world))%nat as H2 by (simpl; lia).
  assert (0 < length (configs ex_two_world))%nat as H3 by (simpl; lia).
  assert (obj_wf (read_obj ex_two_world 0%nat)) as H4 by by_evaluation.
  assert (obj_wf (defaults_data ex_client)) as H5 by by_evaluation.
  assert (data (read_options ex_two_world 0%nat) = BodyNone) as H6 by reflexivity.
  repeat (split; [assumption|]).
  destruct (post_options_serve_once ex_client ex_transport ex_two_world 0%nat 1%nat 0%nat
              H1 H2 H3 H4 H5 H6)
    as (Hthrown & _ & request1 & request2 & _ & Hsent & Hsame).
  split; [exact Hthrown|].
  exists request1, request2. split; [exact Hsent | exact Hsame].
Defined.

Lemma getToken_request_fails_witness :
  cached ex_world "csrf" = None
  ∧ settle (ex_failing_transport (length (sent ex_world)))
    = Rejected (error_value "http" "HTTP request failed" (Some ex_network_error))
  ∧ (let run := Base.getToken BodyString ex_client ex_failing_transport ex_world "csrf"
                  ExtraNone in
     run.2 = Rejected (error_value "http" "HTTP request failed" (Some ex_network_error))
     ∧ tokens run.1 = tokens ex_world
     ∧ length (sent (Base.getToken BodyString ex_client ex_failing_transport run.1 "csrf"
                       ExtraNone).1) = 2%nat).
Proof.
  assert (cached ex_world "csrf" = None) as H1 by reflexivity.
  assert (settle (ex_failing_transport (length (sent ex_world)))
          = Rejected (error_value "http" "HTTP request failed" (Some ex_network_error)))
    as H2 by reflexivity.
  split; [exact H1|]. split; [exact H2|].
  destruct (getToken_request_fails BodyString ex_client ex_failing_transport ex_world "csrf"
              ExtraNone ExtraNone _ H1 H2) as (Hrejected & Htokens & _ & Hagain).
  split; [exact Hrejected|]. split; [exact Htokens | exact Hagain].
Defined.

Lemma parameters_serve_again_witness :
  (0 < length (objects ex_world_token))%nat
  ∧ obj_wf (read_obj ex_world_token 0%nat) ∧ obj_wf (defaults_params ex_client)
  ∧ is_string (prop (JObj (read_obj ex_world_token 0%nat)) "token") = true
  ∧ ∃ request1 request2,
      sent (Base.get BodySearchParams ex_client ex_transport
              (Base.get BodySearchParams ex_client ex_transport ex_world_token 0%nat None).1
              0%nat None).1 = [request1; request2]
      ∧ obj_get (payload request2) "title" = obj_get (payload request1) "title"
      ∧ obj_get (payload request2) "token" = None.
Proof.
  assert (0 < length (objects ex_world_token))%nat as H1 by (simpl; lia).
  assert (obj_wf (read_obj ex_world_token 0%nat)) as H2 by by_evaluation.
  assert (obj_wf (defaults_params ex_client)) as H3 by by_evaluation.
  assert (is_string (prop (JObj (read_obj ex_world_token 0%nat)) "token") = true) as H4
    by reflexivity.
  repeat (split; [assumption|]).
  destruct (parameters_serve_again BodySearchParams ex_client ex_transport ex_world_token
              0%nat H1 H2 H3) as (request1 & request2 & Hsent & Hsame & Htoken).
  exists request1, request2. split; [exact Hsent|]. split.
  - apply Hsame. discriminate.
  - exact (Htoken H4).
Defined.
